(** * grpc-js server runtime: a shallow embedding of [packages/grpc-js/src/server.ts]

    The first part embeds the source: the values the server exchanges
    with its collaborators, the [Server] class state, the handler registry
    ([register], [unregister], [addService], [removeService]), the
    per-stream dispatch installed by [_setupHandlers], the bind engine
    ([bindAsync] with its local closures [bindSpecificPort],
    [bindWildcardPort] and [resolverListener]), the lifecycle operations
    ([start], [tryShutdown], [forceShutdown]) and the event loop that
    drives them.  The second part states and proves the properties.

    JavaScript mutation is explicit state passing, exceptions are a result
    type that keeps the state reached when the exception left the function,
    and everything the server does to the outside (logging, HTTP/2 calls,
    channelz calls, user callbacks) is recorded as a list of [Effect]s in
    program order. *)

From Stdlib Require Import ZArith String List.
From stdpp Require Import base option list gmap strings pretty.
Import ListNotations.

Local Open Scope Z_scope.

(** ** Values shared with the collaborators *)

(** [Status] of [./constants]: the gRPC status codes. *)
Inductive Status :=
  | OK | CANCELLED | UNKNOWN | INVALID_ARGUMENT | DEADLINE_EXCEEDED
  | NOT_FOUND | ALREADY_EXISTS | PERMISSION_DENIED | RESOURCE_EXHAUSTED
  | FAILED_PRECONDITION | ABORTED | OUT_OF_RANGE | UNIMPLEMENTED
  | INTERNAL | UNAVAILABLE | DATA_LOSS | UNAUTHENTICATED.

Global Instance Status_eq_dec : EqDecision Status.
Proof. solve_decision. Defined.

(** [LogVerbosity] of [./constants]. *)
Inductive LogVerbosity := DEBUG | INFO | ERROR.

Global Instance LogVerbosity_eq_dec : EqDecision LogVerbosity.
Proof. solve_decision. Defined.

(** Functions are opaque to the server: it stores them and calls them.  A
    function value is represented by an identifier. *)
Definition FnId := nat.
Bind Scope nat_scope with FnId.

(** [Metadata] of [./metadata]; [new Metadata()] is the empty one. *)
Definition Metadata := list (string * string).
Definition new_Metadata : Metadata := [].

(** The [code] field of a thrown or returned JavaScript error object.
    [None] is [undefined]; a defined code is a gRPC status or any other
    value (Node's own errors carry string codes). *)
Inductive ErrCode :=
  | NumericCode (st : Status)
  | OtherCode (v : string).

Global Instance ErrCode_eq_dec : EqDecision ErrCode.
Proof. solve_decision. Defined.

(** [Partial<ServiceError>], also the shape of a caught [err]: every field
    may be absent. *)
Record ServiceError := {
  code : option ErrCode;
  details : option string;
  metadata : option Metadata;
  message : option string
}.

Global Instance ServiceError_eq_dec : EqDecision ServiceError.
Proof. solve_decision. Defined.

(** The error classes that occur: the two the server throws itself, and
    [RangeError], which Node's [listen] throws for a port out of range. *)
Inductive JsError :=
  | Error (message : string)
  | TypeError (message : string)
  | RangeError (message : string).

Global Instance JsError_eq_dec : EqDecision JsError.
Proof. solve_decision. Defined.

(** [HandlerType] of [./server-call]. *)
Inductive HandlerType := unary | clientStream | serverStream | bidi.

Global Instance HandlerType_eq_dec : EqDecision HandlerType.
Proof. solve_decision. Defined.

(** The string a [HandlerType] is at run time. *)
Definition HandlerType_str (t : HandlerType) : string :=
  match t with
  | unary => "unary"
  | clientStream => "clientStream"
  | serverStream => "serverStream"
  | bidi => "bidi"
  end.

(** [getUnimplementedStatusResponse]. *)
Definition getUnimplementedStatusResponse (methodName : string) : ServiceError :=
  {| code := Some (NumericCode UNIMPLEMENTED);
     details := Some ("The server does not implement the method " +:+ methodName);
     metadata := Some new_Metadata;
     message := None |}.

(** A call handler as the registry stores it: a function handed to
    [register] as it is, a user implementation bound to its implementation
    object ([implFn.bind(implementation)]), or one of the four closures
    [getDefaultHandler] returns, which captures its status response. *)
Inductive HandleCall :=
  | RawFn (f : FnId)
  | BoundFn (f : FnId)
  | DefaultFn (handlerType : HandlerType) (unimplementedStatusResponse : ServiceError).

Global Instance HandleCall_eq_dec : EqDecision HandleCall.
Proof. solve_decision. Defined.

(** [getDefaultHandler].  The [default:] branch of its switch is not
    reachable for a [HandlerType]. *)
Definition getDefaultHandler (handlerType : HandlerType) (methodName : string)
    : HandleCall :=
  let unimplementedStatusResponse := getUnimplementedStatusResponse methodName in
  DefaultFn handlerType unimplementedStatusResponse.

(** What a call of a default handler does with the two arguments it gets:
    the unary and client-streaming closures call [callback(response, null)],
    the server-streaming and bidi closures emit ['error'] on the call. *)
Inductive DefaultAction :=
  | CallbackWith (err : ServiceError)
  | EmitError (err : ServiceError).

Definition runDefaultHandler (handlerType : HandlerType)
    (unimplementedStatusResponse : ServiceError) : DefaultAction :=
  match handlerType with
  | unary => CallbackWith unimplementedStatusResponse
  | clientStream => CallbackWith unimplementedStatusResponse
  | serverStream => EmitError unimplementedStatusResponse
  | bidi => EmitError unimplementedStatusResponse
  end.

(** [Handler] of [./server-call], the record [register] builds. *)
Record Handler := {
  func : HandleCall;
  serialize : FnId;
  deserialize : FnId;
  type : string;
  path : string
}.

Global Instance Handler_eq_dec : EqDecision Handler.
Proof. solve_decision. Defined.

(** [MethodDefinition] of [./make-client], one entry of a
    [ServiceDefinition].  [originalName] is optional. *)
Record MethodDefinition := {
  md_path : string;
  requestStream : bool;
  responseStream : bool;
  requestSerialize : FnId;
  requestDeserialize : FnId;
  responseSerialize : FnId;
  responseDeserialize : FnId;
  originalName : option string
}.

(** A service definition in the order [Object.keys] enumerates it. *)
Definition ServiceDefinition := list (string * MethodDefinition).

(** [UntypedServiceImplementation]: an object whose properties are
    functions, as a property read sees it: its own properties, and the
    properties of the objects on its prototype chain, nearest first. *)
Record UntypedServiceImplementation := {
  own_properties : gmap string FnId;
  prototype_chain : list (gmap string FnId)
}.

(** [implementation[key]]: the own property, else the property of the
    nearest object on the prototype chain that has one; [None] is
    [undefined]. *)
Fixpoint chain_get (chain : list (gmap string FnId)) (key : string)
    : option FnId :=
  match chain with
  | [] => None
  | properties :: rest =>
      match properties !! key with
      | Some f => Some f
      | None => chain_get rest key
      end
  end.

Definition js_get (implementation : UntypedServiceImplementation) (key : string)
    : option FnId :=
  chain_get (own_properties implementation :: prototype_chain implementation) key.

(** [Object.prototype], which every object literal inherits from: its
    function-valued properties.  The accessor [__proto__], whose value is
    no function, is left out, values being functions as the declared type
    of an implementation says. *)
Definition Object_prototype : gmap string FnId :=
  list_to_map
    [("constructor", 900%nat); ("__defineGetter__", 901%nat);
     ("__defineSetter__", 902%nat); ("hasOwnProperty", 903%nat);
     ("__lookupGetter__", 904%nat); ("__lookupSetter__", 905%nat);
     ("isPrototypeOf", 906%nat); ("propertyIsEnumerable", 907%nat);
     ("toString", 908%nat); ("valueOf", 909%nat); ("toLocaleString", 910%nat)].

(** An object literal [{ ... }] with the own properties [own]. *)
Definition object_literal (own : gmap string FnId) : UntypedServiceImplementation :=
  {| own_properties := own; prototype_chain := [Object_prototype] |}.

(** An object with no property at all, own or inherited:
    [Object.create(null)]. *)
Global Instance UntypedServiceImplementation_empty
    : Empty UntypedServiceImplementation :=
  {| own_properties := ∅; prototype_chain := [] |}.

(** An argument of a public method as an untyped caller may pass it. *)
Inductive JsArg (A : Type) :=
  | JsNull
  | JsNonObject (typeof : string)
  | JsObject (a : A).
Arguments JsNull {A}.
Arguments JsNonObject {A} typeof.
Arguments JsObject {A} a.

(** ** Channelz references *)

(** [ServerRef] and [SocketRef] of [./channelz].  The server's own ref is
    a [ServerRef]; listeners and sessions have [SocketRef]s. *)
Record ServerRef := {
  server_id : nat
}.

Record SocketRef := {
  socket_id : nat;
  socket_name : string
}.

(** The refs [unregisterChannelzRef] accepts. *)
Inductive ChannelzRef :=
  | OfServer (ref : ServerRef)
  | OfSocket (ref : SocketRef).

Global Instance ServerRef_eq_dec : EqDecision ServerRef.
Proof. solve_decision. Defined.

Global Instance SocketRef_eq_dec : EqDecision SocketRef.
Proof. solve_decision. Defined.

Global Instance ChannelzRef_eq_dec : EqDecision ChannelzRef.
Proof. solve_decision. Defined.

(** [ChannelzCallTracker]: the three counters ([lastCallStartedTimestamp]
    is a clock reading and is left out). *)
Record ChannelzCallTracker := {
  callsStarted : nat;
  callsSucceeded : nat;
  callsFailed : nat
}.

Definition new_ChannelzCallTracker : ChannelzCallTracker :=
  {| callsStarted := 0; callsSucceeded := 0; callsFailed := 0 |}.

Definition addCallStarted (t : ChannelzCallTracker) : ChannelzCallTracker :=
  {| callsStarted := S (callsStarted t);
     callsSucceeded := callsSucceeded t;
     callsFailed := callsFailed t |}.

Definition addCallSucceeded (t : ChannelzCallTracker) : ChannelzCallTracker :=
  {| callsStarted := callsStarted t;
     callsSucceeded := S (callsSucceeded t);
     callsFailed := callsFailed t |}.

Definition addCallFailed (t : ChannelzCallTracker) : ChannelzCallTracker :=
  {| callsStarted := callsStarted t;
     callsSucceeded := callsSucceeded t;
     callsFailed := S (callsFailed t) |}.

(** [ChannelzSessionInfo]. *)
Record ChannelzSessionInfo := {
  si_ref : SocketRef;
  streamTracker : ChannelzCallTracker;
  messagesSent : nat;
  messagesReceived : nat
}.

Definition with_streamTracker (f : ChannelzCallTracker → ChannelzCallTracker)
    (i : ChannelzSessionInfo) : ChannelzSessionInfo :=
  {| si_ref := si_ref i;
     streamTracker := f (streamTracker i);
     messagesSent := messagesSent i;
     messagesReceived := messagesReceived i |}.

(** An HTTP/2 server object with the one property the server reads. *)
Record Http2Server := {
  h2_id : nat;
  listening : bool
}.

(** One element of [http2ServerList]. *)
Record ListenerEntry := {
  server : Http2Server;
  le_channelzRef : SocketRef
}.

(** An HTTP/2 session with the one property [tryShutdown] reads. *)
Record Http2Session := {
  sess_id : nat;
  closed : bool
}.

(** ** The [Server] class state *)

Record Server := {
  http2ServerList : list ListenerEntry;
  handlers : gmap string Handler;
  sessions : list (Http2Session * ChannelzSessionInfo);
  started : bool;
  channelzRef : ServerRef;
  callTracker : ChannelzCallTracker
}.

Definition set_handlers (h : gmap string Handler) (s : Server) : Server :=
  {| http2ServerList := http2ServerList s; handlers := h;
     sessions := sessions s; started := started s;
     channelzRef := channelzRef s; callTracker := callTracker s |}.

Definition set_http2ServerList (l : list ListenerEntry) (s : Server) : Server :=
  {| http2ServerList := l; handlers := handlers s;
     sessions := sessions s; started := started s;
     channelzRef := channelzRef s; callTracker := callTracker s |}.

Definition set_sessions (m : list (Http2Session * ChannelzSessionInfo))
    (s : Server) : Server :=
  {| http2ServerList := http2ServerList s; handlers := handlers s;
     sessions := m; started := started s;
     channelzRef := channelzRef s; callTracker := callTracker s |}.

Definition set_started (b : bool) (s : Server) : Server :=
  {| http2ServerList := http2ServerList s; handlers := handlers s;
     sessions := sessions s; started := b;
     channelzRef := channelzRef s; callTracker := callTracker s |}.

Definition set_callTracker (t : ChannelzCallTracker) (s : Server) : Server :=
  {| http2ServerList := http2ServerList s; handlers := handlers s;
     sessions := sessions s; started := started s;
     channelzRef := channelzRef s; callTracker := t |}.

(** The state a constructor call leaves, for the server ref [ref]. *)
Definition new_Server (ref : nat) : Server :=
  {| http2ServerList := []; handlers := ∅; sessions := [];
     started := false; channelzRef := {| server_id := ref |};
     callTracker := new_ChannelzCallTracker |}.

(** ** Exceptions

    A method either returns a value or throws; both leave a server state,
    because a JavaScript exception does not undo earlier assignments. *)
Inductive Completion (St A : Type) :=
  | Returns (a : A) (s : St)
  | Throws (e : JsError) (s : St).
Arguments Returns {St A} a s.
Arguments Throws {St A} e s.

Definition state_of {St A} (c : Completion St A) : St :=
  match c with Returns _ s => s | Throws _ s => s end.

(** ** Handler registry *)

Module Registry.

(** [Server.register]. *)
Definition register (name : string) (handler : HandleCall)
    (serialize deserialize : FnId) (type : string) (s : Server)
    : bool * Server :=
  match handlers s !! name with
  | Some _ => (false, s)
  | None =>
      (true,
       set_handlers
         (<[name := {| func := handler; serialize := serialize;
                       deserialize := deserialize; type := type;
                       path := name |}]> (handlers s)) s)
  end.

(** [Server.unregister]: [Map.prototype.delete] answers whether the key
    was there. *)
Definition unregister (name : string) (s : Server) : bool * Server :=
  (bool_decide (is_Some (handlers s !! name)),
   set_handlers (delete name (handlers s)) s).

(** The handler type [addService] derives from the two stream flags. *)
Definition methodType_of (attrs : MethodDefinition) : HandlerType :=
  if requestStream attrs then
    if responseStream attrs then bidi else clientStream
  else
    if responseStream attrs then serverStream else unary.

(** The implementation [addService] selects for one method:
    [implementation[name]], else [implementation[attrs.originalName]] when
    that is a string.  Both are property reads, so an inherited function is
    selected as an own one is. *)
Definition select_implFn (implementation : UntypedServiceImplementation)
    (name : string) (attrs : MethodDefinition) : option FnId :=
  match js_get implementation name with
  | Some f => Some f
  | None =>
      match originalName attrs with
      | Some o => js_get implementation o
      | None => None
      end
  end.

(** The body of the [forEach] callback of [addService]. *)
Definition addService_method (implementation : UntypedServiceImplementation)
    (name : string) (attrs : MethodDefinition) (s : Server) : Completion Server unit :=
  let methodType := methodType_of attrs in
  let impl :=
    match select_implFn implementation name attrs with
    | Some implFn => BoundFn implFn
    | None => getDefaultHandler methodType name
    end in
  let '(success, s') :=
    register (md_path attrs) impl (responseSerialize attrs)
      (requestDeserialize attrs) (HandlerType_str methodType) s in
  if success then Returns tt s'
  else Throws
         (Error ("Method handler for " +:+ md_path attrs +:+ " already provided."))
         s'.

(** [serviceKeys.forEach]: an exception in the callback ends the loop. *)
Fixpoint addService_forEach (implementation : UntypedServiceImplementation)
    (service : ServiceDefinition) (s : Server) : Completion Server unit :=
  match service with
  | [] => Returns tt s
  | (name, attrs) :: rest =>
      match addService_method implementation name attrs s with
      | Returns _ s' => addService_forEach implementation rest s'
      | Throws e s' => Throws e s'
      end
  end.

(** [Server.addService]. *)
Definition addService (service : JsArg ServiceDefinition)
    (implementation : JsArg UntypedServiceImplementation) (s : Server)
    : Completion Server unit :=
  match service, implementation with
  | JsObject service, JsObject implementation =>
      match service with
      | [] => Throws (Error "Cannot add an empty service to a server") s
      | _ => addService_forEach implementation service s
      end
  | _, _ => Throws (Error "addService() requires two objects as arguments") s
  end.

(** [Server.removeService]. *)
Definition removeService (service : JsArg ServiceDefinition) (s : Server)
    : Completion Server unit :=
  match service with
  | JsObject service =>
      Returns tt
        (fold_left (λ s '(_, attrs), (unregister (md_path attrs) s).2) service s)
  | _ => Throws (Error "removeService() requires object as argument") s
  end.

End Registry.

(** ** Effects

    Calls that leave the server object, in program order. *)

(** [SubchannelAddress] of [./subchannel-address]: a TCP address has a
    [port] property, any other address is a path. *)
Inductive SubchannelAddress :=
  | TcpAddress (host : string) (port : Z)
  | IpcAddress (path : string).

Global Instance SubchannelAddress_eq_dec : EqDecision SubchannelAddress.
Proof. solve_decision. Defined.

(** [isTcpSubchannelAddress]: ['port' in address]. *)
Definition isTcpSubchannelAddress (a : SubchannelAddress) : bool :=
  match a with TcpAddress _ _ => true | IpcAddress _ => false end.

(** What [http2Server.address()] answers. *)
Inductive BoundAddress :=
  | BoundPath (p : string)
  | BoundInfo (address : string) (port : Z).

(** A user callback with the arguments it is called with. *)
Inductive CallbackCall :=
  | BindCallback (callback : FnId) (error : option string) (port : Z)
  | ShutdownCallback (callback : FnId) (error : option string).

(** The task [deferredCallback] hands to [process.nextTick]: the closure
    [() => callback(error, port)]. *)
Record BindReply := {
  reply_callback : FnId;
  reply_error : option string;
  reply_port : Z
}.

(** The classes of [./server-call] whose instances the handle functions
    build and hand to the handler function. *)
Inductive ServerCallClass :=
  | ServerUnaryCallImpl
  | ServerReadableStreamImpl
  | ServerWritableStreamImpl
  | ServerDuplexStreamImpl.

(** The two [async] functions of the file; each has one [await]. *)
Inductive AsyncFunction := HandleUnary | HandleServerStreaming.

Inductive Effect :=
  | ETrace (text : string)
  | ELog (severity : LogVerbosity) (text : string)
  | ECallback (c : CallbackCall)
  | ENextTick (task : BindReply)
  | ECreateServer (h2 : nat) (secure : bool)
  | EListen (h2 : nat) (addr : SubchannelAddress)
  | ERegisterChannelzSocket (ref : SocketRef)
  | ERefChild (ref : SocketRef)
  | ERespond (stream : nat) (status : Z) (endStream : bool)
  | ENewCallStream (stream : nat) (handler : option Handler)
  | EReceiveMetadata (stream : nat)
  | EReceiveUnaryMessage (stream : nat)
  | EAwait (stream : nat) (suspended : AsyncFunction)
  | ENewServerCall (stream : nat) (class : ServerCallClass)
  | EUserHandler (stream : nat) (f : FnId)
  | EStreamOnError (stream : nat)
  | EStreamDestroy (stream : nat)
  | EEmitError (stream : nat) (err : ServiceError)
  | ESendUnaryMessage (stream : nat) (err : option ServiceError)
  | ESendError (stream : nat) (err : ServiceError)
  | EUnrefChild (ref : SocketRef)
  | EUnregisterChannelzRef (ref : ChannelzRef)
  | EHttp2ServerClose (h2 : nat)
  | ESessionClose (session : nat)
  | ESessionDestroy (session : nat) (cancel : bool)
  | EAddTrace (severity : string) (text : string).

Global Instance CallbackCall_eq_dec : EqDecision CallbackCall.
Proof. solve_decision. Defined.

Global Instance ServerCallClass_eq_dec : EqDecision ServerCallClass.
Proof. solve_decision. Defined.

Global Instance AsyncFunction_eq_dec : EqDecision AsyncFunction.
Proof. solve_decision. Defined.

Global Instance BindReply_eq_dec : EqDecision BindReply.
Proof. solve_decision. Defined.

Global Instance Effect_eq_dec : EqDecision Effect.
Proof. solve_decision. Defined.

(** [Server.trace]. *)
Definition trace (s : Server) (text : string) : Effect :=
  ETrace ("(" +:+ pretty (server_id (channelzRef s)) +:+ ") " +:+ text).

(** [Map.prototype.get] and an in-place update of the stored object, for
    the [sessions] map keyed by session object. *)
Definition sessions_get (session : nat)
    (m : list (Http2Session * ChannelzSessionInfo)) : option ChannelzSessionInfo :=
  snd <$> List.find (λ e, bool_decide (sess_id e.1 = session)) m.

Definition sessions_alter (f : ChannelzSessionInfo → ChannelzSessionInfo)
    (session : nat) (m : list (Http2Session * ChannelzSessionInfo))
    : list (Http2Session * ChannelzSessionInfo) :=
  map (λ e, if bool_decide (sess_id e.1 = session) then (e.1, f e.2) else e) m.

(** ** Dispatch: the ['stream'] and ['session'] listeners of [_setupHandlers] *)

Module Dispatch.

(** A value of [http2.IncomingHttpHeaders]. *)
Inductive HeaderValue :=
  | HString (v : string)
  | HArray (v : list string).

Abbreviation IncomingHttpHeaders := (gmap string HeaderValue).

Definition HTTP2_HEADER_CONTENT_TYPE : string := "content-type".
Definition HTTP2_HEADER_PATH : string := ":path".
Definition HTTP_STATUS_UNSUPPORTED_MEDIA_TYPE : Z := 415.

(** [http2.ServerHttp2Stream]: its identity and the session it runs on. *)
Record ServerHttp2Stream := {
  stream_id : nat;
  session : nat
}.

(** What the collaborators answer while one ['stream'] event is handled:
    [http2Server.address()], whether [new Http2ServerCallStream] or
    [call.receiveMetadata] throws, the value of [call.cancelled], and
    whether the user's function throws before it returns. *)
Record DispatchEnv := {
  serverAddress : option BoundAddress;
  constructThrows : option ServiceError;
  receiveMetadataThrows : option ServiceError;
  cancelled : bool;
  userThrows : option ServiceError
}.

(** A header value where JavaScript needs a string (concatenation, a
    template literal). *)
Definition js_string (v : option HeaderValue) : string :=
  match v with
  | None => "undefined"
  | Some (HString p) => p
  | Some (HArray l) => String.concat "," l
  end.

(** [typeof contentType !== 'string' || !contentType.startsWith('application/grpc')]. *)
Definition rejects_contentType (contentType : option HeaderValue) : bool :=
  match contentType with
  | Some (HString c) => negb (String.prefix "application/grpc" c)
  | _ => true
  end.

(** [this.handlers.get(path)]: the keys of the map are strings. *)
Definition handlers_get (path : option HeaderValue) (s : Server) : option Handler :=
  match path with
  | Some (HString p) => handlers s !! p
  | _ => None
  end.

(** The string built from [http2Server.address()] for the trace. *)
Definition serverAddressString (a : option BoundAddress) : string :=
  match a with
  | None => "null"
  | Some (BoundPath p) => if bool_decide (p = EmptyString) then "null" else p
  | Some (BoundInfo address port) => address +:+ ":" +:+ pretty port
  end.

(** A synchronous call of [handler.func].  [callback] is what the second
    argument does when called with an error, when there is a second
    argument. *)
Definition call_func (sid : nat) (f : HandleCall)
    (callback : option (ServiceError → list Effect)) (env : DispatchEnv)
    : list Effect * option ServiceError :=
  match f with
  | RawFn g => ([EUserHandler sid g], userThrows env)
  | BoundFn g => ([EUserHandler sid g], userThrows env)
  | DefaultFn handlerType response =>
      match runDefaultHandler handlerType response with
      | CallbackWith err =>
          match callback with
          | Some k => (k err, None)
          | None =>
              ([], Some {| code := None; details := None; metadata := None;
                           message := Some "callback is not a function" |})
          end
      | EmitError err => ([EEmitError sid err], None)
      end
  end.

(** [handleUnary] and [handleServerStreaming] up to their [await]: the
    function calls [call.receiveUnaryMessage()] and is suspended on the
    promise it gets. *)
Definition handleUnary (sid : nat) : list Effect * option ServiceError :=
  ([EReceiveUnaryMessage sid; EAwait sid HandleUnary], None).

Definition handleServerStreaming (sid : nat) : list Effect * option ServiceError :=
  ([EReceiveUnaryMessage sid; EAwait sid HandleServerStreaming], None).

(** [handleUnary] after the [await]: [received] says that the request is
    not [undefined].  The handler function gets a [ServerUnaryCallImpl]
    and a callback that sends the unary reply.  An exception here rejects
    the promise of the async function and never reaches the [catch] of the
    listener. *)
Definition handleUnary_resume (sid : nat) (handler : Handler) (received : bool)
    (env : DispatchEnv) : list Effect * option ServiceError :=
  if negb received || cancelled env then ([], None)
  else
    let '(es, r) :=
      call_func sid (func handler)
        (Some (λ err, [ESendUnaryMessage sid (Some err)])) env in
    (ENewServerCall sid ServerUnaryCallImpl :: es, r).

(** [handleServerStreaming] after the [await]: the handler function gets
    a [ServerWritableStreamImpl] and no callback. *)
Definition handleServerStreaming_resume (sid : nat) (handler : Handler)
    (received : bool) (env : DispatchEnv) : list Effect * option ServiceError :=
  if negb received || cancelled env then ([], None)
  else
    let '(es, r) := call_func sid (func handler) None env in
    (ENewServerCall sid ServerWritableStreamImpl :: es, r).

(** What runs when the promise a suspended function waits for is
    settled. *)
Definition resume (f : AsyncFunction) (sid : nat) (handler : Handler)
    (received : bool) (env : DispatchEnv) : list Effect * option ServiceError :=
  match f with
  | HandleUnary => handleUnary_resume sid handler received env
  | HandleServerStreaming => handleServerStreaming_resume sid handler received env
  end.

(** [handleClientStreaming]: the [ServerReadableStreamImpl] is built
    before [call.cancelled] is read; [respond] destroys the request stream
    and sends the unary reply. *)
Definition handleClientStreaming (sid : nat) (handler : Handler)
    (env : DispatchEnv) : list Effect * option ServiceError :=
  let stream := ENewServerCall sid ServerReadableStreamImpl in
  if cancelled env then ([stream], None)
  else
    let respond := λ err, [EStreamDestroy sid; ESendUnaryMessage sid (Some err)] in
    let '(es, r) := call_func sid (func handler) (Some respond) env in
    (stream :: EStreamOnError sid :: es, r).

(** [handleBidiStreaming]: the [ServerDuplexStreamImpl] is built before
    [call.cancelled] is read. *)
Definition handleBidiStreaming (sid : nat) (handler : Handler)
    (env : DispatchEnv) : list Effect * option ServiceError :=
  let stream := ENewServerCall sid ServerDuplexStreamImpl in
  if cancelled env then ([stream], None)
  else
    let '(es, r) := call_func sid (func handler) None env in
    (stream :: es, r).

(** The [switch (handler.type)] of the listener. *)
Definition handle_by_type (sid : nat) (handler : Handler) (env : DispatchEnv)
    : list Effect * option ServiceError :=
  if bool_decide (type handler = "unary") then handleUnary sid
  else if bool_decide (type handler = "clientStream") then
    handleClientStreaming sid handler env
  else if bool_decide (type handler = "serverStream") then
    handleServerStreaming sid
  else if bool_decide (type handler = "bidi") then
    handleBidiStreaming sid handler env
  else
    ([], Some {| code := None; details := None; metadata := None;
                 message := Some ("Unknown handler type: " +:+ type handler) |}).

(** The [try] block: its effects, whether [call] was assigned when it
    ended, and the exception that ended it, when one did. *)
Definition dispatch_try (s : Server) (stream : ServerHttp2Stream)
    (headers : IncomingHttpHeaders) (env : DispatchEnv)
    : list Effect * bool * option ServiceError :=
  let sid := stream_id stream in
  let path := headers !! HTTP2_HEADER_PATH in
  let received :=
    trace s ("Received call to method " +:+ js_string path +:+ " at address "
             +:+ serverAddressString (serverAddress env)) in
  match handlers_get path s with
  | None =>
      ([received;
        trace s ("No handler registered for method " +:+ js_string path
                 +:+ ". Sending UNIMPLEMENTED status.")],
       false, Some (getUnimplementedStatusResponse (js_string path)))
  | Some handler =>
      match constructThrows env with
      | Some err => ([received], false, Some err)
      | None =>
          let constructed := [received; ENewCallStream sid (Some handler);
                              EReceiveMetadata sid] in
          match receiveMetadataThrows env with
          | Some err => (constructed, true, Some err)
          | None =>
              let '(es, r) := handle_by_type sid handler env in
              (constructed ++ es, true, r)
          end
      end
  end.

(** [addCallFailed] on the server and, when the session is tracked, on
    its stream tracker. *)
Definition count_failed (stream : ServerHttp2Stream) (s : Server) : Server :=
  let s1 := set_callTracker (addCallFailed (callTracker s)) s in
  set_sessions
    (sessions_alter (with_streamTracker addCallFailed) (session stream)
       (sessions s1)) s1.

Definition count_started (stream : ServerHttp2Stream) (s : Server) : Server :=
  let s1 := set_callTracker (addCallStarted (callTracker s)) s in
  set_sessions
    (sessions_alter (with_streamTracker addCallStarted) (session stream)
       (sessions s1)) s1.

(** [if (err.code === undefined) err.code = Status.INTERNAL]. *)
Definition default_code (err : ServiceError) : ServiceError :=
  match code err with
  | None =>
      {| code := Some (NumericCode INTERNAL); details := details err;
         metadata := metadata err; message := message err |}
  | Some _ => err
  end.

(** The [catch] block. *)
Definition dispatch_catch (s : Server) (stream : ServerHttp2Stream)
    (call : bool) (err : ServiceError) : Server * list Effect :=
  let sid := stream_id stream in
  let '(s1, es) :=
    if call then (s, [])
    else (count_failed stream s, [ENewCallStream sid None]) in
  (s1, es ++ [ESendError sid (default_code err)]).

(** The ['stream'] listener. *)
Definition onStream (stream : ServerHttp2Stream) (headers : IncomingHttpHeaders)
    (env : DispatchEnv) (s : Server) : Server * list Effect :=
  let s1 := count_started stream s in
  let contentType := headers !! HTTP2_HEADER_CONTENT_TYPE in
  if rejects_contentType contentType then
    (count_failed stream s1,
     [ERespond (stream_id stream) HTTP_STATUS_UNSUPPORTED_MEDIA_TYPE true])
  else
    match dispatch_try s1 stream headers env with
    | (es, _, None) => (s1, es)
    | (es, call, Some err) =>
        let '(s2, es') := dispatch_catch s1 stream call err in
        (s2, es ++ es')
    end.

(** The listeners the ['stream'] listener installs on a call. *)
Definition on_callEnd (code : Status) (s : Server) : Server :=
  if bool_decide (code = OK)
  then set_callTracker (addCallSucceeded (callTracker s)) s
  else set_callTracker (addCallFailed (callTracker s)) s.

Definition on_streamEnd (stream : ServerHttp2Stream) (success : bool)
    (s : Server) : Server :=
  set_sessions
    (sessions_alter
       (with_streamTracker (if success then addCallSucceeded else addCallFailed))
       (session stream) (sessions s)) s.

Definition on_sendMessage (stream : ServerHttp2Stream) (s : Server) : Server :=
  set_sessions
    (sessions_alter
       (λ i, {| si_ref := si_ref i; streamTracker := streamTracker i;
                messagesSent := S (messagesSent i);
                messagesReceived := messagesReceived i |})
       (session stream) (sessions s)) s.

Definition on_receiveMessage (stream : ServerHttp2Stream) (s : Server) : Server :=
  set_sessions
    (sessions_alter
       (λ i, {| si_ref := si_ref i; streamTracker := streamTracker i;
                messagesSent := messagesSent i;
                messagesReceived := S (messagesReceived i) |})
       (session stream) (sessions s)) s.

(** Whether an effect hands the call to any registered function, the
    default ones included. *)
Definition is_handler_call (e : Effect) : bool :=
  match e with
  | EUserHandler _ _ | EEmitError _ _ | ESendUnaryMessage _ _
  | EStreamOnError _ | EReceiveUnaryMessage _ => true
  | _ => false
  end.

End Dispatch.

(** ** The collaborators of the bind engine *)

(** What happens when [http2Server.listen] is called: the call throws
    before it returns (Node validates its arguments at once, a port above
    65535 for one), or it returns and the operating system answers with an
    ['error'] event or with the callback.  For a TCP target the callback
    finds [http2Server.address()] to be the [AddressInfo] with these two
    fields; for a path target it finds the path. *)
Inductive ListenOutcome :=
  | ListenThrows (e : JsError)
  | ListenError (message : string)
  | Listening (address : string) (port : Z).

(** What a resolver reports to its listener. *)
Inductive ResolverEvent :=
  | Resolved (addressList : list SubchannelAddress)
  | ResolutionError (details : string).

(** The modules [bindAsync] calls into: the operating system behind
    [listen], [./uri-parser], [./resolver] and [./subchannel-address].
    [resolve] stands for [createResolver] followed by [updateResolution]:
    [createResolver] throws, or the listener is called with these results
    before [updateResolution] returns (later results arrive as events). *)
Class Platform := {
  OS : Type;
  listen : OS → SubchannelAddress → OS * ListenOutcome;
  GrpcUri : Type;
  parseUri : string → option GrpcUri;
  mapUriDefaultScheme : GrpcUri → option GrpcUri;
  resolve : GrpcUri → JsError + list ResolverEvent;
  subchannelAddressToString : SubchannelAddress → string
}.

(** An argument of [bindAsync] as an untyped caller may pass it. *)
Inductive JsVal :=
  | VUndefined
  | VNull
  | VBoolean (b : bool)
  | VNumber (n : Z)
  | VString (v : string)
  | VFunction (f : FnId)
  | VServerCredentials (secure : bool)
  | VOtherObject.

(** [BindResult]. *)
Record BindResult := {
  br_port : Z;
  count : nat
}.

(** A settled [Promise<BindResult>].  [IllTyped] is the one run the
    declared types exclude: [bindWildcardPort] reads [.port] of a bound
    path through its [as AddressInfo] cast. *)
Inductive Settled :=
  | Fulfilled (r : BindResult)
  | Rejected (e : JsError)
  | IllTyped.

(** The [resolverListener] object of one [bindAsync] call with what its
    closures capture; [armed] is false once [onSuccessfulResolution] has
    been replaced by the empty function. *)
Record ResolverListener := {
  rl_port : string;
  rl_secure : bool;
  rl_callback : FnId;
  armed : bool
}.

(** A [bindResultPromise] with the [then] continuation registered on it. *)
Record PendingThen := {
  pt_outcome : Settled;
  pt_total : nat;
  pt_callback : FnId
}.

(** A listener registered once for a ['close'] event: the callbacks
    [forceShutdown] and [tryShutdown] pass to [http2Server.close], the
    [maybeCallback] that [tryShutdown] passes to [session.close], and the
    ['close'] listener of the ['session'] listener.  [shutdown] names the
    [tryShutdown] call whose [pendingChecks] the closure shares. *)
Inductive CloseListener :=
  | ForceClosed (ref : SocketRef)
  | TryClosed (ref : SocketRef) (shutdown : nat)
  | SessionClosed (shutdown : nat)
  | SessionDropped (session : nat) (ref : SocketRef)
      (clientAddress : option string).

(** The locals of one [tryShutdown] call that its closures share. *)
Record TryShutdownFrame := {
  ts_callback : FnId;
  pendingChecks : Z
}.

(** ** The running server

    The server object, the operating system, the counter that numbers new
    objects and channelz refs, the effects so far, and what is waiting:
    resolver listeners, promise continuations, [process.nextTick] tasks
    and ['close'] listeners. *)
Record World `{Platform} := {
  srv : Server;
  os : OS;
  nextId : nat;
  log : list Effect;
  resolverListeners : list ResolverListener;
  bindResultPromises : list PendingThen;
  nextTickQueue : list BindReply;
  closeListeners : list CloseListener;
  shutdowns : list TryShutdownFrame
}.

Section Runtime.
Context `{P : Platform}.

Definition with_srv (f : Server → Server) (w : World) : World :=
  {| srv := f (srv w); os := os w; nextId := nextId w; log := log w;
     resolverListeners := resolverListeners w;
     bindResultPromises := bindResultPromises w;
     nextTickQueue := nextTickQueue w; closeListeners := closeListeners w;
     shutdowns := shutdowns w |}.

Definition set_os (o : OS) (w : World) : World :=
  {| srv := srv w; os := o; nextId := nextId w; log := log w;
     resolverListeners := resolverListeners w;
     bindResultPromises := bindResultPromises w;
     nextTickQueue := nextTickQueue w; closeListeners := closeListeners w;
     shutdowns := shutdowns w |}.

Definition set_nextId (n : nat) (w : World) : World :=
  {| srv := srv w; os := os w; nextId := n; log := log w;
     resolverListeners := resolverListeners w;
     bindResultPromises := bindResultPromises w;
     nextTickQueue := nextTickQueue w; closeListeners := closeListeners w;
     shutdowns := shutdowns w |}.

Definition emit (es : list Effect) (w : World) : World :=
  {| srv := srv w; os := os w; nextId := nextId w; log := log w ++ es;
     resolverListeners := resolverListeners w;
     bindResultPromises := bindResultPromises w;
     nextTickQueue := nextTickQueue w; closeListeners := closeListeners w;
     shutdowns := shutdowns w |}.

Definition set_resolverListeners (l : list ResolverListener) (w : World) : World :=
  {| srv := srv w; os := os w; nextId := nextId w; log := log w;
     resolverListeners := l;
     bindResultPromises := bindResultPromises w;
     nextTickQueue := nextTickQueue w; closeListeners := closeListeners w;
     shutdowns := shutdowns w |}.

Definition set_bindResultPromises (l : list PendingThen) (w : World) : World :=
  {| srv := srv w; os := os w; nextId := nextId w; log := log w;
     resolverListeners := resolverListeners w;
     bindResultPromises := l;
     nextTickQueue := nextTickQueue w; closeListeners := closeListeners w;
     shutdowns := shutdowns w |}.

Definition set_nextTickQueue (l : list BindReply) (w : World) : World :=
  {| srv := srv w; os := os w; nextId := nextId w; log := log w;
     resolverListeners := resolverListeners w;
     bindResultPromises := bindResultPromises w;
     nextTickQueue := l; closeListeners := closeListeners w;
     shutdowns := shutdowns w |}.

Definition set_closeListeners (l : list CloseListener) (w : World) : World :=
  {| srv := srv w; os := os w; nextId := nextId w; log := log w;
     resolverListeners := resolverListeners w;
     bindResultPromises := bindResultPromises w;
     nextTickQueue := nextTickQueue w; closeListeners := l;
     shutdowns := shutdowns w |}.

Definition set_shutdowns (l : list TryShutdownFrame) (w : World) : World :=
  {| srv := srv w; os := os w; nextId := nextId w; log := log w;
     resolverListeners := resolverListeners w;
     bindResultPromises := bindResultPromises w;
     nextTickQueue := nextTickQueue w; closeListeners := closeListeners w;
     shutdowns := l |}.

(** A world around a freshly constructed server. *)
Definition new_World (ref : nat) (o : OS) : World :=
  {| srv := new_Server ref; os := o; nextId := S ref; log := [];
     resolverListeners := []; bindResultPromises := [];
     nextTickQueue := []; closeListeners := []; shutdowns := [] |}.

(** [this.trace(text)]. *)
Definition wtrace (text : string) (w : World) : World :=
  emit [trace (srv w) text] w.

(** Modelled from the spec: [registerChannelzSocket] of [./channelz], of
    which the spec says that ids are globally monotonic within the
    registry.  The ref it returns takes the next id. *)
Definition registerChannelzSocket (name : string) (w : World)
    : SocketRef * World :=
  let ref := {| socket_id := nextId w; socket_name := name |} in
  (ref, emit [ERegisterChannelzSocket ref] (set_nextId (S (nextId w)) w)).

(** [deferredCallback]: the user's callback goes to [process.nextTick]. *)
Definition deferredCallback (callback : FnId) (error : option string)
    (port : Z) (w : World) : World :=
  let task :=
    {| reply_callback := callback; reply_error := error; reply_port := port |} in
  emit [ENextTick task] (set_nextTickQueue (nextTickQueue w ++ [task]) w).

(** [setupServer]: a new HTTP/2 server object, secure when the
    credentials are.  The options it is created with play no part in what
    follows and are left out. *)
Definition setupServer (secure : bool) (w : World) : nat * World :=
  let h2 := nextId w in
  (h2, emit [ECreateServer h2 secure] (set_nextId (S h2) w)).

(** The tail of both [listen] callbacks, from [registerChannelzSocket] to
    the trace: the new listener is registered, referenced and pushed. *)
Definition bound (h2 : nat) (boundSubchannelAddress : SubchannelAddress)
    (w : World) : World :=
  let '(channelzRef, w1) :=
    registerChannelzSocket (subchannelAddressToString boundSubchannelAddress) w in
  let w2 := emit [ERefChild channelzRef] w1 in
  let w3 :=
    with_srv
      (λ s, set_http2ServerList
              (http2ServerList s ++
               [{| server := {| h2_id := h2; listening := true |};
                   le_channelzRef := channelzRef |}]) s) w2 in
  wtrace ("Successfully bound " +:+ subchannelAddressToString boundSubchannelAddress) w3.

(** One [listen] call of [bindSpecificPort] that has not called back yet. *)
Record Attempt := {
  at_address : SubchannelAddress;
  at_addr : SubchannelAddress;
  at_server : nat;
  at_outcome : ListenOutcome
}.

(** The address [bindSpecificPort] listens on for [address]. *)
Definition retarget (portNum : Z) (address : SubchannelAddress) : SubchannelAddress :=
  match address with
  | TcpAddress host _ => TcpAddress host portNum
  | IpcAddress _ => address
  end.

(** The callback of [addressList.map] up to the [listen] call.  The
    operating system decides the outcome when [listen] is called. *)
Definition attempt (secure : bool) (portNum : Z) (address : SubchannelAddress)
    (w : World) : Attempt * World :=
  let w1 := wtrace ("Attempting to bind " +:+ subchannelAddressToString address) w in
  let addr := retarget portNum address in
  let '(h2, w2) := setupServer secure w1 in
  let '(o, outcome) := listen (os w2) addr in
  ({| at_address := address; at_addr := addr; at_server := h2;
      at_outcome := outcome |},
   emit [EListen h2 addr] (set_os o w2)).

Fixpoint attempts (secure : bool) (portNum : Z)
    (addressList : list SubchannelAddress) (w : World) : list Attempt * World :=
  match addressList with
  | [] => ([], w)
  | address :: rest =>
      let '(a, w1) := attempt secure portNum address w in
      let '(more, w2) := attempts secure portNum rest w1 in
      (a :: more, w2)
  end.

(** What one promise of the [Promise.all] resolves to: a number or an
    [Error]. *)
Inductive ListenResult :=
  | PortNumber (n : Z)
  | ListenFailed (message : string).

(** How the promise of one attempt settles.  A [listen] call that threw
    did so inside the executor of the promise, which has no [try]: the
    promise is rejected with what was thrown ([inl]), and neither the
    ['error'] listener nor the [listen] callback ever runs.  Otherwise the
    ['error'] listener or the [listen] callback resolves it ([inr]). *)
Definition settle_attempt (portNum : Z) (a : Attempt) (w : World)
    : (JsError + ListenResult) * World :=
  match at_outcome a with
  | ListenThrows e => (inl e, w)
  | ListenError message =>
      (inr (ListenFailed message),
       wtrace ("Failed to bind " +:+ subchannelAddressToString (at_address a)
               +:+ " with error " +:+ message) w)
  | Listening address port =>
      match at_addr a with
      | TcpAddress _ _ =>
          (inr (PortNumber port), bound (at_server a) (TcpAddress address port) w)
      | IpcAddress path =>
          (inr (PortNumber portNum), bound (at_server a) (IpcAddress path) w)
      end
  end.

Fixpoint settle_attempts (portNum : Z) (l : list Attempt) (w : World)
    : list (JsError + ListenResult) * World :=
  match l with
  | [] => ([], w)
  | a :: rest =>
      let '(r, w1) := settle_attempt portNum a w in
      let '(more, w2) := settle_attempts portNum rest w1 in
      (r :: more, w2)
  end.

(** [Promise.all]: the values the promises resolve to when all of them
    do, else the reason of the first rejection.  The rejections here all
    happen while [addressList.map] runs, in the order of the list. *)
Fixpoint Promise_all {E A : Type} (l : list (E + A)) : E + list A :=
  match l with
  | [] => inr []
  | inl e :: _ => inl e
  | inr a :: rest =>
      match Promise_all rest with
      | inl e => inl e
      | inr values => inr (a :: values)
      end
  end.

(** The loop of the [then] of [bindSpecificPort]; [None] is its [throw]. *)
Fixpoint tally (results : list ListenResult) (portNum : Z) (count : nat)
    : option nat :=
  match results with
  | [] => Some count
  | PortNumber result :: rest =>
      if bool_decide (result = portNum) then tally rest portNum (S count)
      else None
  | ListenFailed _ :: rest => tally rest portNum count
  end.

(** [bindSpecificPort].  Every address of the list is attempted, also
    behind one whose [listen] threw, and the callbacks of the attempts
    that did not throw run whether the [Promise.all] is rejected or not;
    its [then] runs only when it is not.  The callbacks are run here, ahead
    of the continuation of the promise; after a [listen] that threw the
    source runs that continuation first; the server object is the same
    once both have run, the order of the effects is not. *)
Definition bindSpecificPort (secure : bool) (addressList : list SubchannelAddress)
    (portNum : Z) (previousCount : nat) (w : World) : Settled * World :=
  match addressList with
  | [] => (Fulfilled {| br_port := portNum; count := previousCount |}, w)
  | _ =>
      let '(pending, w1) := attempts secure portNum addressList w in
      let '(settled, w2) := settle_attempts portNum pending w1 in
      match Promise_all settled with
      | inl e => (Rejected e, w2)
      | inr results =>
          match tally results portNum 0 with
          | Some n =>
              (Fulfilled {| br_port := portNum; count := n + previousCount |}, w2)
          | None =>
              (Rejected
                 (Error "Invalid state: multiple port numbers added from single address"),
               w2)
          end
      end
  end.

(** [bindWildcardPort].  A [listen] that throws rejects the promise, as
    in [bindSpecificPort], and the rest of the list is not tried. *)
Fixpoint bindWildcardPort (secure : bool) (addressList : list SubchannelAddress)
    (w : World) : Settled * World :=
  match addressList with
  | [] => (Fulfilled {| br_port := 0; count := 0 |}, w)
  | address :: rest =>
      let '(h2, w1) := setupServer secure w in
      let '(o, outcome) := listen (os w1) address in
      let w2 := emit [EListen h2 address] (set_os o w1) in
      match outcome with
      | ListenThrows e => (Rejected e, w2)
      | ListenError message =>
          bindWildcardPort secure rest
            (wtrace ("Failed to bind " +:+ subchannelAddressToString address
                     +:+ " with error " +:+ message) w2)
      | Listening boundHost boundPort =>
          match address with
          | TcpAddress _ _ =>
              bindSpecificPort secure rest boundPort 1
                (bound h2 (TcpAddress boundHost boundPort) w2)
          | IpcAddress _ => (IllTyped, w2)
          end
      end
  end.

(** The promise [onSuccessfulResolution] builds for a list that is not
    empty. *)
Definition bindResultPromise (secure : bool) (addressList : list SubchannelAddress)
    (w : World) : Settled * World :=
  match addressList with
  | TcpAddress _ port :: _ =>
      if bool_decide (port = 0) then bindWildcardPort secure addressList w
      else bindSpecificPort secure addressList port 0 w
  | _ => bindSpecificPort secure addressList 1 0 w
  end.

(** The two callbacks of [bindResultPromise.then]. *)
Definition then_reply (p : PendingThen) (w : World) : World :=
  let errorString :=
    "No address added out of total " +:+ pretty (pt_total p) +:+ " resolved" in
  match pt_outcome p with
  | Fulfilled bindResult =>
      if bool_decide (count bindResult = 0%nat) then
        deferredCallback (pt_callback p) (Some errorString) 0
          (emit [ELog ERROR errorString] w)
      else
        let w1 :=
          if bool_decide (count bindResult < pt_total p)%nat then
            emit [ELog INFO
                    ("WARNING Only " +:+ pretty (count bindResult)
                     +:+ " addresses added out of total "
                     +:+ pretty (pt_total p) +:+ " resolved")] w
          else w in
        deferredCallback (pt_callback p) None (br_port bindResult) w1
  | Rejected _ =>
      deferredCallback (pt_callback p) (Some errorString) 0
        (emit [ELog ERROR errorString] w)
  | IllTyped => w
  end.

(** [resolverListener.onSuccessfulResolution] of the [i]-th [bindAsync]
    call. *)
Definition onSuccessfulResolution (i : nat) (addressList : list SubchannelAddress)
    (w : World) : World :=
  match resolverListeners w !! i with
  | None => w
  | Some l =>
      if armed l then
        let w1 :=
          set_resolverListeners
            (<[i := {| rl_port := rl_port l; rl_secure := rl_secure l;
                       rl_callback := rl_callback l; armed := false |}]>
               (resolverListeners w)) w in
        match addressList with
        | [] =>
            deferredCallback (rl_callback l)
              (Some ("No addresses resolved for port " +:+ rl_port l)) 0 w1
        | _ =>
            let '(outcome, w2) := bindResultPromise (rl_secure l) addressList w1 in
            set_bindResultPromises
              (bindResultPromises w2 ++
               [{| pt_outcome := outcome; pt_total := length addressList;
                   pt_callback := rl_callback l |}]) w2
        end
      else w
  end.

(** [resolverListener.onError]. *)
Definition onError (i : nat) (details : string) (w : World) : World :=
  match resolverListeners w !! i with
  | None => w
  | Some l => deferredCallback (rl_callback l) (Some details) 0 w
  end.

Definition resolver_event (i : nat) (w : World) (e : ResolverEvent) : World :=
  match e with
  | Resolved addressList => onSuccessfulResolution i addressList w
  | ResolutionError details => onError i details w
  end.

Definition dquote : string := String (Ascii.ascii_of_nat 34) EmptyString.

(** [Server.bindAsync]. *)
Definition bindAsync (port creds callback : JsVal) (w : World)
    : Completion World unit :=
  if started (srv w) then Throws (Error "server is already started") w
  else
    match port with
    | VString port =>
        match creds with
        | VServerCredentials secure =>
            match callback with
            | VFunction callback =>
                match parseUri port with
                | None =>
                    Throws (Error ("Could not parse port " +:+ dquote +:+ port
                                   +:+ dquote)) w
                | Some initialPortUri =>
                    match mapUriDefaultScheme initialPortUri with
                    | None =>
                        Throws
                          (Error ("Could not get a default scheme for port "
                                  +:+ dquote +:+ port +:+ dquote)) w
                    | Some portUri =>
                        let i := length (resolverListeners w) in
                        let w1 :=
                          set_resolverListeners
                            (resolverListeners w ++
                             [{| rl_port := port; rl_secure := secure;
                                 rl_callback := callback; armed := true |}]) w in
                        match resolve portUri with
                        | inl e => Throws e w1
                        | inr results =>
                            Returns tt (fold_left (resolver_event i) results w1)
                        end
                    end
                end
            | _ => Throws (TypeError "callback must be a function") w
            end
        | _ => Throws (TypeError "creds must be a ServerCredentials object") w
        end
    | _ => Throws (TypeError "port must be a string") w
    end.

End Runtime.

(** ** Lifecycle: [start], the ['session'] listener, [tryShutdown],
    [forceShutdown] *)

(** [Map.prototype.set] and [Map.prototype.delete] on [sessions]. *)
Definition sessions_set (session : Http2Session) (info : ChannelzSessionInfo)
    (m : list (Http2Session * ChannelzSessionInfo))
    : list (Http2Session * ChannelzSessionInfo) :=
  if bool_decide (is_Some (sessions_get (sess_id session) m)) then
    map (λ e, if bool_decide (sess_id e.1 = sess_id session)
              then (session, info) else e) m
  else m ++ [(session, info)].

Definition sessions_delete (session : nat)
    (m : list (Http2Session * ChannelzSessionInfo))
    : list (Http2Session * ChannelzSessionInfo) :=
  List.filter (λ e, negb (bool_decide (sess_id e.1 = session))) m.

(** [http2Server.close()] drops the handle at once: [listening] reads
    false from the call on.  [session.close()] likewise makes [closed]
    read true. *)
Definition closed_entry (e : ListenerEntry) : ListenerEntry :=
  {| server := {| h2_id := h2_id (server e); listening := false |};
     le_channelzRef := le_channelzRef e |}.

Definition closed_session (e : Http2Session * ChannelzSessionInfo)
    : Http2Session * ChannelzSessionInfo :=
  ({| sess_id := sess_id e.1; closed := true |}, e.2).

Section Lifecycle.
Context `{P : Platform}.

(** [Server.start]. *)
Definition start (w : World) : Completion World unit :=
  let l := http2ServerList (srv w) in
  if bool_decide (length l = 0%nat)
     || forallb (λ e, negb (listening (server e))) l
  then Throws (Error "server must be bound in order to start") w
  else if started (srv w) then Throws (Error "server is already started") w
  else Returns tt (with_srv (set_started true) (emit [EAddTrace "CT_INFO" "Starting"] w)).

(** The ['session'] listener of [_setupHandlers]; [remoteAddress] is
    [session.socket.remoteAddress]. *)
Definition onSession (session : nat) (remoteAddress : option string)
    (w : World) : World :=
  if started (srv w) then
    let '(channelzRef, w1) :=
      registerChannelzSocket (default "unknown" remoteAddress) w in
    let channelzSessionInfo :=
      {| si_ref := channelzRef; streamTracker := new_ChannelzCallTracker;
         messagesSent := 0; messagesReceived := 0 |} in
    let w2 :=
      with_srv
        (λ s, set_sessions
                (sessions_set {| sess_id := session; closed := false |}
                   channelzSessionInfo (sessions s)) s) w1 in
    let w3 :=
      emit [EAddTrace "CT_INFO"
              ("Connection established by client "
               +:+ default "undefined" remoteAddress);
            ERefChild channelzRef] w2 in
    set_closeListeners
      (closeListeners w3 ++ [SessionDropped session channelzRef remoteAddress]) w3
  else emit [ESessionDestroy session false] w.

(** [wrappedCallback] of [tryShutdown]. *)
Definition wrappedCallback (callback : FnId) (w : World) : World :=
  emit [EUnregisterChannelzRef (OfServer (channelzRef (srv w)));
        ECallback (ShutdownCallback callback None)] w.

(** [maybeCallback] of the [k]-th [tryShutdown] call. *)
Definition maybeCallback (k : nat) (w : World) : World :=
  match shutdowns w !! k with
  | None => w
  | Some f =>
      let n := pendingChecks f - 1 in
      let w1 :=
        set_shutdowns
          (<[k := {| ts_callback := ts_callback f; pendingChecks := n |}]>
             (shutdowns w)) w in
      if bool_decide (n = 0) then wrappedCallback (ts_callback f) w1 else w1
  end.

(** The loop over [http2ServerList] that both shutdown operations start
    with: every listening server is closed with a callback made by [mk]
    from the listener's ref.  The result is the number of servers closed
    and the new world. *)
Definition close_servers (mk : SocketRef → CloseListener) (w : World)
    : nat * World :=
  let closing :=
    List.filter (λ e, listening (server e)) (http2ServerList (srv w)) in
  let w1 := emit (map (λ e, EHttp2ServerClose (h2_id (server e))) closing) w in
  let w2 :=
    set_closeListeners
      (closeListeners w1 ++ map (λ e, mk (le_channelzRef e)) closing) w1 in
  (length closing,
   with_srv (λ s, set_http2ServerList (map closed_entry (http2ServerList s)) s) w2).

(** [Server.tryShutdown]. *)
Definition tryShutdown (callback : FnId) (w : World) : World :=
  let k := length (shutdowns w) in
  let w1 := with_srv (set_started false) w in
  let '(closing, w2) := close_servers (λ ref, TryClosed ref k) w1 in
  let open_sessions :=
    List.filter (λ e, negb (closed e.1)) (sessions (srv w2)) in
  let w3 := emit (map (λ e, ESessionClose (sess_id e.1)) open_sessions) w2 in
  let w4 :=
    set_closeListeners
      (closeListeners w3 ++ map (λ _, SessionClosed k) open_sessions) w3 in
  let w5 :=
    with_srv (λ s, set_sessions (map closed_session (sessions s)) s) w4 in
  let pendingChecks := Z.of_nat closing + Z.of_nat (length open_sessions) in
  let w6 :=
    set_shutdowns
      (shutdowns w5 ++
       [{| ts_callback := callback; pendingChecks := pendingChecks |}]) w5 in
  if bool_decide (pendingChecks = 0) then wrappedCallback callback w6 else w6.

(** [Server.forceShutdown]. *)
Definition forceShutdown (w : World) : World :=
  let '(_, w1) := close_servers ForceClosed w in
  let w2 := with_srv (set_started false) w1 in
  let w3 :=
    emit (map (λ e, ESessionDestroy (sess_id e.1) true) (sessions (srv w2))) w2 in
  let w4 := with_srv (set_sessions []) w3 in
  emit [EUnregisterChannelzRef (OfServer (channelzRef (srv w4)))] w4.

(** A ['close'] listener runs. *)
Definition fire_close (c : CloseListener) (w : World) : World :=
  match c with
  | ForceClosed ref =>
      emit [EUnrefChild ref; EUnregisterChannelzRef (OfSocket ref)] w
  | TryClosed ref k =>
      maybeCallback k
        (emit [EUnrefChild ref; EUnregisterChannelzRef (OfSocket ref)] w)
  | SessionClosed k => maybeCallback k w
  | SessionDropped session ref clientAddress =>
      with_srv (λ s, set_sessions (sessions_delete session (sessions s)) s)
        (emit [EAddTrace "CT_INFO"
                 ("Connection dropped by client "
                  +:+ default "undefined" clientAddress);
               EUnrefChild ref; EUnregisterChannelzRef (OfSocket ref)] w)
  end.

(** ** The event loop

    What can happen to a running server: a call of a public method, a
    result from a resolver, a settled bind promise whose continuation
    runs, a [process.nextTick] task, a ['close'] event reaching one of the
    listeners waiting for it, a new session, a new stream. *)
Inductive Event :=
  | CallAddService (service : JsArg ServiceDefinition)
      (implementation : JsArg UntypedServiceImplementation)
  | CallRemoveService (service : JsArg ServiceDefinition)
  | CallBindAsync (port creds callback : JsVal)
  | CallStart
  | CallTryShutdown (callback : FnId)
  | CallForceShutdown
  | ResolverResult (i : nat) (e : ResolverEvent)
  | PromiseSettled
  | NextTick
  | CloseEvent (i : nat)
  | SessionEvent (session : nat) (remoteAddress : option string)
  | StreamEvent (stream : Dispatch.ServerHttp2Stream)
      (headers : Dispatch.IncomingHttpHeaders) (env : Dispatch.DispatchEnv).

Definition step (w : World) (e : Event) : World :=
  match e with
  | CallAddService service implementation =>
      with_srv (λ s, state_of (Registry.addService service implementation s)) w
  | CallRemoveService service =>
      with_srv (λ s, state_of (Registry.removeService service s)) w
  | CallBindAsync port creds callback =>
      state_of (bindAsync port creds callback w)
  | CallStart => state_of (start w)
  | CallTryShutdown callback => tryShutdown callback w
  | CallForceShutdown => forceShutdown w
  | ResolverResult i e => resolver_event i w e
  | PromiseSettled =>
      match bindResultPromises w with
      | [] => w
      | p :: rest => then_reply p (set_bindResultPromises rest w)
      end
  | NextTick =>
      match nextTickQueue w with
      | [] => w
      | task :: rest =>
          emit [ECallback (BindCallback (reply_callback task) (reply_error task)
                             (reply_port task))]
            (set_nextTickQueue rest w)
      end
  | CloseEvent i =>
      match closeListeners w !! i with
      | None => w
      | Some c => fire_close c (set_closeListeners (delete i (closeListeners w)) w)
      end
  | SessionEvent session remoteAddress => onSession session remoteAddress w
  | StreamEvent stream headers env =>
      let '(s, es) := Dispatch.onStream stream headers env (srv w) in
      emit es (with_srv (λ _, s) w)
  end.

Definition run (w : World) (events : list Event) : World :=
  fold_left step events w.

End Lifecycle.

(** ** Reading a log *)

(** The number of calls of [unregisterChannelzRef] on the server ref
    [ref]. *)
Definition unregistrations (ref : ServerRef) (l : list Effect) : nat :=
  length
    (List.filter (λ e, bool_decide (e = EUnregisterChannelzRef (OfServer ref))) l).

(** User callbacks of [tryShutdown] that were called, in order. *)
Definition shutdown_callbacks (l : list Effect) : list FnId :=
  omap (λ e, match e with
             | ECallback (ShutdownCallback callback _) => Some callback
             | _ => None
             end) l.

(** User callbacks of [bindAsync] that were called, in order. *)
Definition bind_callbacks (l : list Effect) : list CallbackCall :=
  omap (λ e, match e with
             | ECallback (BindCallback callback error port) =>
                 Some (BindCallback callback error port)
             | _ => None
             end) l.

(** [listen] calls, in order. *)
Definition listen_targets (l : list Effect) : list SubchannelAddress :=
  omap (λ e, match e with EListen _ addr => Some addr | _ => None end) l.

Definition is_forceShutdown (e : Event) : bool :=
  match e with CallForceShutdown => true | _ => false end.

(** All user callbacks that were called, in order. *)
Definition user_callbacks (l : list Effect) : list CallbackCall :=
  omap (λ e, match e with ECallback c => Some c | _ => None end) l.

(** The effects of the bind engine. *)
Definition is_bind_effect (e : Effect) : bool :=
  match e with
  | ETrace _ | ELog _ _ | ENextTick _ | ECreateServer _ _ | EListen _ _
  | ERegisterChannelzSocket _ | ERefChild _ => true
  | _ => false
  end.

Definition not_listen (e : Effect) : bool :=
  match e with EListen _ _ => false | _ => true end.

(** [w'] has the log of [w] followed by effects that all satisfy [Q], and
    the same server ref. *)
Definition grows `{Platform} (Q : Effect → bool) (w w' : World) : Prop :=
  channelzRef (srv w') = channelzRef (srv w)
  ∧ ∃ es, log w' = log w ++ es ∧ forallb Q es = true.

(** Effects that are neither a user callback nor an unregistration of a
    server ref. *)
Definition is_quiet (e : Effect) : bool :=
  match e with
  | ECallback _ | EUnregisterChannelzRef (OfServer _) => false
  | _ => true
  end.

(** What a [tryShutdown] call adds to the log when it completes, and what
    it adds while it still waits: [wrappedCallback], or nothing. *)
Definition completion (ref : ServerRef) (tail : list Effect) : Prop :=
  tail = []
  ∨ ∃ callback,
      tail = [EUnregisterChannelzRef (OfServer ref);
              ECallback (ShutdownCallback callback None)].

(** [w'] comes from [w] by a shutdown step: quiet effects, then [d]
    unregistrations of the server ref, then at most one completion of a
    [tryShutdown] call. *)
Definition shuts `{Platform} (d : nat) (w w' : World) : Prop :=
  channelzRef (srv w') = channelzRef (srv w)
  ∧ ∃ quiet tail,
      log w' = log w ++ quiet
                 ++ repeat (EUnregisterChannelzRef (OfServer (channelzRef (srv w)))) d
                 ++ tail
      ∧ forallb is_quiet quiet = true
      ∧ completion (channelzRef (srv w)) tail.

(** The paths of a service definition, in the order of its methods. *)
Definition service_paths (service : ServiceDefinition) : list string :=
  map (λ m, md_path m.2) service.

(** Whether an effect builds a call stream bound to a handler. *)
Definition binds_handler (e : Effect) : bool :=
  match e with ENewCallStream _ (Some _) => true | _ => false end.

(** Whether an effect is a call of a registered function or something a
    default handler does. *)
Definition is_handler_action (e : Effect) : bool :=
  match e with
  | EUserHandler _ _ | EEmitError _ _ | ESendUnaryMessage _ _
  | EStreamOnError _ | EStreamDestroy _ => true
  | _ => false
  end.

(** The effects of [listen] calls and of their callbacks. *)
Definition is_listen_effect (e : Effect) : bool :=
  match e with
  | ETrace _ | ECreateServer _ _ | EListen _ _
  | ERegisterChannelzSocket _ | ERefChild _ => true
  | _ => false
  end.

(** [w'] comes from [w] by [listen] calls and their callbacks: [n] new
    servers, all listening, were pushed on [http2ServerList]; nothing else
    of the server object changed, and nothing that waits changed. *)
Definition binds `{Platform} (n : nat) (w w' : World) : Prop :=
  ∃ es new,
    log w' = log w ++ es
    ∧ forallb is_listen_effect es = true
    ∧ srv w' = set_http2ServerList (http2ServerList (srv w) ++ new) (srv w)
    ∧ length new = n
    ∧ forallb (λ e, listening (server e)) new = true
    ∧ resolverListeners w' = resolverListeners w
    ∧ bindResultPromises w' = bindResultPromises w
    ∧ nextTickQueue w' = nextTickQueue w
    ∧ closeListeners w' = closeListeners w
    ∧ shutdowns w' = shutdowns w.

(** The values of the promises that resolved. *)
Definition resolved {E A : Type} (l : list (E + A)) : list A :=
  omap (λ x, match x with inl _ => None | inr a => Some a end) l.

(** The results that are numbers. *)
Definition successes (results : list ListenResult) : nat :=
  length (List.filter (λ r, match r with PortNumber _ => true | _ => false end)
            results).

(** An operating system that binds the port it is asked for, and picks a
    port that is not 0 when asked for port 0. *)
Definition binds_requested_port `{Platform} : Prop :=
  ∀ o host p o' boundHost q,
    listen o (TcpAddress host p) = (o', Listening boundHost q) →
    q ≠ 0 ∧ (p ≠ 0 → q = p).

(** ** Channelz snapshot of a session: [getChannelzSessionInfoGetter] *)

(** What [tlsSocket.getCipher()] answers. *)
Record CipherNameAndProtocol := {
  cipher_name : string;
  standardName : option string
}.

(** What [getCertificate()] and [getPeerCertificate()] answer: [null], an
    object without a [raw] property, or an object with one. *)
Inductive Certificate :=
  | NoCertificate
  | EmptyCertificate
  | RawCertificate (raw : string).

(** The session and its socket as the getter reads them when it is
    called. *)
Record SessionSocket := {
  ss_session : nat;
  remoteAddress : option string;
  remotePort : option Z;
  localAddress : string;
  localPort : option Z;
  encrypted : bool;
  getCipher : CipherNameAndProtocol;
  getCertificate : Certificate;
  getPeerCertificate : Certificate;
  localWindowSize : option Z;
  remoteWindowSize : option Z
}.

(** [TlsInfo] and [SocketInfo] of [./channelz]; the timestamps are left
    out with the clock. *)
Record TlsInfo := {
  cipherSuiteStandardName : option string;
  cipherSuiteOtherName : option string;
  localCertificate : option string;
  remoteCertificate : option string
}.

Record SocketInfo := {
  info_remoteAddress : option SubchannelAddress;
  info_localAddress : SubchannelAddress;
  security : option TlsInfo;
  remoteName : option string;
  streamsStarted : nat;
  streamsSucceeded : nat;
  streamsFailed : nat;
  info_messagesSent : nat;
  info_messagesReceived : nat;
  keepAlivesSent : nat;
  localFlowControlWindow : option Z;
  remoteFlowControlWindow : option Z
}.

(** [(c && 'raw' in c) ? c.raw : null]. *)
Definition certificate_raw (c : Certificate) : option string :=
  match c with RawCertificate raw => Some raw | _ => None end.

(** The [tlsInfo] the getter builds.  [standardName ?? null] keeps an
    empty string, [standardName ? null : name] treats it as absent. *)
Definition tlsInfo_of (socket : SessionSocket) : option TlsInfo :=
  if encrypted socket then
    let cipherInfo := getCipher socket in
    Some {| cipherSuiteStandardName := standardName cipherInfo;
            cipherSuiteOtherName :=
              match standardName cipherInfo with
              | Some name =>
                  if bool_decide (name = EmptyString)
                  then Some (cipher_name cipherInfo) else None
              | None => Some (cipher_name cipherInfo)
              end;
            localCertificate := certificate_raw (getCertificate socket);
            remoteCertificate := certificate_raw (getPeerCertificate socket) |}
  else None.

(** The function [getChannelzSessionInfoGetter(session)] returns, called
    on the server state [s].  [stringToSubchannelAddress] is the helper of
    [./subchannel-address].  The result is [None] when the session is not
    in the map: the getter then reads a property of [undefined] and
    throws. *)
Definition getChannelzSessionInfoGetter
    (stringToSubchannelAddress : string → option Z → SubchannelAddress)
    (socket : SessionSocket) (s : Server) : option SocketInfo :=
  match sessions_get (ss_session socket) (sessions s) with
  | None => None
  | Some sessionInfo =>
      Some {| info_remoteAddress :=
                match remoteAddress socket with
                | Some a =>
                    if bool_decide (a = EmptyString) then None
                    else Some (stringToSubchannelAddress a (remotePort socket))
                | None => None
                end;
              info_localAddress :=
                stringToSubchannelAddress (localAddress socket) (localPort socket);
              security := tlsInfo_of socket;
              remoteName := None;
              streamsStarted := callsStarted (streamTracker sessionInfo);
              streamsSucceeded := callsSucceeded (streamTracker sessionInfo);
              streamsFailed := callsFailed (streamTracker sessionInfo);
              info_messagesSent := messagesSent sessionInfo;
              info_messagesReceived := messagesReceived sessionInfo;
              keepAlivesSent := 0;
              localFlowControlWindow := localWindowSize socket;
              remoteFlowControlWindow := remoteWindowSize socket |}
  end.

(** The [tryShutdown] call a ['close'] listener reports to, when it
    reports to one. *)
Definition frame_of (c : CloseListener) : option nat :=
  match c with
  | TryClosed _ k => Some k
  | SessionClosed k => Some k
  | _ => None
  end.

(** The ['close'] listeners of the [k]-th [tryShutdown] call that have
    not run yet. *)
Definition waiting (k : nat) (l : list CloseListener) : nat :=
  length (List.filter (λ c, bool_decide (frame_of c = Some k)) l).

(** The callbacks of the [tryShutdown] calls whose [pendingChecks] is 0. *)
Definition completed (l : list TryShutdownFrame) : list FnId :=
  map ts_callback (List.filter (λ f, bool_decide (pendingChecks f = 0)) l).

(** The callbacks handed to [tryShutdown] in a run, in call order. *)
Definition tryShutdown_calls (events : list Event) : list FnId :=
  omap (λ e, match e with CallTryShutdown callback => Some callback | _ => None end)
    events.

(** Of the [tryShutdown] calls numbered from [k] on, with callbacks
    [calls], the callbacks of those none of whose ['close'] listeners is
    still in [l]. *)
Fixpoint finished_from (k : nat) (calls : list FnId) (l : list CloseListener)
    : list FnId :=
  match calls with
  | [] => []
  | callback :: rest =>
      (if bool_decide (waiting k l = 0%nat) then [callback] else [])
      ++ finished_from (S k) rest l
  end.




(** What holds of the [tryShutdown] calls of a running server: the
    callbacks called so far are those of the calls whose [pendingChecks] is
    0, the [pendingChecks] of a call is the number of its ['close']
    listeners that have not run, and no ['close'] listener waits for a call
    that was not made. *)
Definition shutdown_inv `{Platform} (w : World) : Prop :=
  shutdown_callbacks (log w) ≡ₚ completed (shutdowns w)
  ∧ (∀ k f, shutdowns w !! k = Some f →
            pendingChecks f = Z.of_nat (waiting k (closeListeners w)))
  ∧ (∀ k, (length (shutdowns w) ≤ k)%nat → waiting k (closeListeners w) = 0%nat).

(** ** Sample inputs *)

(** A small operating system: the state is the list of bound TCP
    endpoints.  A port above 65535 makes [listen] throw; host 10.0.0.1 is
    not an address of the machine; port 0 asks for a free port; an endpoint
    binds once. *)
Definition sample_listen (bound : list (string * Z)) (a : SubchannelAddress)
    : list (string * Z) * ListenOutcome :=
  match a with
  | TcpAddress host port =>
      if bool_decide (65535 < port) then
        (bound, ListenThrows (RangeError "options.port should be >= 0 and < 65536"))
      else if bool_decide (host = "10.0.0.1") then
        (bound, ListenError "EADDRNOTAVAIL")
      else
        let p := if bool_decide (port = 0)
                 then 50051 + Z.of_nat (length bound) else port in
        if bool_decide ((host, p) ∈ bound) then (bound, ListenError "EADDRINUSE")
        else ((host, p) :: bound, Listening host p)
  | IpcAddress path => (bound, Listening path 0)
  end.

(** A platform whose resolver answers [results] before
    [updateResolution] returns. *)
Definition sample_platform (results : list ResolverEvent) : Platform :=
  {| OS := list (string * Z);
     listen := sample_listen;
     GrpcUri := string;
     parseUri := Some;
     mapUriDefaultScheme := Some;
     resolve := λ _, inr results;
     subchannelAddressToString := λ a,
       match a with
       | TcpAddress host port => host +:+ ":" +:+ pretty port
       | IpcAddress path => path
       end |}.

Definition echo_method : MethodDefinition :=
  {| md_path := "/demo.S/Echo"; requestStream := false; responseStream := false;
     requestSerialize := 1%nat; requestDeserialize := 2%nat;
     responseSerialize := 3%nat; responseDeserialize := 4%nat;
     originalName := None |}.

Definition chat_method : MethodDefinition :=
  {| md_path := "/demo.S/Chat"; requestStream := true; responseStream := true;
     requestSerialize := 1%nat; requestDeserialize := 2%nat;
     responseSerialize := 3%nat; responseDeserialize := 4%nat;
     originalName := Some "chat" |}.

(** The handler [addService] hands to [register] for the method [name]. *)
Definition installed_handler (implementation : UntypedServiceImplementation)
    (name : string) (attrs : MethodDefinition) : Handler :=
  {| func :=
       match Registry.select_implFn implementation name attrs with
       | Some implFn => BoundFn implFn
       | None => getDefaultHandler (Registry.methodType_of attrs) name
       end;
     serialize := responseSerialize attrs;
     deserialize := requestDeserialize attrs;
     type := HandlerType_str (Registry.methodType_of attrs);
     path := md_path attrs |}.

Definition echo_service : ServiceDefinition := [("Echo", echo_method)].

(** A definition whose method key is the name of a function that every
    object literal inherits. *)
Definition toString_service : ServiceDefinition := [("toString", echo_method)].

(** A definition whose second method reuses the path of the first. *)
Definition late_service : ServiceDefinition :=
  [("Echo", echo_method); ("EchoAgain", echo_method); ("Chat", chat_method)].


(** Streams and headers for the dispatch examples. *)
Definition sample_stream : Dispatch.ServerHttp2Stream :=
  {| Dispatch.stream_id := 1; Dispatch.session := 5 |}.

Definition grpc_headers (p : string) : Dispatch.IncomingHttpHeaders :=
  {[ Dispatch.HTTP2_HEADER_CONTENT_TYPE := Dispatch.HString "application/grpc+proto";
     Dispatch.HTTP2_HEADER_PATH := Dispatch.HString p ]}.

Definition plain_headers (p : string) : Dispatch.IncomingHttpHeaders :=
  {[ Dispatch.HTTP2_HEADER_CONTENT_TYPE := Dispatch.HString "text/plain";
     Dispatch.HTTP2_HEADER_PATH := Dispatch.HString p ]}.

Definition quiet_env : Dispatch.DispatchEnv :=
  {| Dispatch.serverAddress := Some (BoundInfo "127.0.0.1" 50051);
     Dispatch.constructThrows := None;
     Dispatch.receiveMetadataThrows := None;
     Dispatch.cancelled := false;
     Dispatch.userThrows := None |}.

(** A Node system error, whose [code] is a string. *)
Definition enoent : ServiceError :=
  {| code := Some (OtherCode "ENOENT"); details := None; metadata := None;
     message := Some "ENOENT: no such file or directory" |}.

Definition throwing_env (err : ServiceError) : Dispatch.DispatchEnv :=
  {| Dispatch.serverAddress := Some (BoundInfo "127.0.0.1" 50051);
     Dispatch.constructThrows := None;
     Dispatch.receiveMetadataThrows := None;
     Dispatch.cancelled := false;
     Dispatch.userThrows := Some err |}.

(** A platform whose resolver answers later, and a host with one local
    address and one that is not local. *)
Definition lan : Platform := sample_platform [].

(** A fresh server, with channelz id 0, on a machine with nothing bound. *)
Definition fresh_world : @World lan := @new_World lan 0 ([] : list (string * Z)).

Definition lan_addresses : list SubchannelAddress :=
  [TcpAddress "127.0.0.1" 0; TcpAddress "10.0.0.1" 0; TcpAddress "127.0.0.2" 0].

(** A bind of the three addresses that runs to its callback, and the
    world it leaves once the server is started. *)
Definition bind_events : list Event :=
  [CallBindAsync (VString "localhost:0") (VServerCredentials false) (VFunction 1);
   ResolverResult 0 (Resolved lan_addresses);
   PromiseSettled;
   NextTick].

Definition started_world : @World lan := @run lan fresh_world (bind_events ++ [CallStart]).

(** A server with the bidi method [Chat] implemented by function 9, bound,
    started, and with one session, number 5. *)
Definition chat_world : @World lan :=
  @run lan fresh_world
    (CallAddService (JsObject [("Chat", chat_method)])
       (JsObject (object_literal {[ "chat" := 9%nat ]}))
     :: bind_events ++ [CallStart; SessionEvent 5 (Some "10.1.1.1")]).

Definition chat_server : Server := @srv lan chat_world.

(** A platform whose resolver finds no address and says so before
    [updateResolution] returns. *)
Definition hasty : Platform := sample_platform [Resolved []].

Definition hasty_world : @World hasty := @new_World hasty 0 ([] : list (string * Z)).

(** A plain-text connection from 10.1.1.1. *)
Definition peer_socket : SessionSocket :=
  {| ss_session := 5; remoteAddress := Some "10.1.1.1"; remotePort := Some 40000;
     localAddress := "127.0.0.1"; localPort := Some 50051; encrypted := false;
     getCipher := {| cipher_name := "none"; standardName := None |};
     getCertificate := NoCertificate; getPeerCertificate := NoCertificate;
     localWindowSize := Some 65535; remoteWindowSize := None |}.

(** * Properties *)

Section RegistryFacts.
Import Registry.

Lemma register_lookup_same name handler ser deser ty s :
  handlers s !! name = None →
  handlers (register name handler ser deser ty s).2 !! name
  = Some {| func := handler; serialize := ser; deserialize := deser;
            type := ty; path := name |}.
Proof.
  intros Hnone. unfold register. rewrite Hnone. simpl.
  apply lookup_insert_eq.
Qed.

Lemma register_keeps name handler ser deser ty s p h :
  handlers s !! p = Some h →
  handlers (register name handler ser deser ty s).2 !! p = Some h.
Proof.
  intros Hp. unfold register.
  destruct (handlers s !! name) eqn:Hname; simpl; [done|].
  rewrite lookup_insert_ne; [done|]. congruence.
Qed.

(** C6. [register(p, ...)] answers false exactly when [p] is already a key
    of the handler map; a false answer leaves the server, and so the map,
    as it was; and after a true answer a second [register(p, ...)], with
    any arguments, answers false and changes nothing. *)
Theorem register_false_iff_registered
    (p : string) (handler handler' : HandleCall)
    (ser deser ser' deser' : FnId) (ty ty' : string) (s : Server) :
  ((register p handler ser deser ty s).1 = false ↔ is_Some (handlers s !! p))
  ∧ ((register p handler ser deser ty s).1 = false →
     (register p handler ser deser ty s).2 = s)
  ∧ ((register p handler ser deser ty s).1 = true →
     register p handler' ser' deser' ty' (register p handler ser deser ty s).2
     = (false, (register p handler ser deser ty s).2)).
Proof.
  pose proof (register_lookup_same p handler ser deser ty s) as Hnew.
  unfold register in *.
  destruct (handlers s !! p) as [h|] eqn:Hp; simpl in *.
  - repeat split; eauto; discriminate.
  - split; [|split].
    + split; [discriminate|]. intros [h Hh]. discriminate.
    + discriminate.
    + intros _. specialize (Hnew eq_refl). simpl in Hnew. rewrite Hnew. reflexivity.
Qed.

(** C6 at work on a fresh server: the first registration of a path
    succeeds, the second is refused. *)
Lemma register_false_iff_registered_witness :
  (register "/demo.S/Echo" (RawFn 7) 1%nat 2%nat "unary" (new_Server 0)).1 = true
  ∧ register "/demo.S/Echo" (RawFn 8) 3%nat 4%nat "bidi"
      (register "/demo.S/Echo" (RawFn 7) 1%nat 2%nat "unary" (new_Server 0)).2
    = (false, (register "/demo.S/Echo" (RawFn 7) 1%nat 2%nat "unary" (new_Server 0)).2).
Proof.
  split; [reflexivity|].
  apply (register_false_iff_registered "/demo.S/Echo" (RawFn 7) (RawFn 8)
           1%nat 2%nat 3%nat 4%nat "unary" "bidi" (new_Server 0)).
  reflexivity.
Defined.

End RegistryFacts.

Section AddServiceFacts.
Import Registry.

Lemma addService_method_unfold implementation name attrs s :
  addService_method implementation name attrs s =
  match handlers s !! md_path attrs with
  | Some _ =>
      Throws (Error ("Method handler for " +:+ md_path attrs +:+ " already provided.")) s
  | None =>
      Returns tt
        (set_handlers
           (<[md_path attrs := installed_handler implementation name attrs]>
              (handlers s)) s)
  end.
Proof.
  unfold addService_method, register, installed_handler.
  destruct (handlers s !! md_path attrs); reflexivity.
Qed.

Lemma addService_forEach_keeps implementation service :
  ∀ s p h,
    handlers s !! p = Some h →
    handlers (state_of (addService_forEach implementation service s)) !! p = Some h.
Proof.
  induction service as [|[name attrs] rest IH]; intros s p h Hp; simpl; [done|].
  rewrite addService_method_unfold.
  destruct (handlers s !! md_path attrs) as [h0|] eqn:Hpath; simpl; [done|].
  specialize (IH (set_handlers
    (<[md_path attrs := installed_handler implementation name attrs]> (handlers s)) s)
    p h).
  destruct (addService_forEach implementation rest _) eqn:Hrest; simpl in *;
    apply IH; rewrite lookup_insert_ne; congruence.
Qed.


Lemma addService_forEach_returns implementation service :
  ∀ s s',
    addService_forEach implementation service s = Returns tt s' →
    ∀ name attrs, (name, attrs) ∈ service →
      handlers s !! md_path attrs = None
      ∧ handlers s' !! md_path attrs
        = Some (installed_handler implementation name attrs).
Proof.
  induction service as [|[n a] rest IH]; intros s s' Hret name attrs Hin; simpl in *.
  - by apply elem_of_nil in Hin.
  - rewrite addService_method_unfold in Hret.
    destruct (handlers s !! md_path a) as [h0|] eqn:Hpath; [discriminate|].
    apply elem_of_cons in Hin as [Heq|Hin].
    + inversion Heq; subst. split; [done|].
      pose proof (addService_forEach_keeps implementation rest
                    (set_handlers
                       (<[md_path a := installed_handler implementation n a]>
                          (handlers s)) s)
                    (md_path a) (installed_handler implementation n a)) as Hkeep.
      rewrite Hret in Hkeep. apply Hkeep. simpl. apply lookup_insert_eq.
    + destruct (IH _ _ Hret name attrs Hin) as [Hnone Hsome]. split; [|done].
      simpl in Hnone.
      destruct (decide (md_path a = md_path attrs)) as [Heq|Hne].
      * rewrite Heq, lookup_insert_eq in Hnone. discriminate.
      * by rewrite lookup_insert_ne in Hnone.
Qed.



(** C2 as stated fails: for the method [Echo] with path [/demo.S/Echo] and
    no implementation, the details of the default handler name the method
    key, not the path.  When [addService] throws, a method behind the
    offending one gets no handler at all.  And for the method key
    [toString] and the implementation [{}], which has no property of its
    own, no default handler is installed: the handler is
    [Object.prototype.toString], bound to the implementation. *)
Lemma default_handler_details_not_path :
  (∃ response,
     func <$> handlers
                (state_of (addService (JsObject echo_service) (JsObject ∅)
                             (new_Server 0)))
              !! "/demo.S/Echo"
     = Some (DefaultFn unary response)
     ∧ code response = Some (NumericCode UNIMPLEMENTED)
     ∧ details response = Some "The server does not implement the method Echo"
     ∧ details response
       ≠ Some "The server does not implement the method /demo.S/Echo")
  ∧ ("Chat", chat_method) ∈ late_service
  ∧ handlers
      (state_of (addService (JsObject late_service) (JsObject ∅) (new_Server 0)))
    !! "/demo.S/Chat" = None
  ∧ own_properties (object_literal ∅) !! "toString" = None
  ∧ Object_prototype !! "toString" = Some 908%nat
  ∧ func <$> handlers
               (state_of (addService (JsObject toString_service)
                            (JsObject (object_literal ∅)) (new_Server 0)))
             !! "/demo.S/Echo"
    = Some (BoundFn 908).
Proof.
  split; [|split; [|split; [vm_compute; reflexivity|]]].
  - exists (getUnimplementedStatusResponse "Echo").
    split; [vm_compute; reflexivity|].
    split; [reflexivity|]. split; [reflexivity|]. discriminate.
  - unfold late_service. set_solver.
  - split; [reflexivity|]. split; vm_compute; reflexivity.
Qed.

(** C2, amended.  After a successful [addService], a method for which
    the property reads [implementation[name]] and
    [implementation[originalName]] both give [undefined], inherited
    properties included, is
    registered under its path with the default handler of its type, whose
    response has status UNIMPLEMENTED and the details "The server does not
    implement the method <name>", where <name> is the method's key in the
    service definition.  Called, the unary and client-streaming handlers
    pass this response to their callback and the server-streaming and bidi
    handlers emit it as an error; no user function runs. *)
Theorem addService_installs_default_handler
    (service : ServiceDefinition) (implementation : UntypedServiceImplementation)
    (s s' : Server) (name : string) (attrs : MethodDefinition) :
  addService (JsObject service) (JsObject implementation) s = Returns tt s' →
  (name, attrs) ∈ service →
  js_get implementation name = None →
  (∀ o, originalName attrs = Some o → js_get implementation o = None) →
  let response :=
    {| code := Some (NumericCode UNIMPLEMENTED);
       details := Some ("The server does not implement the method " +:+ name);
       metadata := Some new_Metadata; message := None |} in
  ∃ h,
    handlers s' !! md_path attrs = Some h
    ∧ path h = md_path attrs
    ∧ type h = HandlerType_str (methodType_of attrs)
    ∧ func h = DefaultFn (methodType_of attrs) response
    ∧ ∀ sid k env,
        Dispatch.call_func sid (func h) (Some k) env
        = (if responseStream attrs then [EEmitError sid response]
           else k response,
           None).
Proof.
  intros Hret Hin Hname Horig response. unfold addService in Hret.
  destruct service as [|m rest]; [by apply elem_of_nil in Hin|].
  destruct (addService_forEach_returns _ _ _ _ Hret name attrs Hin) as [_ Hh].
  exists (installed_handler implementation name attrs).
  assert (select_implFn implementation name attrs = None) as Hsel.
  { unfold select_implFn. rewrite Hname.
    destruct (originalName attrs) as [o|] eqn:Ho; [by apply Horig|done]. }
  split; [exact Hh|].
  unfold installed_handler. rewrite Hsel. simpl.
  split; [reflexivity|]. split; [reflexivity|]. split; [reflexivity|].
  intros sid k env. unfold methodType_of.
  destruct (requestStream attrs), (responseStream attrs); reflexivity.
Qed.

(** The amended C2 on the [Echo] service with the implementation [{}]:
    [Echo] is neither a property of its own nor an inherited one. *)
Lemma addService_installs_default_handler_witness :
  js_get (object_literal ∅) "Echo" = None
  ∧ ∃ h,
      handlers
        (state_of (addService (JsObject echo_service) (JsObject (object_literal ∅))
                     (new_Server 0)))
        !! "/demo.S/Echo" = Some h
      ∧ func h = DefaultFn unary (getUnimplementedStatusResponse "Echo").
Proof.
  assert (js_get (object_literal ∅) "Echo" = None) as Hmissing
    by (vm_compute; reflexivity).
  split; [exact Hmissing|].
  destruct (addService_installs_default_handler echo_service (object_literal ∅)
              (new_Server 0)
              (state_of (addService (JsObject echo_service)
                           (JsObject (object_literal ∅)) (new_Server 0)))
              "Echo" echo_method) as (h & Hh & _ & _ & Hf & _).
  - vm_compute; reflexivity.
  - apply list_elem_of_here.
  - exact Hmissing.
  - intros o Ho. discriminate.
  - exists h. split; [exact Hh | exact Hf].
Defined.

End AddServiceFacts.

Section DispatchFacts.
Import Dispatch.

Lemma sessions_get_alter f k m :
  sessions_get k (sessions_alter f k m) = f <$> sessions_get k m.
Proof.
  unfold sessions_get, sessions_alter.
  induction m as [|[sess info] m IH]; simpl; [done|].
  destruct (bool_decide (sess_id sess = k)) eqn:Hk; simpl; rewrite Hk; [done|].
  exact IH.
Qed.

Lemma count_failed_spec stream s :
  callTracker (count_failed stream s) = addCallFailed (callTracker s)
  ∧ sessions_get (session stream) (sessions (count_failed stream s))
    = with_streamTracker addCallFailed <$> sessions_get (session stream) (sessions s)
  ∧ handlers (count_failed stream s) = handlers s.
Proof.
  unfold count_failed. simpl. rewrite sessions_get_alter. done.
Qed.

Lemma count_started_spec stream s :
  callTracker (count_started stream s) = addCallStarted (callTracker s)
  ∧ sessions_get (session stream) (sessions (count_started stream s))
    = with_streamTracker addCallStarted <$> sessions_get (session stream) (sessions s)
  ∧ handlers (count_started stream s) = handlers s.
Proof.
  unfold count_started. simpl. rewrite sessions_get_alter. done.
Qed.

(** C7. A stream whose [content-type] header is missing, is not a string,
    or does not begin with [application/grpc] is answered with status 415
    and [endStream], and with nothing else: no call stream is built and no
    handler runs.  [callsFailed] (and [callsStarted]) of the server go up
    by one, and so do those of the stream tracker of the stream's session
    when the session is tracked. *)
Theorem bad_content_type_gets_415
    (stream : ServerHttp2Stream) (headers : IncomingHttpHeaders)
    (env : DispatchEnv) (s : Server) :
  (∀ c, headers !! HTTP2_HEADER_CONTENT_TYPE = Some (HString c) →
        String.prefix "application/grpc" c = false) →
  (onStream stream headers env s).2 = [ERespond (stream_id stream) 415 true]
  ∧ callsFailed (callTracker (onStream stream headers env s).1)
    = S (callsFailed (callTracker s))
  ∧ callsStarted (callTracker (onStream stream headers env s).1)
    = S (callsStarted (callTracker s))
  ∧ (∀ info,
       sessions_get (session stream) (sessions s) = Some info →
       ∃ info',
         sessions_get (session stream) (sessions (onStream stream headers env s).1)
         = Some info'
         ∧ callsFailed (streamTracker info') = S (callsFailed (streamTracker info))
         ∧ callsStarted (streamTracker info') = S (callsStarted (streamTracker info)))
  ∧ handlers (onStream stream headers env s).1 = handlers s
  ∧ Forall (λ e, is_handler_call e = false) (onStream stream headers env s).2.
Proof.
  intros Hct.
  assert (rejects_contentType (headers !! HTTP2_HEADER_CONTENT_TYPE) = true) as Hrej.
  { unfold rejects_contentType.
    destruct (headers !! HTTP2_HEADER_CONTENT_TYPE) as [[c|l]|] eqn:Hc; try done.
    by rewrite (Hct c eq_refl). }
  unfold onStream. rewrite Hrej. cbn [fst snd].
  destruct (count_failed_spec stream (count_started stream s)) as (Hf1 & Hf2 & Hf3).
  destruct (count_started_spec stream s) as (Hs1 & Hs2 & Hs3).
  split; [reflexivity|].
  split; [by rewrite Hf1, Hs1|].
  split; [by rewrite Hf1, Hs1|].
  split.
  - intros info Hinfo. rewrite Hf2, Hs2, Hinfo. simpl. eauto.
  - split; [by rewrite Hf3, Hs3|]. by repeat constructor.
Qed.

(** C7 on a [text/plain] stream of a tracked session. *)
Lemma bad_content_type_gets_415_witness :
  (onStream sample_stream (plain_headers "/demo.S/Chat") quiet_env chat_server).2
  = [ERespond 1 415 true]
  ∧ callsFailed
      (callTracker
         (onStream sample_stream (plain_headers "/demo.S/Chat") quiet_env chat_server).1)
    = 1%nat.
Proof.
  destruct (bad_content_type_gets_415 sample_stream (plain_headers "/demo.S/Chat")
              quiet_env chat_server) as (He & Hf & _).
  - intros c Hc. vm_compute in Hc. injection Hc as <-. reflexivity.
  - split; [exact He | exact Hf].
Defined.

Lemma handlers_get_count_started path stream s :
  handlers_get path (count_started stream s) = handlers_get path s.
Proof. by destruct path as [[p|l]|]. Qed.

Lemma accepts_grpc_content_type (headers : IncomingHttpHeaders) (c : string) :
  headers !! HTTP2_HEADER_CONTENT_TYPE = Some (HString c) →
  String.prefix "application/grpc" c = true →
  rejects_contentType (headers !! HTTP2_HEADER_CONTENT_TYPE) = false.
Proof. intros -> Hc. simpl. by rewrite Hc. Qed.

(** C5 as stated fails twice.  A [text/plain] stream for a path nobody
    registered is answered with 415 and no gRPC status at all; and an
    error that a user function throws with a string [code], so without a
    numeric one, is sent with that code, not with INTERNAL. *)
Lemma unregistered_path_not_always_UNIMPLEMENTED :
  handlers_get (plain_headers "/demo.S/Missing" !! HTTP2_HEADER_PATH) chat_server = None
  ∧ (onStream sample_stream (plain_headers "/demo.S/Missing") quiet_env chat_server).2
    = [ERespond 1 415 true]
  ∧ code enoent = Some (OtherCode "ENOENT")
  ∧ (dispatch_try (count_started sample_stream chat_server) sample_stream
       (grpc_headers "/demo.S/Chat") (throwing_env enoent)).2
    = Some enoent
  ∧ last (onStream sample_stream (grpc_headers "/demo.S/Chat") (throwing_env enoent)
            chat_server).2
    = Some (ESendError 1 enoent)
  ∧ code enoent ≠ Some (NumericCode INTERNAL).
Proof.
  split; [vm_compute; reflexivity|]. split; [vm_compute; reflexivity|].
  split; [reflexivity|]. split; [vm_compute; reflexivity|].
  split; [vm_compute; reflexivity|]. discriminate.
Qed.

(** C5, amended.  For a stream whose [content-type] begins with
    [application/grpc]: when [:path] has no registered handler, the
    listener builds a call stream bound to no handler and sends through
    [sendError] the status UNIMPLEMENTED with details "The server does not
    implement the method <path>"; no handler runs; [callsFailed] of the
    server, and of the session's stream tracker when the session is
    tracked, goes up by one.  And whenever the [try] block ends with an
    exception whose [code] is [undefined], the last thing the listener does
    is [sendError] with that error and [code] set to INTERNAL. *)
Theorem unregistered_path_gets_UNIMPLEMENTED
    (stream : ServerHttp2Stream) (headers : IncomingHttpHeaders)
    (env : DispatchEnv) (s : Server) (c : string) :
  headers !! HTTP2_HEADER_CONTENT_TYPE = Some (HString c) →
  String.prefix "application/grpc" c = true →
  (handlers_get (headers !! HTTP2_HEADER_PATH) s = None →
   (onStream stream headers env s).2
   = [trace s ("Received call to method " +:+ js_string (headers !! HTTP2_HEADER_PATH)
               +:+ " at address " +:+ serverAddressString (serverAddress env));
      trace s ("No handler registered for method "
               +:+ js_string (headers !! HTTP2_HEADER_PATH)
               +:+ ". Sending UNIMPLEMENTED status.");
      ENewCallStream (stream_id stream) None;
      ESendError (stream_id stream)
        {| code := Some (NumericCode UNIMPLEMENTED);
           details := Some ("The server does not implement the method "
                            +:+ js_string (headers !! HTTP2_HEADER_PATH));
           metadata := Some new_Metadata; message := None |}]
   ∧ Forall (λ e, is_handler_call e = false) (onStream stream headers env s).2
   ∧ callsFailed (callTracker (onStream stream headers env s).1)
     = S (callsFailed (callTracker s))
   ∧ ∀ info,
       sessions_get (session stream) (sessions s) = Some info →
       ∃ info',
         sessions_get (session stream) (sessions (onStream stream headers env s).1)
         = Some info'
         ∧ callsFailed (streamTracker info') = S (callsFailed (streamTracker info)))
  ∧ (∀ es call err,
       dispatch_try (count_started stream s) stream headers env = (es, call, Some err) →
       code err = None →
       last (onStream stream headers env s).2
       = Some (ESendError (stream_id stream)
                 {| code := Some (NumericCode INTERNAL); details := details err;
                    metadata := metadata err; message := message err |})).
Proof.
  intros Hc Hprefix.
  pose proof (accepts_grpc_content_type headers c Hc Hprefix) as Hacc.
  split.
  - intros Hnone. unfold onStream. rewrite Hacc.
    unfold dispatch_try. rewrite handlers_get_count_started, Hnone.
    cbn [dispatch_catch fst snd].
    destruct (count_failed_spec stream (count_started stream s)) as (Hf1 & Hf2 & _).
    destruct (count_started_spec stream s) as (Hs1 & Hs2 & _).
    split; [reflexivity|]. split; [by repeat constructor|].
    split; [by rewrite Hf1, Hs1|].
    intros info Hinfo. rewrite Hf2, Hs2, Hinfo. simpl. eauto.
  - intros es call err Htry Hcode. unfold onStream. rewrite Hacc, Htry.
    unfold dispatch_catch, default_code. rewrite Hcode.
    destruct call; cbn [snd]; rewrite ?app_assoc; apply last_snoc.
Qed.

(** The amended C5 on a started server: an unregistered path, and a
    handler whose registered type is none of the four. *)
Lemma unregistered_path_gets_UNIMPLEMENTED_witness :
  last (onStream sample_stream (grpc_headers "/demo.S/Missing") quiet_env chat_server).2
  = Some (ESendError 1 (getUnimplementedStatusResponse "/demo.S/Missing"))
  ∧ last (onStream sample_stream (grpc_headers "/odd") quiet_env
            (Registry.register "/odd" (RawFn 4) 1 2 "duplex" chat_server).2).2
    = Some (ESendError 1
              {| code := Some (NumericCode INTERNAL); details := None;
                 metadata := None;
                 message := Some "Unknown handler type: duplex" |}).
Proof.
  split.
  - destruct (unregistered_path_gets_UNIMPLEMENTED sample_stream
                (grpc_headers "/demo.S/Missing") quiet_env chat_server
                "application/grpc+proto") as [Hmissing _];
      [vm_compute; reflexivity | vm_compute; reflexivity |].
    destruct Hmissing as (He & _); [vm_compute; reflexivity|].
    rewrite He. reflexivity.
  - destruct (unregistered_path_gets_UNIMPLEMENTED sample_stream
                (grpc_headers "/odd") quiet_env
                (Registry.register "/odd" (RawFn 4) 1 2 "duplex" chat_server).2
                "application/grpc+proto") as [_ Hthrown];
      [vm_compute; reflexivity | vm_compute; reflexivity |].
    apply (Hthrown
             (dispatch_try
                (count_started sample_stream
                   (Registry.register "/odd" (RawFn 4) 1 2 "duplex" chat_server).2)
                sample_stream (grpc_headers "/odd") quiet_env).1.1
             true
             {| code := None; details := None; metadata := None;
                message := Some "Unknown handler type: duplex" |});
      [vm_compute; reflexivity | reflexivity].
Defined.

End DispatchFacts.

Section BindFacts.
Context `{P : Platform}.

Lemma grows_refl Q (w : World) : grows Q w w.
Proof. split; [done|]. exists []. by rewrite app_nil_r. Qed.

Lemma grows_trans Q (w1 w2 w3 : World) :
  grows Q w1 w2 → grows Q w2 w3 → grows Q w1 w3.
Proof.
  intros (R1 & es1 & H1 & Q1) (R2 & es2 & H2 & Q2).
  split; [congruence|]. exists (es1 ++ es2).
  rewrite H2, H1, app_assoc, forallb_app, Q1, Q2. done.
Qed.

Lemma grows_by Q es (w w' : World) :
  channelzRef (srv w') = channelzRef (srv w) →
  log w' = log w ++ es → forallb Q es = true → grows Q w w'.
Proof. intros Href Hlog HQ. split; [done|]. by exists es. Qed.

Lemma grows_same Q (w w' : World) :
  channelzRef (srv w') = channelzRef (srv w) → log w' = log w → grows Q w w'.
Proof. intros Href Hlog. apply (grows_by Q []); [done| |done]. by rewrite app_nil_r. Qed.

Lemma grows_emit Q es (w : World) : forallb Q es = true → grows Q w (emit es w).
Proof. intros HQ. by apply (grows_by Q es). Qed.

Lemma grows_weaken (Q Q' : Effect → bool) (w w' : World) :
  (∀ e, Q e = true → Q' e = true) → grows Q w w' → grows Q' w w'.
Proof.
  intros Himp (Href & es & Hlog & HQ). split; [done|]. exists es. split; [done|].
  rewrite forallb_forall in *. auto.
Qed.

Lemma grows_deferredCallback callback error port (w : World) :
  grows is_bind_effect w (deferredCallback callback error port w).
Proof. unfold deferredCallback. by eapply grows_by. Qed.

Lemma grows_wtrace Q text (w : World) :
  (∀ t, Q (ETrace t) = true) → grows Q w (wtrace text w).
Proof. intros HQ. unfold wtrace, trace. apply grows_emit. simpl. by rewrite HQ. Qed.

Lemma grows_bound Q h2 a (w : World) :
  (∀ e, is_bind_effect e = true → not_listen e = true → Q e = true) →
  grows Q w (bound h2 a w).
Proof.
  intros HQ. unfold bound, registerChannelzSocket, wtrace, trace.
  eapply grows_by; [done | simpl; rewrite <- !app_assoc; reflexivity |].
  simpl. rewrite !HQ; done.
Qed.

Lemma grows_settle_attempts Q portNum l :
  (∀ e, is_bind_effect e = true → not_listen e = true → Q e = true) →
  ∀ w : World, grows Q w (settle_attempts portNum l w).2.
Proof.
  intros HQ. induction l as [|a l IH]; intros w; simpl; [apply grows_refl|].
  assert (grows Q w (settle_attempt portNum a w).2) as Hone.
  { unfold settle_attempt.
    destruct (at_outcome a); [| |destruct (at_addr a)]; simpl;
      try apply grows_bound; try apply grows_wtrace; try apply grows_refl; auto. }
  destruct (settle_attempt portNum a w) as [r w1]. simpl in Hone.
  specialize (IH w1). destruct (settle_attempts portNum l w1) as [rs w2].
  simpl in *. eapply grows_trans; eauto.
Qed.

Lemma attempt_log secure portNum address (w : World) :
  ∃ h2,
    log (attempt secure portNum address w).2
    = log w ++ [trace (srv w) ("Attempting to bind "
                               +:+ subchannelAddressToString address);
                ECreateServer h2 secure;
                EListen h2 (retarget portNum address)]
    ∧ channelzRef (srv (attempt secure portNum address w).2) = channelzRef (srv w).
Proof.
  unfold attempt, setupServer, wtrace. simpl.
  destruct (listen _ _) as [o outcome]. simpl.
  eexists. rewrite <- !app_assoc. split; reflexivity.
Qed.

Lemma listen_targets_app l1 l2 :
  listen_targets (l1 ++ l2) = listen_targets l1 ++ listen_targets l2.
Proof. apply omap_app. Qed.

Lemma listen_targets_quiet es :
  forallb not_listen es = true → listen_targets es = [].
Proof.
  induction es as [|e es IH]; simpl; [done|].
  intros [He Hes]%andb_true_iff. unfold listen_targets in *. simpl.
  destruct e; try discriminate; simpl; auto.
Qed.

Lemma attempts_targets secure portNum addressList :
  ∀ w : World,
    listen_targets (log (attempts secure portNum addressList w).2)
    = listen_targets (log w) ++ map (retarget portNum) addressList.
Proof.
  induction addressList as [|a l IH]; intros w; simpl; [by rewrite app_nil_r|].
  destruct (attempt_log secure portNum a w) as (h2 & Hlog & _).
  destruct (attempt secure portNum a w) as [x w1]. simpl in Hlog.
  specialize (IH w1). destruct (attempts secure portNum l w1) as [xs w2].
  simpl in *. rewrite IH, Hlog, listen_targets_app. simpl.
  by rewrite <- app_assoc.
Qed.

Lemma attempts_grows secure portNum addressList :
  ∀ w : World, grows is_bind_effect w (attempts secure portNum addressList w).2.
Proof.
  induction addressList as [|a l IH]; intros w; simpl; [apply grows_refl|].
  destruct (attempt_log secure portNum a w) as (h2 & Hlog & Href).
  destruct (attempt secure portNum a w) as [x w1]. simpl in Hlog, Href.
  specialize (IH w1). destruct (attempts secure portNum l w1) as [xs w2].
  simpl in *. eapply grows_trans; [|exact IH].
  eapply grows_by; [exact Href|exact Hlog|done].
Qed.

(** [bindSpecificPort] calls [listen] once per address, in order, on the
    address moved to [portNum]. *)
Lemma bindSpecificPort_targets secure addressList portNum previousCount (w : World) :
  listen_targets (log (bindSpecificPort secure addressList portNum previousCount w).2)
  = listen_targets (log w) ++ map (retarget portNum) addressList.
Proof.
  unfold bindSpecificPort. destruct addressList as [|a l]; [by rewrite app_nil_r|].
  pose proof (attempts_targets secure portNum (a :: l) w) as Hatt.
  destruct (attempts secure portNum (a :: l) w) as [pending w1].
  pose proof (grows_settle_attempts not_listen portNum pending (λ e _ H, H) w1)
    as (_ & es & Hlog & Hq).
  destruct (settle_attempts portNum pending w1) as [settled w2].
  simpl in *.
  assert (log w2 = log w1 ++ es) as Hw2 by exact Hlog.
  destruct (Promise_all settled) as [e|results]; [|destruct (tally results portNum 0)];
    simpl;
    by rewrite Hw2, listen_targets_app, (listen_targets_quiet es Hq), app_nil_r.
Qed.

Lemma bindSpecificPort_grows secure addressList portNum previousCount (w : World) :
  grows is_bind_effect w
    (bindSpecificPort secure addressList portNum previousCount w).2.
Proof.
  unfold bindSpecificPort. destruct addressList as [|a l]; [apply grows_refl|].
  pose proof (attempts_grows secure portNum (a :: l) w) as Hatt.
  destruct (attempts secure portNum (a :: l) w) as [pending w1].
  pose proof (grows_settle_attempts is_bind_effect portNum pending (λ e H _, H) w1)
    as Hset.
  destruct (settle_attempts portNum pending w1) as [settled w2].
  simpl in *.
  destruct (Promise_all settled) as [e|results]; [|destruct (tally results portNum 0)];
    simpl; eapply grows_trans; eauto.
Qed.

Lemma tally_count results portNum :
  ∀ n m, tally results portNum n = Some m → (n ≤ m)%nat.
Proof.
  induction results as [|[r|msg] rs IH]; intros n m; simpl.
  - intros [= ->]. done.
  - case_bool_decide; [|done]. intros Hm%IH. lia.
  - apply IH.
Qed.

Lemma bindSpecificPort_fulfilled secure addressList portNum previousCount
    (w : World) r :
  (bindSpecificPort secure addressList portNum previousCount w).1 = Fulfilled r →
  br_port r = portNum ∧ (previousCount ≤ count r)%nat.
Proof.
  unfold bindSpecificPort. destruct addressList as [|a l].
  - simpl. intros [= <-]. done.
  - destruct (attempts _ _ _ _) as [pending w1].
    destruct (settle_attempts _ _ _) as [settled w2].
    destruct (Promise_all settled) as [e|results]; [done|].
    destruct (tally results portNum 0) as [n|] eqn:Ht; simpl; [|done].
    intros [= <-]. simpl. split; [done|lia].
Qed.

(** When every [listen] fails, [bindWildcardPort] tries each address as
    it is, in order, and settles on port 0 and count 0 without touching
    the listener list. *)
Lemma bindWildcardPort_all_fail secure addressList :
  (∀ o a, a ∈ addressList → ∃ o' message, listen o a = (o', ListenError message)) →
  ∀ w : World,
    (bindWildcardPort secure addressList w).1 = Fulfilled {| br_port := 0; count := 0 |}
    ∧ http2ServerList (srv (bindWildcardPort secure addressList w).2)
      = http2ServerList (srv w)
    ∧ listen_targets (log (bindWildcardPort secure addressList w).2)
      = listen_targets (log w) ++ addressList.
Proof.
  induction addressList as [|a l IH]; intros Hfail w; simpl.
  - by rewrite app_nil_r.
  - destruct (Hfail (os w) a) as (o' & message & Hl); [apply list_elem_of_here|].
    rewrite Hl.
    match goal with
    | |- context [bindWildcardPort secure l ?w1] =>
        destruct (IH (λ o x Hx, Hfail o x (list_elem_of_further _ _ _ Hx)) w1)
          as (H1 & H2 & H3)
    end.
    rewrite H1, H2, H3. simpl. split; [done|]. split; [done|].
    rewrite !listen_targets_app. simpl. by rewrite <- !app_assoc.
Qed.

(** C3. For a resolved list whose first address is TCP with port 0,
    [onSuccessfulResolution] runs [bindWildcardPort], which listens on the
    first address as it is.  If that succeeds on port [p], the rest of the
    list goes to [bindSpecificPort] with port [p] and count 1, which
    listens once on every remaining address moved to port [p]; a fulfilled
    result then has port [p] and a count of at least 1.  If it fails, the
    rest of the list goes to [bindWildcardPort] again.  If every attempt
    fails, every address was tried as it is, in order, and the result is
    port 0 and count 0 with the listener list as before. *)
Theorem wildcard_port_binding (secure : bool) (host : string)
    (rest : list SubchannelAddress) (w : World) :
  let first := TcpAddress host 0 in
  let h2 := nextId w in
  let tried o := emit [EListen h2 first] (set_os o (setupServer secure w).2) in
  bindResultPromise secure (first :: rest) w = bindWildcardPort secure (first :: rest) w
  ∧ (∀ o boundHost p,
       listen (os w) first = (o, Listening boundHost p) →
       bindWildcardPort secure (first :: rest) w
       = bindSpecificPort secure rest p 1 (bound h2 (TcpAddress boundHost p) (tried o))
       ∧ listen_targets (log (bindWildcardPort secure (first :: rest) w).2)
         = listen_targets (log w) ++ first :: map (retarget p) rest
       ∧ ∀ r, (bindWildcardPort secure (first :: rest) w).1 = Fulfilled r →
              br_port r = p ∧ (1 ≤ count r)%nat)
  ∧ (∀ o message,
       listen (os w) first = (o, ListenError message) →
       bindWildcardPort secure (first :: rest) w
       = bindWildcardPort secure rest
           (wtrace ("Failed to bind " +:+ subchannelAddressToString first
                    +:+ " with error " +:+ message) (tried o)))
  ∧ ((∀ o a, a ∈ first :: rest →
             ∃ o' message, listen o a = (o', ListenError message)) →
     (bindWildcardPort secure (first :: rest) w).1
     = Fulfilled {| br_port := 0; count := 0 |}
     ∧ http2ServerList (srv (bindWildcardPort secure (first :: rest) w).2)
       = http2ServerList (srv w)
     ∧ listen_targets (log (bindWildcardPort secure (first :: rest) w).2)
       = listen_targets (log w) ++ first :: rest).
Proof.
  intros first h2 tried.
  split; [reflexivity|]. split; [|split].
  - intros o boundHost p Hl.
    assert (bindWildcardPort secure (first :: rest) w
            = bindSpecificPort secure rest p 1
                (bound h2 (TcpAddress boundHost p) (tried o))) as Heq.
    { simpl. fold first. rewrite Hl. reflexivity. }
    rewrite Heq. split; [reflexivity|]. split.
    + rewrite bindSpecificPort_targets.
      pose proof (grows_bound not_listen h2 (TcpAddress boundHost p) (tried o)
                    (λ e _ H, H)) as (_ & es & Hlog & Hq).
      rewrite Hlog, listen_targets_app, (listen_targets_quiet es Hq), app_nil_r.
      unfold tried, setupServer. simpl.
      rewrite !listen_targets_app. simpl. by rewrite <- !app_assoc.
    + intros r Hr. by apply bindSpecificPort_fulfilled in Hr.
  - intros o message Hl. simpl. fold first. rewrite Hl. reflexivity.
  - intros Hfail. by apply bindWildcardPort_all_fail.
Qed.

End BindFacts.

Section ReplyFacts.
Context `{P : Platform}.

(** C4. The reply to a settled bind of [N] resolved addresses.  With
    count 0 the error "No address added out of total N resolved" is logged
    and queued for the callback with port 0.  With a count between 0 and
    [N] the partial binding is logged at INFO and the bound port is queued
    with no error.  With count [N] the bound port is queued with no error
    and nothing is logged.  For the resolution result [bindAsync] listens
    to (the first one), an empty list queues the error "No addresses
    resolved for port <port>" with port 0 at once, and a list that is not
    empty leaves a pending continuation whose [N] is the length of the
    list. *)
Theorem bind_reply_policy (callback : FnId) (N : nat) (r : BindResult) (w : World) :
  let p := {| pt_outcome := Fulfilled r; pt_total := N; pt_callback := callback |} in
  let errorString := "No address added out of total " +:+ pretty N +:+ " resolved" in
  let failure :=
    {| reply_callback := callback; reply_error := Some errorString;
       reply_port := 0 |} in
  let success :=
    {| reply_callback := callback; reply_error := None;
       reply_port := br_port r |} in
  (count r = 0%nat →
   log (then_reply p w) = log w ++ [ELog ERROR errorString; ENextTick failure]
   ∧ nextTickQueue (then_reply p w) = nextTickQueue w ++ [failure])
  ∧ ((0 < count r < N)%nat →
     log (then_reply p w)
     = log w ++ [ELog INFO ("WARNING Only " +:+ pretty (count r)
                            +:+ " addresses added out of total " +:+ pretty N
                            +:+ " resolved");
                 ENextTick success]
     ∧ nextTickQueue (then_reply p w) = nextTickQueue w ++ [success])
  ∧ ((0 < count r)%nat → count r = N →
     log (then_reply p w) = log w ++ [ENextTick success]
     ∧ nextTickQueue (then_reply p w) = nextTickQueue w ++ [success])
  ∧ (∀ i l,
       resolverListeners w !! i = Some l → armed l = true →
       let empty :=
         {| reply_callback := rl_callback l;
            reply_error := Some ("No addresses resolved for port " +:+ rl_port l);
            reply_port := 0 |} in
       log (onSuccessfulResolution i [] w) = log w ++ [ENextTick empty]
       ∧ nextTickQueue (onSuccessfulResolution i [] w) = nextTickQueue w ++ [empty]
       ∧ bindResultPromises (onSuccessfulResolution i [] w) = bindResultPromises w
       ∧ ∀ a rest, ∃ outcome,
           last (bindResultPromises (onSuccessfulResolution i (a :: rest) w))
           = Some {| pt_outcome := outcome; pt_total := length (a :: rest);
                     pt_callback := rl_callback l |}).
Proof.
  intros p errorString failure success. unfold then_reply. simpl.
  split; [|split; [|split; [|]]].
  - intros ->. simpl. by rewrite <- app_assoc.
  - intros [Hpos Hlt].
    rewrite (bool_decide_eq_false_2 (count r = 0%nat)) by lia.
    rewrite (bool_decide_eq_true_2 (count r < N)%nat) by lia.
    simpl. by rewrite <- app_assoc.
  - intros Hpos <-.
    rewrite (bool_decide_eq_false_2 (count r = 0%nat)) by lia.
    rewrite (bool_decide_eq_false_2 (count r < count r)%nat) by lia. done.
  - intros i l Hl Harmed. unfold onSuccessfulResolution. rewrite Hl, Harmed.
    split; [done|]. split; [done|]. split; [done|].
    intros a rest.
    destruct (bindResultPromise (rl_secure l) (a :: rest) _) as [outcome w2].
    exists outcome. simpl. apply last_snoc.
Qed.

End ReplyFacts.

Section BindAsyncFacts.
Context `{P : Platform}.

Lemma bind_effect_quiet e : is_bind_effect e = true → is_quiet e = true.
Proof. by destruct e. Qed.

Lemma bindWildcardPort_grows secure addressList :
  ∀ w : World, grows is_bind_effect w (bindWildcardPort secure addressList w).2.
Proof.
  induction addressList as [|a l IH]; intros w; simpl; [apply grows_refl|].
  destruct (listen (os w) a) as [o [e|message|boundHost boundPort]].
  - eapply grows_by; [done | simpl; rewrite <- !app_assoc; reflexivity | done].
  - eapply grows_trans; [|apply IH].
    eapply grows_by; [done | simpl; rewrite <- !app_assoc; reflexivity | done].
  - destruct a as [host port|path].
    + eapply grows_trans; [|apply bindSpecificPort_grows].
      eapply grows_trans; [|apply grows_bound; auto].
      eapply grows_by; [done | simpl; rewrite <- !app_assoc; reflexivity | done].
    + eapply grows_by; [done | simpl; rewrite <- !app_assoc; reflexivity | done].
Qed.

Lemma bindResultPromise_grows secure addressList (w : World) :
  grows is_bind_effect w (bindResultPromise secure addressList w).2.
Proof.
  unfold bindResultPromise. destruct addressList as [|[host port|path] l].
  - apply bindSpecificPort_grows.
  - case_bool_decide; [apply bindWildcardPort_grows | apply bindSpecificPort_grows].
  - apply bindSpecificPort_grows.
Qed.

Lemma then_reply_grows p (w : World) : grows is_bind_effect w (then_reply p w).
Proof.
  unfold then_reply, deferredCallback.
  destruct (pt_outcome p) as [r|e|]; repeat case_bool_decide;
    try apply grows_refl;
    (eapply grows_by; [done | simpl; rewrite <- ?app_assoc; reflexivity | done]).
Qed.

Lemma onSuccessfulResolution_grows i addressList (w : World) :
  grows is_bind_effect w (onSuccessfulResolution i addressList w).
Proof.
  unfold onSuccessfulResolution.
  destruct (resolverListeners w !! i) as [l|]; [|apply grows_refl].
  destruct (armed l); [|apply grows_refl].
  destruct addressList as [|a rest].
  - unfold deferredCallback. by eapply grows_by.
  - match goal with
    | |- context [bindResultPromise ?b ?al ?w1] =>
        pose proof (bindResultPromise_grows b al w1) as Hg;
        destruct (bindResultPromise b al w1) as [outcome w2]
    end.
    destruct Hg as (Href & es & Hlog & HQ). by eapply grows_by.
Qed.

Lemma resolver_event_grows i e (w : World) :
  grows is_bind_effect w (resolver_event i w e).
Proof.
  destruct e as [addressList|details]; simpl.
  - apply onSuccessfulResolution_grows.
  - unfold onError. destruct (resolverListeners w !! i); [|apply grows_refl].
    apply grows_deferredCallback.
Qed.

Lemma resolver_events_grow i results :
  ∀ w : World, grows is_bind_effect w (fold_left (resolver_event i) results w).
Proof.
  induction results as [|e l IH]; intros w; simpl; [apply grows_refl|].
  eapply grows_trans; [apply resolver_event_grows | apply IH].
Qed.

Lemma bindAsync_grows port creds callback (w : World) :
  grows is_bind_effect w (state_of (bindAsync port creds callback w)).
Proof.
  unfold bindAsync.
  repeat (case_match; simpl; try apply grows_refl).
  - by apply grows_same.
  - eapply grows_trans; [|apply resolver_events_grow]. by apply grows_same.
Qed.

End BindAsyncFacts.

Section LifecycleFacts.
Context `{P : Platform}.

Lemma forallb_map_true {A} (Q : Effect → bool) (f : A → Effect) (l : list A) :
  (∀ x, Q (f x) = true) → forallb Q (map f l) = true.
Proof. intros HQ. induction l as [|x l IH]; simpl; [done|]. by rewrite HQ, IH. Qed.

Lemma close_servers_spec mk (w : World) :
  channelzRef (srv (close_servers mk w).2) = channelzRef (srv w)
  ∧ (∃ quiet,
       log (close_servers mk w).2 = log w ++ quiet ∧ forallb is_quiet quiet = true)
  ∧ List.filter (λ e, listening (server e))
      (http2ServerList (srv (close_servers mk w).2)) = []
  ∧ sessions (srv (close_servers mk w).2) = sessions (srv w)
  ∧ shutdowns (close_servers mk w).2 = shutdowns w.
Proof.
  unfold close_servers. simpl. split; [done|]. split.
  - eexists. split; [reflexivity|]. by apply forallb_map_true.
  - split; [|done].
    induction (http2ServerList (srv w)) as [|e l IH]; simpl; [done|]. exact IH.
Qed.

Lemma maybeCallback_shuts k (w : World) : shuts 0 w (maybeCallback k w).
Proof.
  unfold maybeCallback, wrappedCallback.
  destruct (shutdowns w !! k) as [f|]; [case_bool_decide|]; simpl.
  - split; [done|]. eexists [], _. simpl. split; [reflexivity|]. split; [done|].
    right. eauto.
  - split; [done|]. exists [], []. simpl. rewrite app_nil_r. repeat split. by left.
  - split; [done|]. exists [], []. simpl. rewrite app_nil_r. repeat split. by left.
Qed.

Lemma shuts_after_quiet d quiet (w w1 w' : World) :
  channelzRef (srv w1) = channelzRef (srv w) →
  log w1 = log w ++ quiet → forallb is_quiet quiet = true →
  shuts d w1 w' → shuts d w w'.
Proof.
  intros Href Hlog HQ (Href' & q & tail & Hlog' & HQ' & Htail).
  split; [congruence|]. exists (quiet ++ q), tail. split; [|split].
  - rewrite Hlog', Hlog, Href. by rewrite <- !app_assoc.
  - by rewrite forallb_app, HQ, HQ'.
  - by rewrite <- Href.
Qed.

Lemma tryShutdown_shuts callback (w : World) : shuts 0 w (tryShutdown callback w).
Proof.
  unfold tryShutdown.
  destruct (close_servers_spec (λ ref, TryClosed ref (length (shutdowns w)))
              (with_srv (set_started false) w))
    as (Href & (quiet & Hlog & HQ) & _).
  destruct (close_servers _ _) as [closing w2]. simpl in Href, Hlog.
  unfold wrappedCallback. case_bool_decide; simpl.
  - split; [done|].
    eexists (quiet ++ map (λ e, ESessionClose (sess_id e.1))
                        (List.filter (λ e, negb (closed e.1)) (sessions (srv w2)))), _.
    simpl. rewrite Hlog, <- !app_assoc. split; [reflexivity|].
    rewrite forallb_app, HQ, forallb_map_true; [|done]. split; [done|].
    right. rewrite Href. eauto.
  - split; [done|].
    exists (quiet ++ map (λ e, ESessionClose (sess_id e.1))
                       (List.filter (λ e, negb (closed e.1)) (sessions (srv w2)))), [].
    simpl. rewrite Hlog, app_nil_r, <- !app_assoc. split; [reflexivity|].
    rewrite forallb_app, HQ, forallb_map_true; [|done]. split; [done|]. by left.
Qed.

Lemma forceShutdown_shuts (w : World) : shuts 1 w (forceShutdown w).
Proof.
  unfold forceShutdown.
  destruct (close_servers_spec ForceClosed w) as (Href & (quiet & Hlog & HQ) & _).
  destruct (close_servers _ _) as [closing w1]. simpl in Href, Hlog. simpl.
  split; [done|].
  exists (quiet ++ map (λ e, ESessionDestroy (sess_id e.1) true) (sessions (srv w1))), [].
  unfold emit, with_srv. simpl. rewrite Hlog, Href, <- !app_assoc. simpl.
  split; [reflexivity|].
  rewrite forallb_app, HQ, forallb_map_true; [|done]. split; [done|]. by left.
Qed.

Lemma fire_close_shuts c (w : World) : shuts 0 w (fire_close c w).
Proof.
  destruct c as [ref|ref k|k|session ref clientAddress]; simpl.
  - split; [done|]. exists [EUnrefChild ref; EUnregisterChannelzRef (OfSocket ref)], [].
    simpl. repeat split. by left.
  - eapply shuts_after_quiet; [| | |apply maybeCallback_shuts]; simpl; done.
  - apply maybeCallback_shuts.
  - split; [done|]. eexists _, []. simpl. rewrite app_nil_r.
    split; [reflexivity|]. split; [done|]. by left.
Qed.

Lemma unregistrations_app ref l1 l2 :
  unregistrations ref (l1 ++ l2)
  = (unregistrations ref l1 + unregistrations ref l2)%nat.
Proof. unfold unregistrations. by rewrite List.filter_app, length_app. Qed.

Lemma shutdown_callbacks_app l1 l2 :
  shutdown_callbacks (l1 ++ l2) = shutdown_callbacks l1 ++ shutdown_callbacks l2.
Proof. apply omap_app. Qed.

Lemma bind_callbacks_app l1 l2 :
  bind_callbacks (l1 ++ l2) = bind_callbacks l1 ++ bind_callbacks l2.
Proof. apply omap_app. Qed.

Lemma user_callbacks_app l1 l2 :
  user_callbacks (l1 ++ l2) = user_callbacks l1 ++ user_callbacks l2.
Proof. apply omap_app. Qed.

Lemma quiet_measures ref es :
  forallb is_quiet es = true →
  unregistrations ref es = 0%nat ∧ user_callbacks es = []
  ∧ shutdown_callbacks es = [] ∧ bind_callbacks es = [].
Proof.
  induction es as [|e es IH]; simpl; [done|].
  intros [He Hes]%andb_true_iff. destruct (IH Hes) as (H1 & H2 & H3 & H4).
  unfold unregistrations, user_callbacks, shutdown_callbacks, bind_callbacks in *.
  destruct e; simpl in *; try discriminate; try done.
  match goal with r : ChannelzRef |- _ => destruct r end; [discriminate|].
  rewrite bool_decide_eq_false_2 by discriminate. done.
Qed.

Lemma completion_measures ref tail :
  completion ref tail →
  unregistrations ref tail = length (shutdown_callbacks tail)
  ∧ bind_callbacks tail = [].
Proof.
  intros [->|[callback ->]]; [done|].
  unfold unregistrations. simpl. by rewrite bool_decide_eq_true_2.
Qed.

Lemma repeat_measures ref d :
  unregistrations ref (repeat (EUnregisterChannelzRef (OfServer ref)) d) = d
  ∧ shutdown_callbacks (repeat (EUnregisterChannelzRef (OfServer ref)) d) = []
  ∧ bind_callbacks (repeat (EUnregisterChannelzRef (OfServer ref)) d) = [].
Proof.
  unfold unregistrations. induction d as [|d (IH1 & IH2 & IH3)]; simpl; [done|].
  rewrite bool_decide_eq_true_2 by done. simpl. by rewrite IH1.
Qed.

(** What a shutdown step adds to the log: [d] more unregistrations of the
    server ref than completed [tryShutdown] callbacks, and no callback of
    [bindAsync]. *)
Lemma shuts_measures d (w w' : World) :
  shuts d w w' →
  channelzRef (srv w') = channelzRef (srv w)
  ∧ ∃ es,
      log w' = log w ++ es
      ∧ unregistrations (channelzRef (srv w)) es
        = (d + length (shutdown_callbacks es))%nat
      ∧ bind_callbacks es = [].
Proof.
  intros (Href & quiet & tail & Hlog & HQ & Htail). split; [done|].
  eexists. split; [exact Hlog|].
  destruct (quiet_measures (channelzRef (srv w)) quiet HQ) as (Q1 & _ & Q3 & Q4).
  destruct (completion_measures _ _ Htail) as (T1 & T2).
  destruct (repeat_measures (channelzRef (srv w)) d) as (R1 & R2 & R3).
  rewrite !unregistrations_app, !shutdown_callbacks_app, !bind_callbacks_app.
  rewrite Q1, Q3, Q4, T1, T2, R1, R2, R3. simpl. split; [lia|done].
Qed.

Lemma grows_quiet_measures (w w' : World) :
  grows is_quiet w w' →
  channelzRef (srv w') = channelzRef (srv w)
  ∧ ∃ es,
      log w' = log w ++ es
      ∧ unregistrations (channelzRef (srv w)) es = 0%nat
      ∧ user_callbacks es = [] ∧ shutdown_callbacks es = []
      ∧ bind_callbacks es = [].
Proof.
  intros (Href & es & Hlog & HQ). split; [done|]. exists es. split; [done|].
  by apply quiet_measures.
Qed.

Lemma addService_channelzRef service implementation s :
  channelzRef (state_of (Registry.addService service implementation s))
  = channelzRef s.
Proof.
  unfold Registry.addService.
  destruct service as [| |service]; try done.
  destruct implementation as [| |implementation]; try done.
  destruct service as [|m rest]; [done|].
  generalize (m :: rest). clear m rest. intros l. revert s.
  induction l as [|[name attrs] l IH]; intros s; simpl; [done|].
  rewrite addService_method_unfold.
  destruct (handlers s !! md_path attrs); simpl; [done|]. by rewrite IH.
Qed.

Lemma removeService_channelzRef service s :
  channelzRef (state_of (Registry.removeService service s)) = channelzRef s.
Proof.
  unfold Registry.removeService. destruct service as [| |service]; try done.
  simpl. revert s. induction service as [|[name attrs] l IH]; intros s; simpl; [done|].
  by rewrite IH.
Qed.

Lemma onStream_quiet stream headers env s :
  channelzRef (Dispatch.onStream stream headers env s).1 = channelzRef s
  ∧ forallb is_quiet (Dispatch.onStream stream headers env s).2 = true.
Proof.
  unfold Dispatch.onStream, Dispatch.dispatch_try, Dispatch.dispatch_catch,
    Dispatch.handle_by_type, Dispatch.handleUnary, Dispatch.handleServerStreaming,
    Dispatch.handleClientStreaming, Dispatch.handleBidiStreaming,
    Dispatch.call_func, runDefaultHandler, trace.
  repeat (case_match; simplify_eq; simpl; try done).
Qed.

Lemma start_grows (w : World) : grows is_quiet w (state_of (start w)).
Proof.
  unfold start. repeat (case_match; simpl; try apply grows_refl).
  by eapply grows_by.
Qed.

Lemma onSession_grows session remoteAddress (w : World) :
  grows is_quiet w (onSession session remoteAddress w).
Proof.
  unfold onSession, registerChannelzSocket. case_match; simpl.
  - eapply grows_by; [done | simpl; rewrite <- !app_assoc; reflexivity | done].
  - by eapply grows_by.
Qed.

(** Every step but [NextTick] and the shutdown steps is quiet. *)
Lemma step_grows_quiet (w : World) (e : Event) :
  match e with
  | NextTick | CallTryShutdown _ | CallForceShutdown | CloseEvent _ => True
  | _ => grows is_quiet w (step w e)
  end.
Proof.
  destruct e; simpl; try done.
  - apply grows_same; [apply addService_channelzRef | done].
  - apply grows_same; [apply removeService_channelzRef | done].
  - eapply grows_weaken; [apply bind_effect_quiet | apply bindAsync_grows].
  - apply start_grows.
  - eapply grows_weaken; [apply bind_effect_quiet | apply resolver_event_grows].
  - destruct (bindResultPromises w) as [|p rest]; [apply grows_refl|].
    eapply grows_weaken; [apply bind_effect_quiet|].
    eapply grows_trans; [|apply then_reply_grows]. by apply grows_same.
  - apply onSession_grows.
  - destruct (onStream_quiet stream headers env (srv w)) as [Href HQ].
    destruct (Dispatch.onStream stream headers env (srv w)) as [s es].
    by eapply grows_by.
Qed.

(** Every step adds to the log as many unregistrations of the server ref
    as [tryShutdown] callbacks, and one more when it is [forceShutdown];
    only [NextTick] adds callbacks of [bindAsync]. *)
Lemma step_measures (w : World) (e : Event) :
  channelzRef (srv (step w e)) = channelzRef (srv w)
  ∧ ∃ es,
      log (step w e) = log w ++ es
      ∧ unregistrations (channelzRef (srv w)) es
        = ((if is_forceShutdown e then 1 else 0) + length (shutdown_callbacks es))%nat
      ∧ (e ≠ NextTick → bind_callbacks es = []).
Proof.
  pose proof (step_grows_quiet w e) as Hquiet.
  assert (∀ w', grows is_quiet w w' → is_forceShutdown e = false →
    channelzRef (srv w') = channelzRef (srv w)
    ∧ ∃ es, log w' = log w ++ es
      ∧ unregistrations (channelzRef (srv w)) es
        = ((if is_forceShutdown e then 1 else 0) + length (shutdown_callbacks es))%nat
      ∧ (e ≠ NextTick → bind_callbacks es = [])) as Hq.
  { intros w' Hg Hf. apply grows_quiet_measures in Hg as (Href & es & Hlog & U & _ & S & B).
    split; [done|]. exists es. rewrite Hf, U, S. done. }
  assert (∀ d w', shuts d w w' → (if is_forceShutdown e then 1 else 0)%nat = d →
    channelzRef (srv w') = channelzRef (srv w)
    ∧ ∃ es, log w' = log w ++ es
      ∧ unregistrations (channelzRef (srv w)) es
        = ((if is_forceShutdown e then 1 else 0) + length (shutdown_callbacks es))%nat
      ∧ (e ≠ NextTick → bind_callbacks es = [])) as Hs.
  { intros d w' Hsh Hd. apply shuts_measures in Hsh as (Href & es & Hlog & U & B).
    split; [done|]. exists es. rewrite Hd. done. }
  destruct e; try (apply Hq; [exact Hquiet|done]).
  - apply (Hs 0%nat); [apply tryShutdown_shuts|done].
  - apply (Hs 1%nat); [apply forceShutdown_shuts|done].
  - simpl. destruct (nextTickQueue w) as [|task rest].
    + split; [done|]. exists []. by rewrite app_nil_r.
    + split; [done|]. eexists. split; [reflexivity|]. done.
  - simpl. destruct (closeListeners w !! i) as [c|].
    + apply (Hs 0%nat); [|done].
      eapply shuts_after_quiet; [| | |apply fire_close_shuts]; simpl;
        [done | by rewrite app_nil_r | done].
    + split; [done|]. exists []. by rewrite app_nil_r.
Qed.

Lemma run_measures (events : list Event) :
  ∀ w : World,
    channelzRef (srv (run w events)) = channelzRef (srv w)
    ∧ ∃ es,
        log (run w events) = log w ++ es
        ∧ unregistrations (channelzRef (srv w)) es
          = (length (List.filter is_forceShutdown events)
             + length (shutdown_callbacks es))%nat.
Proof.
  induction events as [|e events IH]; intros w; simpl.
  - split; [done|]. exists []. by rewrite app_nil_r.
  - destruct (step_measures w e) as (Href & es1 & Hlog1 & U1 & _).
    destruct (IH (step w e)) as (Href2 & es2 & Hlog2 & U2).
    split; [congruence|]. exists (es1 ++ es2).
    rewrite Hlog2, Hlog1, <- app_assoc. split; [done|].
    rewrite unregistrations_app, shutdown_callbacks_app, length_app, U1.
    rewrite Href in U2. rewrite U2.
    destruct (is_forceShutdown e); simpl; lia.
Qed.

Lemma filter_closed_entry l :
  List.filter (λ e, listening (server e)) (map closed_entry l) = [].
Proof. induction l as [|e l IH]; simpl; done. Qed.

Lemma filter_closed_session l :
  List.filter (λ e : Http2Session * ChannelzSessionInfo, negb (closed e.1))
    (map closed_session l) = [].
Proof. induction l as [|e l IH]; simpl; done. Qed.

(** After [tryShutdown] no server of the list is listening and no session
    of the map is open. *)
Lemma tryShutdown_leaves_nothing_open callback (w : World) :
  List.filter (λ e, listening (server e))
    (http2ServerList (srv (tryShutdown callback w))) = []
  ∧ List.filter (λ e, negb (closed e.1)) (sessions (srv (tryShutdown callback w))) = []
  ∧ channelzRef (srv (tryShutdown callback w)) = channelzRef (srv w).
Proof.
  unfold tryShutdown, close_servers, wrappedCallback. simpl.
  case_bool_decide; simpl;
    by rewrite filter_closed_entry, filter_closed_session.
Qed.

(** With nothing to close, [tryShutdown] completes before it returns. *)
Lemma tryShutdown_nothing_open callback (w : World) :
  List.filter (λ e, listening (server e)) (http2ServerList (srv w)) = [] →
  List.filter (λ e, negb (closed e.1)) (sessions (srv w)) = [] →
  log (tryShutdown callback w)
  = log w ++ [EUnregisterChannelzRef (OfServer (channelzRef (srv w)));
              ECallback (ShutdownCallback callback None)].
Proof.
  intros Hl Hs. unfold tryShutdown, close_servers, wrappedCallback. simpl.
  rewrite Hl, Hs. simpl. by rewrite !app_nil_r.
Qed.

(** C1, amended.  Over any run of the server, [unregisterChannelzRef] is
    called on the server's ref once by every [forceShutdown] call and once
    by every [tryShutdown] call that completes, right before its callback:
    the number of these calls is the number of [forceShutdown] calls plus
    the number of [tryShutdown] callbacks invoked.  A [tryShutdown] that
    follows a [tryShutdown] finds nothing left to close and completes
    before it returns, with one more unregistration and its callback; on a
    server with nothing to close the first one does the same, so both
    callbacks are invoked. *)
Theorem unregistrations_follow_shutdowns (w : World) (events : list Event)
    (callback1 callback2 : FnId) :
  (∃ es,
     log (run w events) = log w ++ es
     ∧ unregistrations (channelzRef (srv w)) es
       = (length (List.filter is_forceShutdown events)
          + length (shutdown_callbacks es))%nat)
  ∧ log (tryShutdown callback2 (tryShutdown callback1 w))
    = log (tryShutdown callback1 w)
      ++ [EUnregisterChannelzRef (OfServer (channelzRef (srv w)));
          ECallback (ShutdownCallback callback2 None)]
  ∧ (List.filter (λ e, listening (server e)) (http2ServerList (srv w)) = [] →
     List.filter (λ e, negb (closed e.1)) (sessions (srv w)) = [] →
     log (tryShutdown callback2 (tryShutdown callback1 w))
     = log w
       ++ [EUnregisterChannelzRef (OfServer (channelzRef (srv w)));
           ECallback (ShutdownCallback callback1 None);
           EUnregisterChannelzRef (OfServer (channelzRef (srv w)));
           ECallback (ShutdownCallback callback2 None)]).
Proof.
  destruct (tryShutdown_leaves_nothing_open callback1 w) as (Hl & Hs & Href).
  pose proof (tryShutdown_nothing_open callback2 _ Hl Hs) as Hsecond.
  rewrite Href in Hsecond.
  split; [apply run_measures|]. split; [exact Hsecond|].
  intros Hl0 Hs0. rewrite Hsecond, (tryShutdown_nothing_open callback1 w Hl0 Hs0).
  by rewrite <- app_assoc.
Qed.

(** C8. On a started server [bindAsync] throws "server is already
    started" and changes nothing.  When [bindAsync] returns, no user
    callback was called during the call, whatever the resolver did before
    [updateResolution] returned.  No later step of the server other than a
    [process.nextTick] task calls a [bindAsync] callback, and a
    [process.nextTick] task calls the callback of the reply at the head of
    the queue. *)
Theorem bindAsync_defers_callback (port creds callback : JsVal) (w : World) :
  (started (srv w) = true →
   bindAsync port creds callback w = Throws (Error "server is already started") w)
  ∧ (∀ w', bindAsync port creds callback w = Returns tt w' →
           user_callbacks (log w') = user_callbacks (log w))
  ∧ (∀ e, e ≠ NextTick → bind_callbacks (log (step w e)) = bind_callbacks (log w))
  ∧ (∀ task rest,
       nextTickQueue w = task :: rest →
       log (step w NextTick)
       = log w ++ [ECallback (BindCallback (reply_callback task) (reply_error task)
                                (reply_port task))]
       ∧ nextTickQueue (step w NextTick) = rest).
Proof.
  split; [|split; [|split]].
  - intros Hstarted. unfold bindAsync. by rewrite Hstarted.
  - intros w' Hret. pose proof (bindAsync_grows port creds callback w) as Hg.
    rewrite Hret in Hg. simpl in Hg.
    apply (grows_weaken _ _ _ _ bind_effect_quiet) in Hg.
    apply grows_quiet_measures in Hg as (_ & es & Hlog & _ & Hu & _).
    by rewrite Hlog, user_callbacks_app, Hu, app_nil_r.
  - intros e He. destruct (step_measures w e) as (_ & es & Hlog & _ & Hb).
    by rewrite Hlog, bind_callbacks_app, (Hb He), app_nil_r.
  - intros task rest Hq. simpl. by rewrite Hq.
Qed.

(** C10, amended.  On a server that is not started, [bindAsync] checks
    its arguments in the order port, creds, callback and throws for the
    first one that fails: the TypeError "port must be a string" when port
    is not a string; "creds must be a ServerCredentials object" when port
    is a string and creds is not a [ServerCredentials] instance; "callback
    must be a function" when port and creds pass and callback is not a
    function.  The exception leaves the world as it was: no callback is
    called or queued and no listener is created. *)
Theorem bindAsync_validates_arguments (port creds callback : JsVal) (w : World) :
  started (srv w) = false →
  ((∀ v, port ≠ VString v) →
   bindAsync port creds callback w = Throws (TypeError "port must be a string") w)
  ∧ (∀ v, port = VString v →
          (∀ secure, creds ≠ VServerCredentials secure) →
          bindAsync port creds callback w
          = Throws (TypeError "creds must be a ServerCredentials object") w)
  ∧ (∀ v secure, port = VString v → creds = VServerCredentials secure →
                 (∀ f, callback ≠ VFunction f) →
                 bindAsync port creds callback w
                 = Throws (TypeError "callback must be a function") w).
Proof.
  intros Hstarted. unfold bindAsync. rewrite Hstarted.
  split; [|split].
  - intros Hport. destruct port; try done. by destruct (Hport v).
  - intros v -> Hcreds. destruct creds; try done. by destruct (Hcreds secure).
  - intros v secure -> -> Hcb. destruct callback; try done. by destruct (Hcb f).
Qed.

End LifecycleFacts.

Section BindExamples.
#[local] Existing Instance lan.

(** C4 for two addresses bound out of three. *)
Lemma bind_reply_policy_witness :
  (0 < 2 < 3)%nat
  ∧ log (then_reply
           {| pt_outcome := Fulfilled {| br_port := 50051; count := 2 |};
              pt_total := 3; pt_callback := 1 |} fresh_world)
    = [ELog INFO "WARNING Only 2 addresses added out of total 3 resolved";
       ENextTick {| reply_callback := 1; reply_error := None;
                    reply_port := 50051 |}].
Proof.
  split; [lia|].
  destruct (bind_reply_policy 1 3 {| br_port := 50051; count := 2 |} fresh_world)
    as (_ & Hpartial & _).
  destruct Hpartial as [Hlog _]; [simpl; lia|].
  exact Hlog.
Defined.

(** C3 on a host where 127.0.0.1 and 127.0.0.2 are local and 10.0.0.1 is
    not: the first address gets port 50051 from the system, the other two
    are tried on 50051, and two of the three are bound. *)
Lemma wildcard_port_binding_witness :
  listen_targets (log (bindWildcardPort false lan_addresses fresh_world).2)
  = [TcpAddress "127.0.0.1" 0; TcpAddress "10.0.0.1" 50051;
     TcpAddress "127.0.0.2" 50051]
  ∧ (bindWildcardPort false lan_addresses fresh_world).1
    = Fulfilled {| br_port := 50051; count := 2 |}
  ∧ (bindWildcardPort false [TcpAddress "10.0.0.1" 0; TcpAddress "10.0.0.1" 0]
       fresh_world).1
    = Fulfilled {| br_port := 0; count := 0 |}.
Proof.
  destruct (wildcard_port_binding false "127.0.0.1"
              [TcpAddress "10.0.0.1" 0; TcpAddress "127.0.0.2" 0] fresh_world)
    as (_ & Hfirst & _ & _).
  destruct (Hfirst ([("127.0.0.1", 50051)] : list (string * Z)) "127.0.0.1" 50051) as (_ & Htargets & _);
    [reflexivity|].
  split; [exact Htargets|]. split; [vm_compute; reflexivity|].
  destruct (wildcard_port_binding false "10.0.0.1" [TcpAddress "10.0.0.1" 0]
              fresh_world) as (_ & _ & _ & Hnone).
  apply Hnone. intros o a Ha.
  exists o, "EADDRNOTAVAIL".
  apply elem_of_cons in Ha as [->|Ha]; [reflexivity|].
  apply elem_of_cons in Ha as [->|Ha]; [reflexivity|].
  by apply elem_of_nil in Ha.
Defined.

(** C1 as stated fails.  Two [tryShutdown] calls on a fresh server call
    both callbacks and unregister the server's ref twice; and a
    [forceShutdown] during a [tryShutdown] that waits for its listeners
    unregisters the ref at once, and the [tryShutdown] unregisters it again
    when the two listeners have closed. *)
Lemma server_ref_unregistered_twice :
  shutdown_callbacks (log (run fresh_world [CallTryShutdown 1; CallTryShutdown 2]))
  = [1%nat; 2%nat]
  ∧ unregistrations (channelzRef (srv fresh_world))
      (log (run fresh_world [CallTryShutdown 1; CallTryShutdown 2])) = 2%nat
  ∧ unregistrations (channelzRef (srv started_world))
      (skipn (length (log started_world))
         (log (run started_world
                 [CallTryShutdown 1; CallForceShutdown; CloseEvent 0; CloseEvent 0])))
    = 2%nat
  ∧ ¬ (2 ≤ 1)%nat.
Proof.
  split; [vm_compute; reflexivity|]. split; [vm_compute; reflexivity|].
  split; [vm_compute; reflexivity|]. lia.
Qed.

(** The amended C1 on a fresh server: two [tryShutdown] calls. *)
Lemma unregistrations_follow_shutdowns_witness :
  log (tryShutdown 2 (tryShutdown 1 fresh_world))
  = [EUnregisterChannelzRef (OfServer {| server_id := 0 |});
     ECallback (ShutdownCallback 1 None);
     EUnregisterChannelzRef (OfServer {| server_id := 0 |});
     ECallback (ShutdownCallback 2 None)].
Proof.
  destruct (unregistrations_follow_shutdowns fresh_world [] 1 2) as (_ & _ & Hidle).
  apply Hidle; reflexivity.
Defined.

(** C8 on a started server, and on a fresh server whose resolver answers
    at once with no address: the error reply is queued, nothing is called
    until the next tick. *)
Lemma bindAsync_defers_callback_witness :
  started (srv started_world) = true
  ∧ bindAsync (VString "localhost:0") (VServerCredentials false) (VFunction 2)
      started_world
    = Throws (Error "server is already started") started_world
  ∧ user_callbacks
      (log (state_of
              (@bindAsync hasty (VString "nowhere:0") (VServerCredentials false)
                 (VFunction 2) hasty_world))) = []
  ∧ @nextTickQueue hasty
      (state_of
         (@bindAsync hasty (VString "nowhere:0") (VServerCredentials false)
            (VFunction 2) hasty_world))
    = [{| reply_callback := 2;
          reply_error := Some "No addresses resolved for port nowhere:0";
          reply_port := 0 |}].
Proof.
  split; [vm_compute; reflexivity|]. split.
  - apply (bindAsync_defers_callback (VString "localhost:0") (VServerCredentials false)
             (VFunction 2) started_world). vm_compute; reflexivity.
  - split; [|vm_compute; reflexivity].
    destruct (@bindAsync_defers_callback hasty (VString "nowhere:0")
                (VServerCredentials false) (VFunction 2) hasty_world)
      as (_ & Hquiet & _).
    apply (Hquiet (state_of
              (@bindAsync hasty (VString "nowhere:0") (VServerCredentials false)
                 (VFunction 2) hasty_world))).
    reflexivity.
Defined.

(** C10 as stated fails: on a started server a port that is not a string
    gets "server is already started", and a null creds next to a port that
    is not a string gets the error of the port. *)
Lemma bindAsync_validation_has_an_order :
  bindAsync (VNumber 50051) (VServerCredentials false) (VFunction 2) started_world
  = Throws (Error "server is already started") started_world
  ∧ Error "server is already started" ≠ TypeError "port must be a string"
  ∧ bindAsync (VNumber 50051) VNull (VFunction 2) fresh_world
    = Throws (TypeError "port must be a string") fresh_world
  ∧ TypeError "port must be a string"
    ≠ TypeError "creds must be a ServerCredentials object".
Proof.
  split; [reflexivity|]. split; [discriminate|].
  split; [reflexivity|]. discriminate.
Qed.

(** The amended C10 on a fresh server, one call per check. *)
Lemma bindAsync_validates_arguments_witness :
  started (srv fresh_world) = false
  ∧ bindAsync (VNumber 50051) VNull VUndefined fresh_world
    = Throws (TypeError "port must be a string") fresh_world
  ∧ bindAsync (VString "localhost:0") VNull VUndefined fresh_world
    = Throws (TypeError "creds must be a ServerCredentials object") fresh_world
  ∧ bindAsync (VString "localhost:0") (VServerCredentials true) VUndefined fresh_world
    = Throws (TypeError "callback must be a function") fresh_world.
Proof.
  split; [reflexivity|].
  destruct (bindAsync_validates_arguments (VNumber 50051) VNull VUndefined
              fresh_world eq_refl) as (Hport & _ & _).
  destruct (bindAsync_validates_arguments (VString "localhost:0") VNull VUndefined
              fresh_world eq_refl) as (_ & Hcreds & _).
  destruct (bindAsync_validates_arguments (VString "localhost:0")
              (VServerCredentials true) VUndefined fresh_world eq_refl)
    as (_ & _ & Hcallback).
  split; [|split].
  - apply Hport. discriminate.
  - apply (Hcreds "localhost:0"); [reflexivity | discriminate].
  - apply (Hcallback "localhost:0" true); [reflexivity | reflexivity | discriminate].
Defined.

End BindExamples.

(** * Further properties of the handler registry *)

Section RegistryRoundTrips.
Import Registry.

Lemma set_handlers_same s : set_handlers (handlers s) s = s.
Proof. by destruct s. Qed.

Lemma set_handlers_twice h h' s : set_handlers h (set_handlers h' s) = set_handlers h s.
Proof. done. Qed.

(** [register] and [unregister] are inverse on a free path: unregistering
    a path that was just registered answers true and gives back the server
    as it was, and unregistering a path that is not registered answers
    false and changes nothing. *)
Theorem register_unregister_round_trip (p : string) (handler : HandleCall)
    (ser deser : FnId) (ty : string) (s : Server) :
  handlers s !! p = None →
  unregister p (register p handler ser deser ty s).2 = (true, s)
  ∧ unregister p s = (false, s).
Proof.
  intros Hfree. unfold unregister, register. rewrite Hfree.
  destruct s as [l h m st ref ct]. simpl in *. split.
  - rewrite lookup_insert_eq, delete_insert_id by done.
    rewrite bool_decide_eq_true_2 by eauto. done.
  - by rewrite delete_id.
Qed.

Lemma register_unregister_round_trip_witness :
  handlers (new_Server 0) !! "/demo.S/Echo" = None
  ∧ unregister "/demo.S/Echo"
      (register "/demo.S/Echo" (RawFn 7) 1 2 "unary" (new_Server 0)).2
    = (true, new_Server 0).
Proof.
  split; [reflexivity|].
  apply (register_unregister_round_trip "/demo.S/Echo" (RawFn 7) 1 2 "unary"
           (new_Server 0)).
  reflexivity.
Defined.

Lemma addService_forEach_state implementation service :
  ∀ s, state_of (addService_forEach implementation service s)
       = set_handlers
           (handlers (state_of (addService_forEach implementation service s))) s.
Proof.
  induction service as [|[name attrs] rest IH]; intros s; simpl.
  - by rewrite set_handlers_same.
  - rewrite addService_method_unfold.
    destruct (handlers s !! md_path attrs); simpl; [by rewrite set_handlers_same|].
    rewrite IH at 1. done.
Qed.

Lemma addService_forEach_other implementation service :
  ∀ s p, p ∉ service_paths service →
    handlers (state_of (addService_forEach implementation service s)) !! p
    = handlers s !! p.
Proof.
  induction service as [|[name attrs] rest IH]; intros s p Hp; simpl; [done|].
  rewrite addService_method_unfold.
  apply not_elem_of_cons in Hp as [Hne Hp]. simpl in Hne.
  destruct (handlers s !! md_path attrs); simpl; [done|].
  rewrite IH by done. simpl. by rewrite lookup_insert_ne.
Qed.


Lemma removeService_fold service :
  ∀ s,
    fold_left (λ s '(_, attrs), (unregister (md_path attrs) s).2) service s
    = set_handlers
        (handlers
           (fold_left (λ s '(_, attrs), (unregister (md_path attrs) s).2) service s))
        s
    ∧ ∀ p,
        (p ∈ service_paths service →
         handlers
           (fold_left (λ s '(_, attrs), (unregister (md_path attrs) s).2) service s)
         !! p = None)
        ∧ (p ∉ service_paths service →
           handlers
             (fold_left (λ s '(_, attrs), (unregister (md_path attrs) s).2) service s)
           !! p = handlers s !! p).
Proof.
  induction service as [|[name attrs] rest IH]; intros s; cbn [fold_left].
  - split; [by rewrite set_handlers_same|]. intros p. split; [|done].
    intros Hp. by apply elem_of_nil in Hp.
  - destruct (IH (unregister (md_path attrs) s).2) as [Hst Hl].
    set (s' := fold_left _ rest _) in *.
    split; [rewrite Hst at 1; done|].
    intros p. destruct (Hl p) as [Hin Hout]. split.
    + intros [->|Hp]%elem_of_cons; [|by apply Hin].
      destruct (decide (md_path attrs ∈ service_paths rest)) as [Hr|Hr].
      * by apply (proj1 (Hl _)).
      * rewrite (proj2 (Hl _)) by done. simpl. apply lookup_delete_eq.
    + intros [Hne Hp]%not_elem_of_cons. rewrite Hout by done. simpl.
      by rewrite lookup_delete_ne.
Qed.



(** [removeService] undoes a successful [addService]: it gives back the
    server as it was before the definition was added, so the same
    definition can be added again with the same result. *)
Theorem removeService_undoes_addService (service : ServiceDefinition)
    (implementation : UntypedServiceImplementation) (s s' : Server) :
  addService (JsObject service) (JsObject implementation) s = Returns tt s' →
  removeService (JsObject service) s' = Returns tt s
  ∧ addService (JsObject service) (JsObject implementation)
      (state_of (removeService (JsObject service) s'))
    = Returns tt s'.
Proof.
  intros Hadd.
  assert (removeService (JsObject service) s' = Returns tt s) as Hrem.
  { unfold removeService. f_equal.
    destruct (removeService_fold service s') as [Hst Hl].
    unfold addService in Hadd. destruct service as [|m rest]; [done|].
    pose proof (addService_forEach_state implementation (m :: rest) s) as Hs'.
    rewrite Hadd in Hs'. simpl in Hs'.
    set (F := fold_left _ (m :: rest) s') in *.
    assert (handlers F = handlers s) as HF.
    { apply map_eq. intros p.
      destruct (decide (p ∈ service_paths (m :: rest))) as [Hin|Hout].
      - rewrite (proj1 (Hl p) Hin).
        apply list_elem_of_fmap in Hin as ([n a] & -> & Hin).
        symmetry. by eapply addService_forEach_returns.
      - rewrite (proj2 (Hl p) Hout).
        pose proof (addService_forEach_other implementation (m :: rest) s p Hout)
          as Ho.
        by rewrite Hadd in Ho. }
    etransitivity; [exact Hst|]. rewrite HF.
    etransitivity; [|apply set_handlers_same]. by rewrite Hs'. }
  split; [exact Hrem|]. by rewrite Hrem.
Qed.

Lemma removeService_undoes_addService_witness :
  removeService (JsObject echo_service)
    (state_of (addService (JsObject echo_service) (JsObject ∅) (new_Server 0)))
  = Returns tt (new_Server 0).
Proof.
  apply (removeService_undoes_addService echo_service ∅ (new_Server 0)).
  reflexivity.
Defined.

(** [removeService] never throws for an object: it unregisters the paths
    of the definition, whether they were registered or not, and leaves the
    handlers of all other paths, and the rest of the server, as they
    were. *)
Theorem removeService_removes_its_paths (service : ServiceDefinition) (s : Server) :
  ∃ s',
    removeService (JsObject service) s = Returns tt s'
    ∧ s' = set_handlers (handlers s') s
    ∧ ∀ p, (p ∈ service_paths service → handlers s' !! p = None)
           ∧ (p ∉ service_paths service → handlers s' !! p = handlers s !! p).
Proof.
  eexists. split; [reflexivity|]. apply (removeService_fold service s).
Qed.

End RegistryRoundTrips.

(** * Further properties of the dispatch *)

Section DispatchAccounting.
Import Dispatch.

(** The server the ['stream'] listener leaves: the call is counted as
    started, and as failed too when no call stream bound to a handler was
    built. *)
Lemma onStream_state stream headers env s :
  (onStream stream headers env s).1
  = if existsb binds_handler (onStream stream headers env s).2
    then count_started stream s
    else count_failed stream (count_started stream s).
Proof.
  unfold onStream, dispatch_try, dispatch_catch.
  repeat (case_match; simplify_eq; cbn [fst snd existsb binds_handler orb app];
          try done);
    rewrite ?existsb_app; cbn [existsb binds_handler orb]; try done.
Qed.

(** Each stream is counted once as started and at most once as failed by
    the listener: [callsStarted] goes up by one, [callsSucceeded] stays,
    and [callsFailed] goes up by one exactly when the listener built no
    call stream bound to a handler (a call stream with a handler reports
    its own end through [callEnd]).  The stream tracker of a tracked
    session moves the same way, and its message counters stay. *)
Theorem onStream_counts_each_stream_once
    (stream : ServerHttp2Stream) (headers : IncomingHttpHeaders)
    (env : DispatchEnv) (s : Server) :
  let s' := (onStream stream headers env s).1 in
  let failed :=
    if existsb binds_handler (onStream stream headers env s).2 then 0%nat else 1%nat in
  callsStarted (callTracker s') = S (callsStarted (callTracker s))
  ∧ callsSucceeded (callTracker s') = callsSucceeded (callTracker s)
  ∧ callsFailed (callTracker s') = (callsFailed (callTracker s) + failed)%nat
  ∧ ∀ info,
      sessions_get (session stream) (sessions s) = Some info →
      ∃ info',
        sessions_get (session stream) (sessions s') = Some info'
        ∧ callsStarted (streamTracker info') = S (callsStarted (streamTracker info))
        ∧ callsSucceeded (streamTracker info') = callsSucceeded (streamTracker info)
        ∧ callsFailed (streamTracker info')
          = (callsFailed (streamTracker info) + failed)%nat
        ∧ messagesSent info' = messagesSent info
        ∧ messagesReceived info' = messagesReceived info.
Proof.
  intros s' failed. subst s' failed. rewrite onStream_state.
  destruct (count_failed_spec stream (count_started stream s)) as (Hf1 & Hf2 & _).
  destruct (count_started_spec stream s) as (Hs1 & Hs2 & _).
  destruct (existsb binds_handler _).
  - rewrite Hs1. split; [done|]. split; [done|]. split; [simpl; lia|].
    intros info Hinfo. rewrite Hs2, Hinfo. simpl. eexists. split; [done|].
    simpl. repeat split; lia.
  - rewrite Hf1, Hs1. split; [done|]. split; [done|]. split; [simpl; lia|].
    intros info Hinfo. rewrite Hf2, Hs2, Hinfo. simpl. eexists. split; [done|].
    simpl. repeat split; lia.
Qed.

(** A call that is already cancelled reaches no handler: the listener
    runs no registered function and no default handler for it, and neither
    do the continuations of [handleUnary] and [handleServerStreaming]; the
    same holds for these two when no request message arrives. *)
Theorem cancelled_call_reaches_no_handler
    (stream : ServerHttp2Stream) (headers : IncomingHttpHeaders)
    (env : DispatchEnv) (s : Server) (handler : Handler) (received : bool) :
  cancelled env = true ∨ received = false →
  (cancelled env = true →
   existsb is_handler_action (onStream stream headers env s).2 = false)
  ∧ handleUnary_resume (stream_id stream) handler received env = ([], None)
  ∧ handleServerStreaming_resume (stream_id stream) handler received env = ([], None).
Proof.
  intros Hor. split; [|split].
  - intros Hc. unfold onStream, dispatch_try, dispatch_catch, handle_by_type,
      handleUnary, handleServerStreaming, handleClientStreaming,
      handleBidiStreaming, trace.
    rewrite Hc.
    repeat (case_match; simplify_eq; cbn [fst snd app existsb is_handler_action orb];
            try done).
  - unfold handleUnary_resume. destruct Hor as [-> | ->]; [|done].
    by rewrite orb_true_r.
  - unfold handleServerStreaming_resume. destruct Hor as [-> | ->]; [|done].
    by rewrite orb_true_r.
Qed.

Lemma cancelled_call_reaches_no_handler_witness :
  existsb is_handler_action
    (onStream sample_stream (grpc_headers "/demo.S/Chat")
       {| serverAddress := None; constructThrows := None;
          receiveMetadataThrows := None; cancelled := true; userThrows := None |}
       chat_server).2 = false.
Proof.
  destruct (cancelled_call_reaches_no_handler sample_stream
              (grpc_headers "/demo.S/Chat")
              {| serverAddress := None; constructThrows := None;
                 receiveMetadataThrows := None; cancelled := true;
                 userThrows := None |}
              chat_server
              {| func := RawFn 0; serialize := 0; deserialize := 0;
                 type := "unary"; path := "/x" |} true) as [Hno _].
  - by left.
  - by apply Hno.
Defined.

(** A method added by [addService] is dispatched by its shape.  A grpc
    stream for its path gets a call stream bound to the handler that
    [addService] installed, and the handle function of the method's type
    runs.  For a unary method that is [handleUnary] and for a
    server-streaming method [handleServerStreaming]: each asks for the
    request message and is suspended; resumed with a request on a call that
    is not cancelled, the first builds a [ServerUnaryCallImpl] and the
    second a [ServerWritableStreamImpl] and calls the handler with it: the
    user's function when there is one, else the default handler, which
    answers through the unary reply (unary) or the error event
    (server-streaming).  For a client-streaming method [handleClientStreaming]
    builds a [ServerReadableStreamImpl] and for a bidi method
    [handleBidiStreaming] builds a [ServerDuplexStreamImpl]; when the call
    is not cancelled they call the handler at once, the default handler
    answering through the unary reply (client-streaming) or the error
    event (bidi).  The listener never finds the type unknown, and when the
    user's function does not throw it sends no error and counts no
    failure. *)
Theorem added_method_is_dispatched_by_shape
    (service : ServiceDefinition) (implementation : UntypedServiceImplementation)
    (s s' : Server) (name : string) (attrs : MethodDefinition)
    (stream : ServerHttp2Stream) (headers : IncomingHttpHeaders)
    (env : DispatchEnv) (c : string) :
  Registry.addService (JsObject service) (JsObject implementation) s = Returns tt s' →
  (name, attrs) ∈ service →
  headers !! HTTP2_HEADER_CONTENT_TYPE = Some (HString c) →
  String.prefix "application/grpc" c = true →
  headers !! HTTP2_HEADER_PATH = Some (HString (md_path attrs)) →
  constructThrows env = None →
  receiveMetadataThrows env = None →
  userThrows env = None →
  let sid := stream_id stream in
  let handler := installed_handler implementation name attrs in
  let response := getUnimplementedStatusResponse name in
  (onStream stream headers env s').2
  = [trace s' ("Received call to method " +:+ md_path attrs +:+ " at address "
               +:+ serverAddressString (serverAddress env));
     ENewCallStream sid (Some handler);
     EReceiveMetadata sid]
    ++ match requestStream attrs, responseStream attrs with
       | false, false => [EReceiveUnaryMessage sid; EAwait sid HandleUnary]
       | false, true => [EReceiveUnaryMessage sid; EAwait sid HandleServerStreaming]
       | true, false =>
           ENewServerCall sid ServerReadableStreamImpl
           :: (if cancelled env then []
               else
                 EStreamOnError sid
                 :: match Registry.select_implFn implementation name attrs with
                    | Some f => [EUserHandler sid f]
                    | None => [EStreamDestroy sid;
                               ESendUnaryMessage sid (Some response)]
                    end)
       | true, true =>
           ENewServerCall sid ServerDuplexStreamImpl
           :: (if cancelled env then []
               else
                 match Registry.select_implFn implementation name attrs with
                 | Some f => [EUserHandler sid f]
                 | None => [EEmitError sid response]
                 end)
       end
  ∧ (requestStream attrs = false → cancelled env = false →
     resume (if responseStream attrs then HandleServerStreaming else HandleUnary)
       sid handler true env
     = (ENewServerCall sid
          (if responseStream attrs then ServerWritableStreamImpl
           else ServerUnaryCallImpl)
        :: match Registry.select_implFn implementation name attrs with
           | Some f => [EUserHandler sid f]
           | None =>
               if responseStream attrs then [EEmitError sid response]
               else [ESendUnaryMessage sid (Some response)]
           end,
        None))
  ∧ callsFailed (callTracker (onStream stream headers env s').1)
    = callsFailed (callTracker s').
Proof.
  intros Hadd Hin Hc Hprefix Hpath Hctor Hmeta Huser sid handler response.
  pose proof (accepts_grpc_content_type headers c Hc Hprefix) as Hacc.
  unfold Registry.addService in Hadd. destruct service as [|m rest]; [done|].
  destruct (addService_forEach_returns _ _ _ _ Hadd name attrs Hin) as [_ Hh].
  pose proof (onStream_counts_each_stream_once stream headers env s') as Hcount.
  assert (∃ tail,
            (onStream stream headers env s').2
            = [trace s' ("Received call to method " +:+ md_path attrs
                         +:+ " at address "
                         +:+ serverAddressString (serverAddress env));
               ENewCallStream sid (Some handler);
               EReceiveMetadata sid] ++ tail
            ∧ tail
              = match requestStream attrs, responseStream attrs with
                | false, false => [EReceiveUnaryMessage sid; EAwait sid HandleUnary]
                | false, true =>
                    [EReceiveUnaryMessage sid; EAwait sid HandleServerStreaming]
                | true, false =>
                    ENewServerCall sid ServerReadableStreamImpl
                    :: (if cancelled env then []
                        else
                          EStreamOnError sid
                          :: match Registry.select_implFn implementation name attrs with
                             | Some f => [EUserHandler sid f]
                             | None => [EStreamDestroy sid;
                                        ESendUnaryMessage sid (Some response)]
                             end)
                | true, true =>
                    ENewServerCall sid ServerDuplexStreamImpl
                    :: (if cancelled env then []
                        else
                          match Registry.select_implFn implementation name attrs with
                          | Some f => [EUserHandler sid f]
                          | None => [EEmitError sid response]
                          end)
                end) as (tail & Heffects & Htail).
  { eexists. split; [|reflexivity].
    unfold onStream. rewrite Hacc. unfold dispatch_try.
    rewrite handlers_get_count_started, Hpath. cbn [handlers_get js_string].
    rewrite Hh, Hctor, Hmeta.
    unfold handle_by_type, handler, installed_handler, Registry.methodType_of,
      handleClientStreaming, handleBidiStreaming, handleUnary,
      handleServerStreaming, call_func, getDefaultHandler, runDefaultHandler.
    cbn [type func].
    destruct (requestStream attrs), (responseStream attrs), (cancelled env),
      (Registry.select_implFn implementation name attrs);
      cbn; rewrite ?Huser; reflexivity. }
  split; [by rewrite Heffects, Htail|]. split.
  - intros Hunary Hlive.
    unfold resume, handleUnary_resume, handleServerStreaming_resume, call_func,
      handler, installed_handler, Registry.methodType_of, getDefaultHandler,
      runDefaultHandler.
    rewrite Hunary, Hlive. cbn [func negb orb].
    destruct (responseStream attrs),
      (Registry.select_implFn implementation name attrs);
      cbn; rewrite ?Huser; reflexivity.
  - destruct Hcount as (_ & _ & Hfailed & _). rewrite Hfailed, Heffects.
    rewrite existsb_app. unfold trace. cbn [existsb binds_handler orb]. lia.
Qed.

(** The unary method [Echo] implemented by function 7 of an object
    literal: the listener leaves [handleUnary] suspended, which calls the
    function with a [ServerUnaryCallImpl] once the request is there. *)
Lemma added_method_is_dispatched_by_shape_witness :
  (onStream sample_stream (grpc_headers "/demo.S/Echo") quiet_env
     (state_of (Registry.addService (JsObject echo_service)
                  (JsObject (object_literal {[ "Echo" := 7%nat ]}))
                  (new_Server 0)))).2
  = [ETrace "(0) Received call to method /demo.S/Echo at address 127.0.0.1:50051";
     ENewCallStream 1
       (Some (installed_handler (object_literal {[ "Echo" := 7%nat ]})
                "Echo" echo_method));
     EReceiveMetadata 1;
     EReceiveUnaryMessage 1;
     EAwait 1 HandleUnary]
  ∧ resume HandleUnary 1
      (installed_handler (object_literal {[ "Echo" := 7%nat ]}) "Echo" echo_method)
      true quiet_env
    = ([ENewServerCall 1 ServerUnaryCallImpl; EUserHandler 1 7], None).
Proof.
  destruct (added_method_is_dispatched_by_shape echo_service
              (object_literal {[ "Echo" := 7%nat ]}) (new_Server 0)
              (state_of (Registry.addService (JsObject echo_service)
                           (JsObject (object_literal {[ "Echo" := 7%nat ]}))
                           (new_Server 0)))
              "Echo" echo_method sample_stream (grpc_headers "/demo.S/Echo")
              quiet_env "application/grpc+proto") as (Heffects & Hresume & _).
  - vm_compute; reflexivity.
  - apply list_elem_of_here.
  - vm_compute; reflexivity.
  - vm_compute; reflexivity.
  - vm_compute; reflexivity.
  - reflexivity.
  - reflexivity.
  - reflexivity.
  - split.
    + rewrite Heffects. vm_compute. reflexivity.
    + exact (Hresume eq_refl eq_refl).
Defined.

End DispatchAccounting.

(** * Further properties of the bind engine *)

Section BindAccounting.
Context `{P : Platform}.

Lemma set_http2ServerList_same s : set_http2ServerList (http2ServerList s) s = s.
Proof. by destruct s. Qed.

Lemma binds_refl (w : World) : binds 0 w w.
Proof.
  exists [], []. rewrite !app_nil_r, set_http2ServerList_same. done.
Qed.

Lemma binds_trans n m (w1 w2 w3 : World) :
  binds n w1 w2 → binds m w2 w3 → binds (n + m) w1 w3.
Proof.
  intros (es1 & new1 & L1 & Q1 & S1 & N1 & A1 & R1 & B1 & T1 & C1 & D1)
         (es2 & new2 & L2 & Q2 & S2 & N2 & A2 & R2 & B2 & T2 & C2 & D2).
  exists (es1 ++ es2), (new1 ++ new2).
  rewrite L2, L1, S2, S1, !forallb_app, Q1, Q2, A1, A2, length_app, N1, N2.
  simpl. rewrite !app_assoc. repeat split; congruence.
Qed.

(** A world that differs from [w] by its log, its operating system and
    its id counter only. *)
Lemma binds_quiet es (w w' : World) :
  log w' = log w ++ es → forallb is_listen_effect es = true →
  srv w' = srv w → resolverListeners w' = resolverListeners w →
  bindResultPromises w' = bindResultPromises w →
  nextTickQueue w' = nextTickQueue w → closeListeners w' = closeListeners w →
  shutdowns w' = shutdowns w → binds 0 w w'.
Proof.
  intros Hlog HQ Hsrv. intros. exists es, [].
  rewrite app_nil_r, set_http2ServerList_same. done.
Qed.

Lemma bound_binds h2 a (w : World) : binds 1 w (bound h2 a w).
Proof.
  unfold bound, registerChannelzSocket, wtrace, trace.
  eexists _, [_]. simpl. rewrite <- !app_assoc.
  split; [reflexivity|]. done.
Qed.

Lemma attempt_binds secure portNum address (w : World) :
  binds 0 w (attempt secure portNum address w).2.
Proof.
  unfold attempt, setupServer, wtrace, trace. simpl.
  destruct (listen _ _) as [o outcome]. simpl.
  eapply binds_quiet; [simpl; rewrite <- !app_assoc; reflexivity | done ..].
Qed.

Lemma attempts_binds secure portNum addressList :
  ∀ w : World,
    binds 0 w (attempts secure portNum addressList w).2
    ∧ length (attempts secure portNum addressList w).1 = length addressList.
Proof.
  induction addressList as [|a l IH]; intros w; simpl; [split; [apply binds_refl|done]|].
  pose proof (attempt_binds secure portNum a w) as Ha.
  destruct (attempt secure portNum a w) as [x w1].
  destruct (IH w1) as [Hb Hlen]. destruct (attempts secure portNum l w1) as [xs w2].
  simpl in *. split; [|by rewrite Hlen].
  apply (binds_trans 0 0 w w1 w2); done.
Qed.

Lemma settle_attempts_binds portNum l :
  ∀ w : World,
    binds (successes (resolved (settle_attempts portNum l w).1)) w
      (settle_attempts portNum l w).2
    ∧ length (settle_attempts portNum l w).1 = length l.
Proof.
  induction l as [|a l IH]; intros w; simpl; [split; [apply binds_refl|done]|].
  assert (binds (successes (resolved [(settle_attempt portNum a w).1])) w
            (settle_attempt portNum a w).2) as Hone.
  { unfold settle_attempt, wtrace, trace.
    destruct (at_outcome a); [| |destruct (at_addr a)]; simpl;
      try apply bound_binds; try apply binds_refl.
    eapply binds_quiet; [simpl; reflexivity | done ..]. }
  destruct (settle_attempt portNum a w) as [r w1].
  destruct (IH w1) as [Hb Hlen]. destruct (settle_attempts portNum l w1) as [rs w2].
  unfold successes, resolved in *. simpl in *. split; [|by rewrite Hlen].
  destruct r as [e|[q|msg]]; simpl in *.
  - apply (binds_trans 0 _ w w1 w2); done.
  - apply (binds_trans 1 _ w w1 w2); done.
  - apply (binds_trans 0 _ w w1 w2); done.
Qed.

Lemma resolved_length {E A : Type} (l : list (E + A)) :
  (length (resolved l) ≤ length l)%nat.
Proof.
  unfold resolved. induction l as [|[e|a] l IH]; cbn; lia.
Qed.

Lemma Promise_all_inr {E A : Type} (l : list (E + A)) values :
  Promise_all l = inr values → resolved l = values.
Proof.
  revert values. induction l as [|[e|a] l IH]; intros values; simpl.
  - by intros [= <-].
  - done.
  - destruct (Promise_all l) as [e|vs]; [done|]. intros [= <-].
    unfold resolved in *. cbn. by rewrite (IH vs eq_refl).
Qed.

Lemma Promise_all_inl {E A : Type} (l : list (E + A)) e :
  Promise_all l = inl e → inl e ∈ l.
Proof.
  induction l as [|[e'|a] l IH]; simpl; [done| |].
  - intros [= ->]. apply list_elem_of_here.
  - destruct (Promise_all l) as [e'|vs]; [|done]. intros [= ->].
    apply list_elem_of_further. by apply IH.
Qed.

Lemma successes_le results : (successes results ≤ length results)%nat.
Proof. unfold successes. apply List.filter_length_le. Qed.

(** The loop over the results: it counts the numbers, and it throws
    exactly when one of them is not [portNum]. *)
Lemma tally_spec results portNum :
  ∀ n,
    match tally results portNum n with
    | Some m =>
        m = (n + successes results)%nat
        ∧ ∀ q, PortNumber q ∈ results → q = portNum
    | None => ∃ q, PortNumber q ∈ results ∧ q ≠ portNum
    end.
Proof.
  induction results as [|[q|msg] rs IH]; intros n; simpl.
  - split; [unfold successes; simpl; lia|]. intros q Hq. by apply elem_of_nil in Hq.
  - case_bool_decide as Hq.
    + specialize (IH (S n)). destruct (tally rs portNum (S n)) as [m|].
      * destruct IH as [-> Hall]. split; [unfold successes; simpl; lia|].
        intros q' [[= ->]|Hin]%elem_of_cons; [done|by apply Hall].
      * destruct IH as (q' & Hin & Hne). exists q'. split; [|done].
        by apply list_elem_of_further.
    + exists q. split; [apply list_elem_of_here|done].
  - specialize (IH n). destruct (tally rs portNum n) as [m|].
    + destruct IH as [-> Hall]. split; [done|].
      intros q' [[=]|Hin]%elem_of_cons. by apply Hall.
    + destruct IH as (q' & Hin & Hne). exists q'. split; [|done].
      by apply list_elem_of_further.
Qed.

Lemma bindSpecificPort_binds secure addressList portNum previousCount (w : World) :
  ∃ k,
    binds k w (bindSpecificPort secure addressList portNum previousCount w).2
    ∧ (k ≤ length addressList)%nat
    ∧ ∀ r, (bindSpecificPort secure addressList portNum previousCount w).1
           = Fulfilled r →
           br_port r = portNum ∧ count r = (k + previousCount)%nat.
Proof.
  unfold bindSpecificPort. destruct addressList as [|a l].
  - exists 0%nat. split; [apply binds_refl|]. split; [done|].
    simpl. intros r [= <-]. done.
  - destruct (attempts_binds secure portNum (a :: l) w) as [Hatt Hlen].
    destruct (attempts secure portNum (a :: l) w) as [pending w1].
    destruct (settle_attempts_binds portNum pending w1) as [Hset Hlen2].
    pose proof (successes_le (resolved (settle_attempts portNum pending w1).1)) as Hle.
    pose proof (resolved_length (settle_attempts portNum pending w1).1) as Hle2.
    pose proof (Promise_all_inr (settle_attempts portNum pending w1).1) as Hall.
    destruct (settle_attempts portNum pending w1) as [settled w2].
    simpl in *. exists (successes (resolved settled)).
    split; [|split; [lia|]].
    + destruct (Promise_all settled) as [e|results];
        [|destruct (tally results portNum 0)]; simpl;
        apply (binds_trans 0 _ w w1 w2); done.
    + destruct (Promise_all settled) as [e|results]; [done|].
      rewrite (Hall results eq_refl).
      pose proof (tally_spec results portNum 0) as Ht.
      destruct (tally results portNum 0) as [n|]; simpl; [|done].
      intros r [= <-]. simpl. destruct Ht as [-> _]. split; [done|lia].
Qed.

Lemma bindWildcardPort_binds secure addressList :
  ∀ w : World,
    ∃ k,
      binds k w (bindWildcardPort secure addressList w).2
      ∧ (k ≤ length addressList)%nat
      ∧ ∀ r, (bindWildcardPort secure addressList w).1 = Fulfilled r → count r = k.
Proof.
  induction addressList as [|a l IH]; intros w; simpl.
  - exists 0%nat. split; [apply binds_refl|]. split; [done|]. by intros r [= <-].
  - destruct (listen (os w) a) as [o [e|message|boundHost boundPort]].
    + exists 0%nat. split; [|split; [lia|done]].
      eapply binds_quiet; [simpl; rewrite <- !app_assoc; reflexivity | done ..].
    + match goal with
      | |- context [bindWildcardPort secure l ?w1] =>
          destruct (IH w1) as (k & Hb & Hk & Hr);
          assert (binds 0 w w1) as H0
            by (eapply binds_quiet;
                [simpl; rewrite <- !app_assoc; reflexivity | done ..])
      end.
      exists k. split; [apply (binds_trans 0 k _ _ _ H0 Hb)|]. split; [lia|done].
    + destruct a as [host port|path].
      * match goal with
        | |- context [bindSpecificPort secure l boundPort 1 (bound ?h ?b ?w1)] =>
            destruct (bindSpecificPort_binds secure l boundPort 1 (bound h b w1))
              as (k & Hb & Hk & Hr);
            pose proof (bound_binds h b w1) as H1;
            assert (binds 0 w w1) as H0
              by (eapply binds_quiet;
                [simpl; rewrite <- !app_assoc; reflexivity | done ..])
        end.
        exists (0 + (1 + k))%nat. split.
        -- eapply binds_trans; [exact H0|]. eapply binds_trans; eauto.
        -- split; [simpl; lia|]. intros r Hfull. destruct (Hr r Hfull) as [_ ->].
           simpl. lia.
      * exists 0%nat. split; [|split; [lia|done]].
        eapply binds_quiet; [simpl; rewrite <- !app_assoc; reflexivity | done ..].
Qed.

Lemma bindResultPromise_binds secure addressList (w : World) :
  ∃ k,
    binds k w (bindResultPromise secure addressList w).2
    ∧ (k ≤ length addressList)%nat
    ∧ ∀ r, (bindResultPromise secure addressList w).1 = Fulfilled r → count r = k.
Proof.
  unfold bindResultPromise.
  destruct addressList as [|[host port|path] l].
  - destruct (bindSpecificPort_binds secure [] 1 0 w) as (k & Hb & Hk & Hr).
    exists k. split; [done|]. split; [done|]. intros r Hf.
    destruct (Hr r Hf) as [_ ->]. lia.
  - case_bool_decide.
    + apply bindWildcardPort_binds.
    + destruct (bindSpecificPort_binds secure (TcpAddress host port :: l) port 0 w)
        as (k & Hb & Hk & Hr).
      exists k. split; [done|]. split; [done|]. intros r Hf.
      destruct (Hr r Hf) as [_ ->]. lia.
  - destruct (bindSpecificPort_binds secure (IpcAddress path :: l) 1 0 w)
      as (k & Hb & Hk & Hr).
    exists k. split; [done|]. split; [done|]. intros r Hf.
    destruct (Hr r Hf) as [_ ->]. lia.
Qed.


Lemma attempts_outcomes secure portNum addressList :
  ∀ w : World,
    Forall (λ a, (∃ o, (listen o (at_addr a)).2 = at_outcome a)
                 ∧ (∀ host p, at_addr a = TcpAddress host p → p = portNum)
                 ∧ at_addr a = retarget portNum (at_address a)
                 ∧ at_address a ∈ addressList)
      (attempts secure portNum addressList w).1.
Proof.
  induction addressList as [|a l IH]; intros w; simpl; [constructor|].
  unfold attempt at 1. unfold setupServer. simpl.
  destruct (listen _ (retarget portNum a)) as [o outcome] eqn:Hl. simpl.
  match goal with
  | |- context [attempts secure portNum l ?w1] =>
      specialize (IH w1); destruct (attempts secure portNum l w1) as [xs w2]
  end.
  simpl in *. constructor.
  - simpl. split; [eexists; by rewrite Hl|]. split.
    + intros host p. destruct a; simpl; [|done]. by intros [= _ ->].
    + split; [done|apply list_elem_of_here].
  - eapply Forall_impl; [exact IH|]. simpl.
    intros x (H1 & H2 & H3 & H4). repeat split; try done.
    by apply list_elem_of_further.
Qed.

Lemma settle_attempts_ports portNum pending :
  binds_requested_port → portNum ≠ 0 →
  Forall (λ a, (∃ o, (listen o (at_addr a)).2 = at_outcome a)
               ∧ ∀ host p, at_addr a = TcpAddress host p → p = portNum) pending →
  ∀ (w : World) q,
    inr (PortNumber q) ∈ (settle_attempts portNum pending w).1 → q = portNum.
Proof.
  intros Hos Hport. induction 1 as [|a l [[o Hout] Haddr] _ IH]; intros w q; simpl.
  - intros Hq. by apply elem_of_nil in Hq.
  - assert (∀ q', (settle_attempt portNum a w).1 = inr (PortNumber q') → q' = portNum)
      as Hone.
    { unfold settle_attempt. rewrite <- Hout.
      destruct (listen o (at_addr a)) as [o' [e|message|boundHost boundPort]] eqn:Hl;
        simpl; [done|done|].
      destruct (at_addr a) as [host p|path] eqn:Ha; simpl; intros q' [= <-]; [|done].
      rewrite (Haddr host p eq_refl) in Hl.
      by apply Hos in Hl as [_ ->]. }
    destruct (settle_attempt portNum a w) as [r w1].
    specialize (IH w1 q). destruct (settle_attempts portNum l w1) as [rs w2].
    simpl in *. intros [Heq|Hin]%elem_of_cons; [by apply Hone|by apply IH].
Qed.

Lemma settle_attempts_throws portNum pending e :
  ∀ w : World,
    inl e ∈ (settle_attempts portNum pending w).1 →
    ∃ a, a ∈ pending ∧ at_outcome a = ListenThrows e.
Proof.
  induction pending as [|a l IH]; intros w; simpl.
  - intros He. by apply elem_of_nil in He.
  - assert ((settle_attempt portNum a w).1 = inl e → at_outcome a = ListenThrows e)
      as Hone.
    { unfold settle_attempt.
      destruct (at_outcome a) as [e'|message|boundHost boundPort]; simpl;
        [by intros [= ->]|done|by destruct (at_addr a)]. }
    destruct (settle_attempt portNum a w) as [r w1].
    specialize (IH w1). destruct (settle_attempts portNum l w1) as [rs w2].
    simpl in *. intros [Heq|Hin]%elem_of_cons.
    + exists a. split; [apply list_elem_of_here|by apply Hone].
    + destruct (IH Hin) as (x & Hx & Hthrows). exists x.
      split; [by apply list_elem_of_further|done].
Qed.

Lemma elem_of_resolved {E A : Type} (l : list (E + A)) x :
  x ∈ resolved l → inr x ∈ l.
Proof.
  unfold resolved. intros (y & Hy & Hsome)%list_elem_of_omap.
  destruct y as [e|a]; [done|]. by injection Hsome as ->.
Qed.

(** [bindSpecificPort] on a port other than 0: a rejection is what one of
    its [listen] calls threw. *)
Lemma bindSpecificPort_rejected secure addressList portNum previousCount
    (w : World) e :
  binds_requested_port → portNum ≠ 0 →
  (bindSpecificPort secure addressList portNum previousCount w).1 = Rejected e →
  ∃ o address,
    address ∈ addressList
    ∧ (listen o (retarget portNum address)).2 = ListenThrows e.
Proof.
  intros Hos Hport. unfold bindSpecificPort. destruct addressList as [|a l]; [done|].
  pose proof (attempts_outcomes secure portNum (a :: l) w) as Hatt.
  destruct (attempts secure portNum (a :: l) w) as [pending w1].
  assert (Forall (λ a, (∃ o, (listen o (at_addr a)).2 = at_outcome a)
                       ∧ ∀ host p, at_addr a = TcpAddress host p → p = portNum)
            pending) as Hatt'.
  { eapply Forall_impl; [exact Hatt|]. simpl. by intros x (H1 & H2 & _). }
  pose proof (settle_attempts_ports portNum pending Hos Hport Hatt' w1) as Hports.
  pose proof (settle_attempts_throws portNum pending e w1) as Hthrows.
  pose proof (Promise_all_inl (settle_attempts portNum pending w1).1 e) as Hfirst.
  pose proof (Promise_all_inr (settle_attempts portNum pending w1).1) as Hall.
  destruct (settle_attempts portNum pending w1) as [settled w2]. simpl in *.
  destruct (Promise_all settled) as [e'|results].
  - simpl. intros [= ->].
    destruct (Hthrows (Hfirst eq_refl)) as (x & Hx & Hout).
    rewrite Forall_forall in Hatt.
    destruct (Hatt x Hx) as ([o Ho] & _ & Haddr & Hin).
    exists o, (at_address x). split; [done|]. by rewrite <- Haddr, Ho.
  - pose proof (tally_spec results portNum 0) as Ht.
    destruct (tally results portNum 0); simpl; [done|].
    destruct Ht as (q & Hin & Hne).
    rewrite <- (Hall results eq_refl) in Hin.
    by destruct (Hne (Hports q (elem_of_resolved _ _ Hin))).
Qed.

(** On an operating system that binds the port it is asked for (and a
    port other than 0 when asked for port 0), the bind promise is rejected
    only with what a [listen] call threw, on one of the resolved addresses
    moved to some port: the error "multiple port numbers added from single
    address" cannot occur, and when no [listen] call throws the promise is
    fulfilled or, for a bound path read as an address, ill-typed. *)
Theorem bind_rejects_only_when_listen_throws (secure : bool)
    (addressList : list SubchannelAddress) (w : World) (e : JsError) :
  binds_requested_port →
  (bindResultPromise secure addressList w).1 = Rejected e →
  ∃ o address p,
    address ∈ addressList
    ∧ (listen o (retarget p address)).2 = ListenThrows e.
Proof.
  intros Hos. unfold bindResultPromise.
  assert (∀ l portNum previousCount (w' : World),
            portNum ≠ 0 →
            (bindSpecificPort secure l portNum previousCount w').1 = Rejected e →
            ∃ o address p,
              address ∈ l ∧ (listen o (retarget p address)).2 = ListenThrows e)
    as Hspecific.
  { intros l portNum previousCount w' Hport Hrej.
    destruct (bindSpecificPort_rejected secure l portNum previousCount w' e
                Hos Hport Hrej) as (o & address & Hin & Hthrows).
    by exists o, address, portNum. }
  destruct addressList as [|[host port|path] l].
  - done.
  - case_bool_decide as Hport; [|by apply Hspecific].
    generalize (TcpAddress host port :: l). clear host port Hport l.
    intros l. revert w. induction l as [|a l IH]; intros w; simpl; [done|].
    destruct (listen (os w) a) as [o [e'|message|boundHost boundPort]] eqn:Hl.
    + simpl. intros [= ->]. exists (os w), a.
      exists (match a with TcpAddress _ port => port | IpcAddress _ => 0 end).
      split; [apply list_elem_of_here|].
      replace (retarget _ a) with a by (by destruct a). by rewrite Hl.
    + intros Hrej. destruct (IH _ Hrej) as (o' & address & p & Hin & Hthrows).
      exists o', address, p. split; [by apply list_elem_of_further|done].
    + destruct a as [host port|path]; [|done].
      intros Hrej.
      destruct (Hspecific l boundPort 1%nat _ (proj1 (Hos _ _ _ _ _ _ Hl)) Hrej)
        as (o' & address & p & Hin & Hthrows).
      exists o', address, p. split; [by apply list_elem_of_further|done].
  - by apply Hspecific.
Qed.

(** Only the first resolution result counts: once
    [onSuccessfulResolution] has run, running it again, with any address
    list, changes nothing. *)
Theorem resolution_is_handled_once (i : nat)
    (first later : list SubchannelAddress) (w : World) :
  onSuccessfulResolution i later (onSuccessfulResolution i first w)
  = onSuccessfulResolution i first w.
Proof.
  assert (∀ w' : World,
            (∀ l, resolverListeners w' !! i = Some l → armed l = false) →
            onSuccessfulResolution i later w' = w') as Hidle.
  { intros w' Hoff. unfold onSuccessfulResolution.
    destruct (resolverListeners w' !! i) as [l|] eqn:Hl; [|done].
    by rewrite (Hoff l eq_refl). }
  apply Hidle. unfold onSuccessfulResolution.
  destruct (resolverListeners w !! i) as [l|] eqn:Hl.
  - destruct (armed l) eqn:Harmed.
    + assert (i < length (resolverListeners w))%nat as Hi
        by (eapply lookup_lt_Some; eauto).
      destruct first as [|a rest].
      * simpl. intros l'. rewrite list_lookup_insert_eq by done. by intros [= <-].
      * match goal with
        | |- context [bindResultPromise ?b ?al ?w1] =>
            destruct (bindResultPromise_binds b al w1)
              as (k & (es & new & _ & _ & _ & _ & _ & Hres & _) & _);
            destruct (bindResultPromise b al w1) as [outcome w2]
        end.
        simpl in *. intros l'. rewrite Hres, list_lookup_insert_eq by done.
        by intros [= <-].
    + intros l'. rewrite Hl. by intros [= <-].
  - intros l'. by rewrite Hl.
Qed.

End BindAccounting.

Section BindAccountingExamples.
#[local] Existing Instance lan.

Lemma lan_binds_requested_port : binds_requested_port.
Proof.
  intros o host p o' boundHost q. simpl. unfold sample_listen.
  repeat case_bool_decide; intros [= <- <- <-]; try done.
  subst p. split; [lia|done].
Qed.

(** On the sample machine a bind of port 70000 is rejected, with what
    [listen] threw for it. *)
Lemma bind_rejects_only_when_listen_throws_witness :
  binds_requested_port
  ∧ (bindResultPromise false [TcpAddress "127.0.0.1" 70000] fresh_world).1
    = Rejected (RangeError "options.port should be >= 0 and < 65536")
  ∧ ∃ o address p,
      address ∈ [TcpAddress "127.0.0.1" 70000]
      ∧ (sample_listen o (retarget p address)).2
        = ListenThrows (RangeError "options.port should be >= 0 and < 65536").
Proof.
  assert ((bindResultPromise false [TcpAddress "127.0.0.1" 70000] fresh_world).1
          = Rejected (RangeError "options.port should be >= 0 and < 65536"))
    as Hrejected by (vm_compute; reflexivity).
  split; [exact lan_binds_requested_port|]. split; [exact Hrejected|].
  exact (bind_rejects_only_when_listen_throws false [TcpAddress "127.0.0.1" 70000]
           fresh_world _ lan_binds_requested_port Hrejected).
Defined.

End BindAccountingExamples.

(** * Further properties of the lifecycle *)

Section LifecycleRules.
Context `{P : Platform}.

Lemma nothing_listening_forallb (l : list ListenerEntry) :
  List.filter (λ e, listening (server e)) l = [] ↔
  forallb (λ e, negb (listening (server e))) l = true.
Proof.
  induction l as [|e l IH]; simpl; [done|].
  destruct (listening (server e)); simpl; [split; discriminate|exact IH].
Qed.


(** A server that was shut down cannot be started: right after
    [tryShutdown] or [forceShutdown] no server of the list is listening,
    [started] is false, and [start] throws "server must be bound in order
    to start". *)
Theorem no_start_after_shutdown (callback : FnId) (w : World) :
  started (srv (tryShutdown callback w)) = false
  ∧ start (tryShutdown callback w)
    = Throws (Error "server must be bound in order to start") (tryShutdown callback w)
  ∧ started (srv (forceShutdown w)) = false
  ∧ sessions (srv (forceShutdown w)) = []
  ∧ start (forceShutdown w)
    = Throws (Error "server must be bound in order to start") (forceShutdown w).
Proof.
  assert (∀ w' : World,
            List.filter (λ e, listening (server e)) (http2ServerList (srv w')) = [] →
            start w' = Throws (Error "server must be bound in order to start") w')
    as Hstart.
  { intros w' Hnil%nothing_listening_forallb. unfold start.
    by rewrite Hnil, orb_true_r. }
  destruct (tryShutdown_leaves_nothing_open callback w) as (Hl & _ & _).
  split; [|split; [by apply Hstart|]].
  { unfold tryShutdown, close_servers, wrappedCallback. simpl.
    by case_bool_decide. }
  split; [done|]. split; [done|]. apply Hstart.
  unfold forceShutdown, close_servers. simpl. apply filter_closed_entry.
Qed.

(** A session is accepted only while the server is started.  On a server
    that is not started, and so right after [tryShutdown] or
    [forceShutdown], the ['session'] listener destroys a new session and
    registers nothing: the server object, the waiting ['close'] listeners
    and the id counter stay as they are. *)
Theorem session_refused_unless_started (session : nat)
    (remoteAddress : option string) (callback : FnId) (w : World) :
  (started (srv w) = false →
   onSession session remoteAddress w = emit [ESessionDestroy session false] w)
  ∧ onSession session remoteAddress (tryShutdown callback w)
    = emit [ESessionDestroy session false] (tryShutdown callback w)
  ∧ onSession session remoteAddress (forceShutdown w)
    = emit [ESessionDestroy session false] (forceShutdown w).
Proof.
  assert (∀ w' : World, started (srv w') = false →
            onSession session remoteAddress w'
            = emit [ESessionDestroy session false] w') as Hoff.
  { intros w' Hs. unfold onSession. by rewrite Hs. }
  destruct (no_start_after_shutdown callback w) as (Ht & _ & Hf & _).
  split; [apply Hoff|]. split; by apply Hoff.
Qed.

Lemma sessions_get_app_new k (m : list (Http2Session * ChannelzSessionInfo))
    session info :
  sess_id session = k → sessions_get k m = None →
  sessions_get k (m ++ [(session, info)]) = Some info.
Proof.
  intros Hk. unfold sessions_get.
  induction m as [|[se i] m IH]; simpl.
  - by rewrite bool_decide_eq_true_2.
  - destruct (bool_decide (sess_id se = k)); simpl; [done|exact IH].
Qed.

Lemma sessions_get_app_other k (m : list (Http2Session * ChannelzSessionInfo))
    session info :
  sess_id session ≠ k →
  sessions_get k (m ++ [(session, info)]) = sessions_get k m.
Proof.
  intros Hk. unfold sessions_get.
  induction m as [|[se i] m IH]; simpl.
  - by rewrite bool_decide_eq_false_2.
  - destruct (bool_decide (sess_id se = k)); simpl; [done|exact IH].
Qed.

Lemma sessions_get_replace session info m k :
  sessions_get k
    (map (λ e : Http2Session * ChannelzSessionInfo,
            if bool_decide (sess_id e.1 = sess_id session) then (session, info) else e)
       m)
  = if bool_decide (sess_id session = k)
    then (λ _, info) <$> sessions_get k m
    else sessions_get k m.
Proof.
  unfold sessions_get.
  induction m as [|[se i] m IH]; simpl; [by case_bool_decide|].
  destruct (decide (sess_id se = sess_id session)) as [Heq|Hne].
  - rewrite (bool_decide_eq_true_2 _ Heq). simpl.
    destruct (decide (sess_id session = k)) as [Hk|Hk].
    + rewrite !(bool_decide_eq_true_2 _ Hk).
      rewrite bool_decide_eq_true_2 by congruence. done.
    + rewrite !(bool_decide_eq_false_2 _ Hk).
      rewrite bool_decide_eq_false_2 by congruence.
      rewrite IH. by rewrite (bool_decide_eq_false_2 _ Hk).
  - rewrite (bool_decide_eq_false_2 _ Hne). simpl.
    destruct (decide (sess_id se = k)) as [Hk|Hk].
    + rewrite (bool_decide_eq_true_2 _ Hk).
      rewrite bool_decide_eq_false_2 by congruence. done.
    + rewrite (bool_decide_eq_false_2 _ Hk). exact IH.
Qed.

Lemma sessions_get_set session info m k :
  sessions_get k (sessions_set session info m)
  = if bool_decide (sess_id session = k) then Some info else sessions_get k m.
Proof.
  unfold sessions_set. case_bool_decide as Hsome.
  - rewrite sessions_get_replace. case_bool_decide as Hk; [|done].
    subst k. by destruct Hsome as [x ->].
  - case_bool_decide as Hk.
    + apply sessions_get_app_new; [done|]. rewrite <- Hk.
      destruct (sessions_get (sess_id session) m) eqn:Hg; [|done].
      destruct Hsome. eauto.
    + by apply sessions_get_app_other.
Qed.

Lemma sessions_get_delete session m k :
  sessions_get k (sessions_delete session m)
  = if bool_decide (session = k) then None else sessions_get k m.
Proof.
  unfold sessions_get, sessions_delete.
  induction m as [|[se i] m IH]; simpl; [by case_bool_decide|].
  destruct (decide (sess_id se = session)) as [Heq|Hne].
  - rewrite (bool_decide_eq_true_2 _ Heq). simpl. rewrite IH.
    case_bool_decide as Hk; [done|].
    rewrite bool_decide_eq_false_2 by congruence. done.
  - rewrite (bool_decide_eq_false_2 _ Hne). simpl.
    destruct (decide (sess_id se = k)) as [Hk|Hk].
    + rewrite (bool_decide_eq_true_2 _ Hk).
      rewrite bool_decide_eq_false_2 by congruence. done.
    + rewrite (bool_decide_eq_false_2 _ Hk). exact IH.
Qed.

(** A session is tracked from its ['session'] event to its ['close']
    event.  On a started server the ['session'] listener puts the session
    in the map with counters at zero, whatever the map held for it, leaves
    the other sessions alone, and waits for ['close'] with one listener;
    when that listener runs, the session is no longer in the map and the
    other sessions are untouched. *)
Theorem session_tracked_until_close (session : nat)
    (remoteAddress : option string) (w : World) :
  started (srv w) = true →
  ∃ ref,
    sessions_get session (sessions (srv (onSession session remoteAddress w)))
    = Some {| si_ref := ref; streamTracker := new_ChannelzCallTracker;
              messagesSent := 0; messagesReceived := 0 |}
    ∧ (∀ other, other ≠ session →
         sessions_get other (sessions (srv (onSession session remoteAddress w)))
         = sessions_get other (sessions (srv w)))
    ∧ closeListeners (onSession session remoteAddress w)
      = closeListeners w ++ [SessionDropped session ref remoteAddress]
    ∧ ∀ w' : World,
        sessions_get session
          (sessions (srv (fire_close (SessionDropped session ref remoteAddress) w')))
        = None
        ∧ ∀ other, other ≠ session →
            sessions_get other
              (sessions (srv (fire_close (SessionDropped session ref remoteAddress) w')))
            = sessions_get other (sessions (srv w')).
Proof.
  intros Hstarted. unfold onSession. rewrite Hstarted.
  unfold registerChannelzSocket. simpl. eexists.
  split; [|split; [|split; [reflexivity|]]].
  - rewrite sessions_get_set. simpl. by rewrite bool_decide_eq_true_2.
  - intros other Hother. rewrite sessions_get_set. simpl.
    by rewrite bool_decide_eq_false_2.
  - intros w'. split.
    + rewrite sessions_get_delete. by rewrite bool_decide_eq_true_2.
    + intros other Hother. rewrite sessions_get_delete.
      by rewrite bool_decide_eq_false_2.
Qed.

End LifecycleRules.

Section LifecycleRulesExamples.
#[local] Existing Instance lan.

Lemma session_tracked_until_close_witness :
  started (srv started_world) = true
  ∧ ∃ ref,
      closeListeners (onSession 7 (Some "10.1.1.1") started_world)
      = closeListeners started_world ++ [SessionDropped 7 ref (Some "10.1.1.1")].
Proof.
  assert (started (srv started_world) = true) as Hstarted
    by (vm_compute; reflexivity).
  split; [exact Hstarted|].
  destruct (session_tracked_until_close 7 (Some "10.1.1.1") started_world Hstarted)
    as (ref & _ & _ & Hlisteners & _).
  by exists ref.
Defined.

End LifecycleRulesExamples.

Section SnapshotFacts.
Import Dispatch.
Variable stringToSubchannelAddress : string → option Z → SubchannelAddress.

(** The TLS part of a session snapshot.  It is absent exactly for a
    session that is not encrypted.  For an encrypted session at least one
    of the two cipher names is set: the standard name alone when the
    cipher has one that is not empty, the other name alone when it has
    none, and both when the standard name is the empty string.  A
    certificate is reported only when it has a [raw] property. *)
Theorem snapshot_cipher_names (socket : SessionSocket) :
  (tlsInfo_of socket = None ↔ encrypted socket = false)
  ∧ ∀ tls,
      tlsInfo_of socket = Some tls →
      (cipherSuiteStandardName tls = standardName (getCipher socket))
      ∧ (cipherSuiteOtherName tls = None
         ↔ ∃ name, standardName (getCipher socket) = Some name ∧ name ≠ EmptyString)
      ∧ (cipherSuiteOtherName tls ≠ None →
         cipherSuiteOtherName tls = Some (cipher_name (getCipher socket)))
      ∧ (localCertificate tls ≠ None ↔ ∃ raw, getCertificate socket = RawCertificate raw)
      ∧ (remoteCertificate tls ≠ None
         ↔ ∃ raw, getPeerCertificate socket = RawCertificate raw).
Proof.
  unfold tlsInfo_of. destruct (encrypted socket).
  - split; [split; discriminate|]. intros tls [= <-]. simpl.
    split; [done|]. split; [|split; [|split]].
    + destruct (standardName (getCipher socket)) as [name|].
      * case_bool_decide as Hname.
        -- split; [discriminate|]. intros (n & [= <-] & Hn). done.
        -- split; [eauto|done].
      * split; [discriminate|]. intros (n & Hn & _). discriminate.
    + destruct (standardName (getCipher socket)) as [name|]; [|done].
      by case_bool_decide.
    + destruct (getCertificate socket); simpl; split; try done; eauto;
        intros [raw Hraw]; discriminate.
    + destruct (getPeerCertificate socket); simpl; split; try done; eauto;
        intros [raw Hraw]; discriminate.
  - split; [done|]. discriminate.
Qed.

(** A session snapshot is taken from the live counters: for a tracked
    session, the snapshot taken after a ['stream'] event of that session
    shows one more stream started than the snapshot taken before, and one
    more stream failed exactly when the listener built no call stream
    bound to a handler; after [sendMessage] or [receiveMessage] it shows
    one more message sent or received.  For a session that is not in the
    map the getter has no answer. *)
Theorem snapshot_reads_live_counters (socket : SessionSocket)
    (stream : ServerHttp2Stream) (headers : IncomingHttpHeaders)
    (env : DispatchEnv) (s : Server) (before : SocketInfo) :
  session stream = ss_session socket →
  getChannelzSessionInfoGetter stringToSubchannelAddress socket s = Some before →
  (∃ after,
     getChannelzSessionInfoGetter stringToSubchannelAddress socket
       (onStream stream headers env s).1 = Some after
     ∧ streamsStarted after = S (streamsStarted before)
     ∧ streamsFailed after
       = (streamsFailed before
          + if existsb binds_handler (onStream stream headers env s).2
            then 0 else 1)%nat
     ∧ streamsSucceeded after = streamsSucceeded before
     ∧ info_messagesSent after = info_messagesSent before)
  ∧ (∃ after,
       getChannelzSessionInfoGetter stringToSubchannelAddress socket
         (on_sendMessage stream s) = Some after
       ∧ info_messagesSent after = S (info_messagesSent before)
       ∧ info_messagesReceived after = info_messagesReceived before
       ∧ streamsStarted after = streamsStarted before)
  ∧ (∃ after,
       getChannelzSessionInfoGetter stringToSubchannelAddress socket
         (on_receiveMessage stream s) = Some after
       ∧ info_messagesReceived after = S (info_messagesReceived before)
       ∧ info_messagesSent after = info_messagesSent before
       ∧ streamsStarted after = streamsStarted before).
Proof.
  intros Hsess Hbefore. unfold getChannelzSessionInfoGetter in *.
  rewrite <- Hsess in *.
  destruct (sessions_get (session stream) (sessions s)) as [info|] eqn:Hinfo;
    [|discriminate].
  injection Hbefore as <-.
  split; [|split].
  - destruct (onStream_counts_each_stream_once stream headers env s)
      as (_ & _ & _ & Hs).
    destruct (Hs info Hinfo) as (info' & Hget & H1 & H2 & H3 & H4 & H5).
    rewrite Hget. eexists. split; [reflexivity|]. simpl. done.
  - unfold on_sendMessage. simpl. rewrite sessions_get_alter, Hinfo. simpl.
    eexists. split; [reflexivity|]. done.
  - unfold on_receiveMessage. simpl. rewrite sessions_get_alter, Hinfo. simpl.
    eexists. split; [reflexivity|]. done.
Qed.

End SnapshotFacts.

Section SnapshotExamples.

Lemma snapshot_reads_live_counters_witness :
  streamsStarted
    <$> getChannelzSessionInfoGetter (λ a p, TcpAddress a (default 0 p)) peer_socket
          (Dispatch.onStream sample_stream (grpc_headers "/demo.S/Missing")
             quiet_env chat_server).1
  = Some 1%nat.
Proof.
  destruct (snapshot_reads_live_counters (λ a p, TcpAddress a (default 0 p))
              peer_socket sample_stream (grpc_headers "/demo.S/Missing") quiet_env
              chat_server
              {| info_remoteAddress := Some (TcpAddress "10.1.1.1" 40000);
                 info_localAddress := TcpAddress "127.0.0.1" 50051;
                 security := None; remoteName := None;
                 streamsStarted := 0; streamsSucceeded := 0; streamsFailed := 0;
                 info_messagesSent := 0; info_messagesReceived := 0;
                 keepAlivesSent := 0; localFlowControlWindow := Some 65535;
                 remoteFlowControlWindow := None |})
    as ((after & Hafter & Hstarted & _) & _).
  - reflexivity.
  - vm_compute. reflexivity.
  - rewrite Hafter. simpl. by rewrite Hstarted.
Defined.

End SnapshotExamples.

(** * Invariants of a run *)

Section RunInvariants.
Context `{P : Platform}.

Lemma deferredCallback_keeps callback error port (w : World) :
  srv (deferredCallback callback error port w) = srv w
  ∧ closeListeners (deferredCallback callback error port w) = closeListeners w
  ∧ shutdowns (deferredCallback callback error port w) = shutdowns w.
Proof. done. Qed.

Lemma then_reply_keeps p (w : World) :
  srv (then_reply p w) = srv w
  ∧ closeListeners (then_reply p w) = closeListeners w
  ∧ shutdowns (then_reply p w) = shutdowns w.
Proof.
  unfold then_reply, deferredCallback.
  destruct (pt_outcome p); repeat case_bool_decide; done.
Qed.

(** What a resolver result does to the server object and to the waiting
    ['close'] listeners: new listening servers at the end of the list, and
    nothing else. *)
Lemma resolver_event_keeps i e (w : World) :
  (∃ new, srv (resolver_event i w e)
          = set_http2ServerList (http2ServerList (srv w) ++ new) (srv w))
  ∧ closeListeners (resolver_event i w e) = closeListeners w
  ∧ shutdowns (resolver_event i w e) = shutdowns w.
Proof.
  assert (∃ new, srv w = set_http2ServerList (http2ServerList (srv w) ++ new) (srv w))
    as Hsame by (exists []; by rewrite app_nil_r, set_http2ServerList_same).
  destruct e as [addressList|details]; simpl.
  - unfold onSuccessfulResolution.
    destruct (resolverListeners w !! i) as [l|]; [|done].
    destruct (armed l); [|done].
    destruct addressList as [|a rest]; [done|].
    match goal with
    | |- context [bindResultPromise ?b ?al ?w1] =>
        destruct (bindResultPromise_binds b al w1)
          as (k & (es & new & _ & _ & Hsrv & _ & _ & _ & _ & _ & Hcl & Hsh) & _);
        destruct (bindResultPromise b al w1) as [outcome w2]
    end.
    simpl in *. split; [by exists new|]. done.
  - unfold onError. by destruct (resolverListeners w !! i).
Qed.

Lemma resolver_events_keep i results :
  ∀ w : World,
    (∃ new, srv (fold_left (resolver_event i) results w)
            = set_http2ServerList (http2ServerList (srv w) ++ new) (srv w))
    ∧ closeListeners (fold_left (resolver_event i) results w) = closeListeners w
    ∧ shutdowns (fold_left (resolver_event i) results w) = shutdowns w.
Proof.
  induction results as [|e l IH]; intros w; simpl.
  - split; [|done]. exists []. by rewrite app_nil_r, set_http2ServerList_same.
  - destruct (resolver_event_keeps i e w) as ([new1 H1] & C1 & S1).
    destruct (IH (resolver_event i w e)) as ([new2 H2] & C2 & S2).
    split; [|split; congruence].
    exists (new1 ++ new2). rewrite H2, H1. simpl. by rewrite app_assoc.
Qed.

Lemma bindAsync_keeps port creds callback (w : World) :
  (∃ new, srv (state_of (bindAsync port creds callback w))
          = set_http2ServerList (http2ServerList (srv w) ++ new) (srv w))
  ∧ closeListeners (state_of (bindAsync port creds callback w)) = closeListeners w
  ∧ shutdowns (state_of (bindAsync port creds callback w)) = shutdowns w.
Proof.
  assert (∃ new, srv w = set_http2ServerList (http2ServerList (srv w) ++ new) (srv w))
    as Hsame by (exists []; by rewrite app_nil_r, set_http2ServerList_same).
  unfold bindAsync. repeat (case_match; simpl; try done).
  match goal with
  | |- context [fold_left (resolver_event ?i) ?l ?w1] =>
      destruct (resolver_events_keep i l w1) as (Hs & Hc & Hsh)
  end.
  done.
Qed.




(** Steps that leave the waiting ['close'] listeners and the
    [tryShutdown] frames alone. *)
Lemma step_keeps_closures (w : World) (e : Event) :
  match e with
  | CallTryShutdown _ | CallForceShutdown | CloseEvent _ | SessionEvent _ _ => True
  | _ =>
      closeListeners (step w e) = closeListeners w
      ∧ shutdowns (step w e) = shutdowns w
  end.
Proof.
  destruct e; simpl; try done.
  - apply bindAsync_keeps.
  - unfold start. repeat (case_match; simpl; try done).
  - apply resolver_event_keeps.
  - destruct (bindResultPromises w) as [|p l]; [done|].
    by destruct (then_reply_keeps p (set_bindResultPromises l w)) as (_ & -> & ->).
  - by destruct (nextTickQueue w).
  - by destruct (Dispatch.onStream stream headers env (srv w)).
Qed.

Lemma waiting_app k l1 l2 :
  waiting k (l1 ++ l2) = (waiting k l1 + waiting k l2)%nat.
Proof. unfold waiting. by rewrite List.filter_app, length_app. Qed.

Lemma waiting_map {A} k K (f : A → CloseListener) (l : list A) :
  (∀ x, frame_of (f x) = K) →
  waiting k (map f l) = if bool_decide (K = Some k) then length l else 0%nat.
Proof.
  intros Hf. unfold waiting. induction l as [|x l IH]; simpl.
  - by case_bool_decide.
  - rewrite Hf. case_bool_decide; simpl; by rewrite IH.
Qed.

Lemma waiting_delete k (l : list CloseListener) i c :
  l !! i = Some c →
  waiting k l
  = (waiting k (delete i l) + if bool_decide (frame_of c = Some k) then 1 else 0)%nat.
Proof.
  unfold waiting. revert i. induction l as [|x l IH]; intros i Hi; [done|].
  destruct i as [|i]; simpl in *.
  - injection Hi as ->. case_bool_decide; simpl; lia.
  - specialize (IH i Hi).
    destruct (bool_decide (frame_of x = Some k)); simpl; lia.
Qed.

Lemma completed_app l1 l2 : completed (l1 ++ l2) = completed l1 ++ completed l2.
Proof. unfold completed. by rewrite List.filter_app, map_app. Qed.

Lemma completed_insert (l : list TryShutdownFrame) k f f' :
  l !! k = Some f → pendingChecks f ≠ 0 →
  completed (<[k := f']> l)
  ≡ₚ (if bool_decide (pendingChecks f' = 0) then [ts_callback f'] else [])
     ++ completed l.
Proof.
  unfold completed. revert k. induction l as [|x l IH]; intros k Hk Hf; [done|].
  destruct k as [|k]; simpl in *.
  - injection Hk as ->. rewrite (bool_decide_eq_false_2 _ Hf).
    by case_bool_decide.
  - specialize (IH k Hk Hf). destruct (bool_decide (pendingChecks x = 0)); simpl.
    + rewrite IH. by rewrite Permutation_middle.
    + exact IH.
Qed.

Lemma callbacks_insert (l : list TryShutdownFrame) k f n :
  l !! k = Some f →
  map ts_callback (<[k := {| ts_callback := ts_callback f; pendingChecks := n |}]> l)
  = map ts_callback l.
Proof.
  revert k. induction l as [|x l IH]; intros k Hk; [done|].
  destruct k as [|k]; simpl in *.
  - by injection Hk as ->.
  - by rewrite (IH k Hk).
Qed.

(** What [tryShutdown] leaves waiting and what it logs. *)
Lemma tryShutdown_spec callback (w : World) :
  ∃ (closing : list ListenerEntry)
    (open : list (Http2Session * ChannelzSessionInfo)) quiet,
    let K := length (shutdowns w) in
    let pending := Z.of_nat (length closing) + Z.of_nat (length open) in
    closeListeners (tryShutdown callback w)
    = closeListeners w
      ++ map (λ e, TryClosed (le_channelzRef e) K) closing
      ++ map (λ _, SessionClosed K) open
    ∧ shutdowns (tryShutdown callback w)
      = shutdowns w ++ [{| ts_callback := callback; pendingChecks := pending |}]
    ∧ log (tryShutdown callback w)
      = log w ++ quiet
        ++ (if bool_decide (pending = 0)
            then [EUnregisterChannelzRef (OfServer (channelzRef (srv w)));
                  ECallback (ShutdownCallback callback None)]
            else [])
    ∧ forallb is_quiet quiet = true.
Proof.
  exists (List.filter (λ e, listening (server e)) (http2ServerList (srv w))),
    (List.filter (λ e, negb (closed e.1)) (sessions (srv w))),
    (map (λ e, EHttp2ServerClose (h2_id (server e)))
       (List.filter (λ e, listening (server e)) (http2ServerList (srv w)))
     ++ map (λ e : Http2Session * ChannelzSessionInfo, ESessionClose (sess_id e.1))
          (List.filter (λ e, negb (closed e.1)) (sessions (srv w)))).
  unfold tryShutdown, close_servers, wrappedCallback. simpl.
  split; [|split; [|split]].
  - case_bool_decide; simpl; by rewrite <- !app_assoc.
  - by case_bool_decide.
  - case_bool_decide; simpl; by rewrite <- ?app_assoc, ?app_nil_r.
  - rewrite forallb_app, !forallb_map_true; done.
Qed.

Lemma forceShutdown_spec (w : World) :
  ∃ (closing : list ListenerEntry),
    closeListeners (forceShutdown w)
    = closeListeners w ++ map (λ e, ForceClosed (le_channelzRef e)) closing
    ∧ shutdowns (forceShutdown w) = shutdowns w
    ∧ shutdown_callbacks (log (forceShutdown w)) = shutdown_callbacks (log w).
Proof.
  exists (List.filter (λ e, listening (server e)) (http2ServerList (srv w))).
  unfold forceShutdown, close_servers. simpl.
  split; [reflexivity|]. split; [reflexivity|].
  rewrite !shutdown_callbacks_app.
  destruct (quiet_measures (channelzRef (srv w))
              (map (λ e, EHttp2ServerClose (h2_id (server e)))
                 (List.filter (λ e, listening (server e)) (http2ServerList (srv w)))))
    as (_ & _ & -> & _); [by apply forallb_map_true|].
  destruct (quiet_measures (channelzRef (srv w))
              (map (λ e : Http2Session * ChannelzSessionInfo,
                      ESessionDestroy (sess_id e.1) true) (sessions (srv w))))
    as (_ & _ & -> & _); [by apply forallb_map_true|].
  simpl. by rewrite !app_nil_r.
Qed.

Lemma shutdown_inv_same (w w' : World) :
  shutdown_callbacks (log w') = shutdown_callbacks (log w) →
  closeListeners w' = closeListeners w → shutdowns w' = shutdowns w →
  shutdown_inv w → shutdown_inv w'.
Proof. unfold shutdown_inv. by intros -> -> ->. Qed.

Lemma shutdown_inv_more (w w' : World) extra :
  shutdown_callbacks (log w') = shutdown_callbacks (log w) →
  closeListeners w' = closeListeners w ++ extra →
  (∀ k, waiting k extra = 0%nat) →
  shutdowns w' = shutdowns w →
  shutdown_inv w → shutdown_inv w'.
Proof.
  unfold shutdown_inv. intros -> -> Hextra -> (H1 & H2 & H3).
  split; [done|]. split.
  - intros k f Hk. rewrite waiting_app, Hextra, (H2 k f Hk). f_equal. lia.
  - intros k Hk. by rewrite waiting_app, Hextra, (H3 k Hk).
Qed.

Lemma shutdown_inv_waiting (w w' : World) :
  shutdown_callbacks (log w') = shutdown_callbacks (log w) →
  (∀ k, waiting k (closeListeners w') = waiting k (closeListeners w)) →
  shutdowns w' = shutdowns w →
  shutdown_inv w → shutdown_inv w'.
Proof.
  unfold shutdown_inv. intros -> Hw -> (H1 & H2 & H3).
  split; [done|]. split.
  - intros k f Hk. by rewrite Hw, (H2 k f Hk).
  - intros k Hk. by rewrite Hw, (H3 k Hk).
Qed.

Lemma maybeCallback_inv k (w0 w : World) :
  shutdown_callbacks (log w) = shutdown_callbacks (log w0) →
  shutdowns w = shutdowns w0 →
  (∀ k', waiting k' (closeListeners w0)
         = (waiting k' (closeListeners w) + if bool_decide (k' = k) then 1 else 0)%nat) →
  shutdown_inv w0 →
  shutdown_inv (maybeCallback k w)
  ∧ map ts_callback (shutdowns (maybeCallback k w)) = map ts_callback (shutdowns w0).
Proof.
  intros Hlog Hsh Hwait (H1 & H2 & H3).
  assert (k < length (shutdowns w0))%nat as Hk.
  { destruct (decide (k < length (shutdowns w0))%nat) as [|Hge]; [done|].
    specialize (Hwait k). rewrite H3 in Hwait by lia.
    rewrite bool_decide_eq_true_2 in Hwait by done. lia. }
  destruct (lookup_lt_is_Some_2 _ _ Hk) as [f Hf].
  pose proof (H2 k f Hf) as Hpending.
  rewrite (Hwait k), bool_decide_eq_true_2 in Hpending by done.
  unfold maybeCallback, wrappedCallback. rewrite Hsh, Hf.
  assert (pendingChecks f ≠ 0) as Hnz by lia.
  pose proof (completed_insert (shutdowns w0) k f
                {| ts_callback := ts_callback f; pendingChecks := pendingChecks f - 1 |}
                Hf Hnz) as Hcompleted. simpl in Hcompleted.
  assert (∀ w' : World,
    shutdowns w'
    = <[k := {| ts_callback := ts_callback f; pendingChecks := pendingChecks f - 1 |}]>
        (shutdowns w0) →
    closeListeners w' = closeListeners w →
    shutdown_callbacks (log w')
    = shutdown_callbacks (log w0)
      ++ (if bool_decide (pendingChecks f - 1 = 0) then [ts_callback f] else []) →
    shutdown_inv w') as Hinv.
  { intros w' Hs' Hc' Hl'. unfold shutdown_inv. rewrite Hs', Hc', Hl'.
    split; [|split].
    - rewrite Hcompleted, H1. apply Permutation_app_comm.
    - intros k' f'. destruct (decide (k' = k)) as [->|Hne].
      + rewrite list_lookup_insert_eq by done. intros [= <-]. simpl. lia.
      + rewrite list_lookup_insert_ne by done. intros Hf'.
        rewrite (H2 k' f' Hf'), (Hwait k'), bool_decide_eq_false_2 by done.
        f_equal. lia.
    - intros k'. rewrite length_insert. intros Hk'.
      pose proof (Hwait k') as Hw. rewrite (H3 k' Hk') in Hw. lia. }
  case_bool_decide as Hzero; simpl.
  - split; [|by apply callbacks_insert].
    apply Hinv; simpl; [done|done|].
    rewrite shutdown_callbacks_app, Hlog. simpl.
    rewrite ?bool_decide_eq_true_2 by done. done.
  - split; [|by apply callbacks_insert].
    apply Hinv; simpl; [done|done|].
    rewrite Hlog, ?bool_decide_eq_false_2, ?app_nil_r by done. done.
Qed.

(** One step of a server for which [shutdown_inv] holds. *)
Lemma step_shutdown_inv (w : World) (e : Event) :
  shutdown_inv w →
  shutdown_inv (step w e)
  ∧ map ts_callback (shutdowns (step w e))
    = map ts_callback (shutdowns w) ++ tryShutdown_calls [e].
Proof.
  intros Hinv.
  assert (∀ w' : World, grows is_quiet w w' →
            shutdown_callbacks (log w') = shutdown_callbacks (log w)) as Hquiet.
  { intros w' (_ & es & Hlog & _ & _ & Hsc & _)%grows_quiet_measures.
    by rewrite Hlog, shutdown_callbacks_app, Hsc, app_nil_r. }
  pose proof (step_grows_quiet w e) as Hg.
  pose proof (step_keeps_closures w e) as Hk.
  destruct e; cbn [tryShutdown_calls omap]; rewrite ?app_nil_r;
    try (split; [|by rewrite (proj2 Hk)];
         apply (shutdown_inv_same w);
           [by apply Hquiet | exact (proj1 Hk) | exact (proj2 Hk) | exact Hinv]).
  - (* tryShutdown *)
    simpl. destruct (tryShutdown_spec callback w)
      as (closing & open & quiet & Hc & Hs & Hl & Hq).
    simpl in Hc, Hs, Hl. rewrite Hs, map_app. split; [|done].
    destruct Hinv as (H1 & H2 & H3). unfold shutdown_inv. rewrite Hc, Hs, Hl.
    destruct (quiet_measures (channelzRef (srv w)) quiet Hq) as (_ & _ & Hsc & _).
    split; [|split].
    + rewrite !shutdown_callbacks_app, Hsc, completed_app. simpl.
      unfold completed at 2. simpl.
      case_bool_decide; simpl; by rewrite H1.
    + intros k f Hf. rewrite !waiting_app.
      rewrite (waiting_map k (Some (length (shutdowns w)))) by done.
      rewrite (waiting_map k (Some (length (shutdowns w)))) by done.
      destruct (decide (k < length (shutdowns w))%nat) as [Hlt|Hge].
      * rewrite lookup_app_l in Hf by done. rewrite (H2 k f Hf).
        rewrite bool_decide_eq_false_2 by (intros [= ?]; lia). f_equal. lia.
      * rewrite lookup_app_r in Hf by lia.
        destruct (k - length (shutdowns w))%nat as [|n] eqn:Hn; [|by destruct n].
        injection Hf as <-. simpl.
        assert (k = length (shutdowns w)) as -> by lia.
        rewrite H3 by lia. rewrite bool_decide_eq_true_2 by done. lia.
    + intros k. rewrite length_app. simpl. intros Hk'. rewrite !waiting_app.
      rewrite (waiting_map k (Some (length (shutdowns w)))) by done.
      rewrite (waiting_map k (Some (length (shutdowns w)))) by done.
      rewrite H3 by lia. rewrite bool_decide_eq_false_2 by (intros [= ?]; lia). done.
  - (* forceShutdown *)
    cbn [step]. destruct (forceShutdown_spec w) as (closing & Hc & Hs & Hl).
    split; [|by rewrite Hs].
    eapply shutdown_inv_more; eauto.
    intros k. by rewrite (waiting_map k None).
  - (* NextTick *)
    destruct Hk as [Hc Hs]. split; [|by rewrite Hs].
    apply (shutdown_inv_same w); [|done|done|done]. cbn [step].
    destruct (nextTickQueue w); [done|].
    change (log (emit ?es ?w0)) with (log w0 ++ es).
    by rewrite shutdown_callbacks_app, app_nil_r.
  - (* a close event *)
    cbn [step]. destruct (closeListeners w !! i) as [c|] eqn:Hi; [|done].
    pose proof (λ k, waiting_delete k (closeListeners w) i c Hi) as Hdel.
    destruct c as [ref|ref k|k|session ref clientAddress]; cbn [fire_close].
    + split; [|done]. apply (shutdown_inv_waiting w); [| |done|done].
      * change (log (emit ?es ?w0)) with (log w0 ++ es).
        by rewrite shutdown_callbacks_app, app_nil_r.
      * intros k. rewrite (Hdel k). simpl. lia.
    + apply maybeCallback_inv; [| done | | done].
      * change (log (emit ?es ?w0)) with (log w0 ++ es).
        by rewrite shutdown_callbacks_app, app_nil_r.
      * intros k'. rewrite (Hdel k'). simpl.
        f_equal. repeat case_bool_decide; congruence.
    + apply maybeCallback_inv; [done | done | | done].
      intros k'. rewrite (Hdel k'). simpl.
      f_equal. repeat case_bool_decide; congruence.
    + split; [|done]. apply (shutdown_inv_waiting w); [| |done|done].
      * change (log (with_srv ?f (emit ?es ?w0))) with (log w0 ++ es).
        by rewrite shutdown_callbacks_app, app_nil_r.
      * intros k. rewrite (Hdel k). simpl. lia.
  - (* a session *)
    cbn [step]. split.
    + apply (shutdown_inv_waiting w); [by apply Hquiet| |..].
      * intros k. unfold onSession, registerChannelzSocket.
        destruct (started (srv w)); [|done].
        unfold set_closeListeners, emit, with_srv, set_nextId. cbn -[waiting].
        rewrite waiting_app. unfold waiting at 2. simpl. lia.
      * unfold onSession, registerChannelzSocket. by destruct (started (srv w)).
      * done.
    + unfold onSession, registerChannelzSocket.
      by destruct (started (srv w)).
Qed.

Lemma shutdown_inv_new ref o : shutdown_inv (new_World ref o).
Proof.
  split; [done|]. split; [|done].
  intros k f Hk. by destruct k.
Qed.

Lemma run_shutdown_inv events :
  ∀ w : World,
    shutdown_inv w →
    shutdown_inv (run w events)
    ∧ map ts_callback (shutdowns (run w events))
      = map ts_callback (shutdowns w) ++ tryShutdown_calls events.
Proof.
  unfold run. induction events as [|e l IH]; intros w Hinv.
  - simpl. by rewrite app_nil_r.
  - destruct (step_shutdown_inv w e Hinv) as [H1 H2].
    destruct (IH _ H1) as [H3 H4].
    split; [exact H3|].
    cbn [fold_left]. rewrite H4, H2, <- app_assoc. f_equal.
    unfold tryShutdown_calls. by destruct e.
Qed.

Lemma completed_finished (l : list CloseListener) frames :
  ∀ n,
    (∀ k f, frames !! k = Some f →
            pendingChecks f = Z.of_nat (waiting (n + k) l)) →
    completed frames = finished_from n (map ts_callback frames) l.
Proof.
  induction frames as [|f frames IH]; intros n Hp; [done|].
  change (completed (f :: frames)) with (completed ([f] ++ frames)).
  rewrite completed_app. cbn [map finished_from]. f_equal.
  - pose proof (Hp 0%nat f eq_refl) as H0. rewrite Nat.add_0_r in H0.
    unfold completed. simpl.
    repeat case_bool_decide; try done; lia.
  - apply IH. intros k f' Hk.
    rewrite (Hp (S k) f' Hk). do 2 f_equal. lia.
Qed.

Lemma finished_from_submseteq calls l : ∀ k, finished_from k calls l ⊆+ calls.
Proof.
  induction calls as [|c calls IH]; intros k; [done|].
  cbn [finished_from]. case_bool_decide; simpl.
  - by apply submseteq_skip.
  - by apply submseteq_cons.
Qed.

(** On a server run from its construction, the [tryShutdown]
    callbacks that have been called are, up to order, the callbacks of the
    [tryShutdown] calls none of whose ['close'] listeners is still
    waiting: a call's callback is called when the last server and the last
    session it closed has emitted ['close'], not before, and once. *)
Theorem tryShutdown_calls_back_when_all_closed ref o (events : list Event) :
  shutdown_callbacks (log (run (new_World ref o) events))
  ≡ₚ finished_from 0 (tryShutdown_calls events)
       (closeListeners (run (new_World ref o) events)).
Proof.
  destruct (run_shutdown_inv events _ (shutdown_inv_new ref o))
    as ((H1 & H2 & _) & Hcalls).
  simpl in Hcalls. rewrite H1, <- Hcalls.
  by rewrite (completed_finished (closeListeners (run (new_World ref o) events)) _ 0%nat).
Qed.

(** Whatever happens to a server, a callback is not called more often
    by [tryShutdown] than [tryShutdown] was called with it. *)
Theorem tryShutdown_callback_at_most_once ref o (events : list Event) :
  shutdown_callbacks (log (run (new_World ref o) events))
  ⊆+ tryShutdown_calls events.
Proof.
  destruct (run_shutdown_inv events _ (shutdown_inv_new ref o))
    as ((H1 & H2 & _) & Hcalls).
  simpl in Hcalls. rewrite H1.
  rewrite (completed_finished (closeListeners (run (new_World ref o) events)) _ 0%nat)
    by exact H2.
  rewrite Hcalls. apply finished_from_submseteq.
Qed.











End RunInvariants.

Section RunInvariantsExamples.
#[local] Existing Instance lan.

(** A resolver result that arrives after a shutdown still binds: the
    server of a [bindAsync] call whose resolver had not answered when
    [forceShutdown] ran is listening after the result came in, and [start]
    then succeeds. *)
Lemma late_resolution_reopens_server :
  started
    (srv (run fresh_world
            [CallBindAsync (VString "localhost:0") (VServerCredentials false)
               (VFunction 1);
             CallForceShutdown;
             ResolverResult 0 (Resolved lan_addresses);
             CallStart]))
  = true
  ∧ existsb (λ e, listening (server e))
      (http2ServerList
         (srv (run fresh_world
                 [CallBindAsync (VString "localhost:0") (VServerCredentials false)
                    (VFunction 1);
                  CallForceShutdown;
                  ResolverResult 0 (Resolved lan_addresses);
                  CallStart])))
    = true.
Proof. split; vm_compute; reflexivity. Qed.

End RunInvariantsExamples.
